(** * Image-processing task system: queue, worker registry, filter pipeline
      and filter factory.

    A shallow embedding of
      - workers/redis_task_queue_v2.py   (RedisTaskQueueV2)
      - workers/worker_registry.py       (WorkerRegistry)
      - filters/*.py                     (BaseFilter and its four subclasses)
      - core/filter_pipeline.py          (FilterPipeline)
      - core/filter_factory.py           (FilterFactory)
      - core/batch_processor.py          (BatchProcessor)
      - demos/demo_full_test.py          (send_task)
    followed by the properties of these classes.

    The Redis server, the JSON codec, the imaging library and the file
    system are outside the repository.  Redis is modelled by the documented
    meaning of the commands the code issues; the JSON codec, the imaging
    operations, the file operations, and the text, the difference and the
    rounding of floats are section variables. *)

From Stdlib Require Import ZArith QArith Qround Lia List Ascii String.
From Stdlib Require Import DecimalString DecimalZ Sorted.
From stdpp Require Import base option list strings gmap relations sorting.

Set Warnings "-register-all".

Local Open Scope Z_scope.
Local Open Scope string_scope.

(* ================================================================== *)
(** ** Python values, exceptions and built-ins                          *)
(* ================================================================== *)

Module Py.

(** A number: an [int] or a finite [float], kept as the rational it
    denotes, or one of the floats [inf], [-inf] and [nan]. *)
Inductive number :=
  | Fin (q : Q)
  | PosInf
  | NegInf
  | NaN.

Bind Scope Q_scope with number.

(** The values that travel through dictionaries: JSON documents, keyword
    arguments, and the dictionaries the registry hands out. *)
Inductive pyval :=
  | PNone
  | PBool (b : bool)
  | PNum (x : number)
  | PStr (s : string)
  | PList (l : list pyval)
  | PDict (l : list (string * pyval)).

(** [bool(v)], as used by [if v:]. *)
Definition truthy (v : pyval) : bool :=
  match v with
  | PNone => false
  | PBool b => b
  | PNum (Fin q) => negb (Qeq_bool q 0)
  | PNum _ => true
  | PStr s => negb (String.eqb s "")
  | PList l => negb (Nat.eqb (length l) 0)
  | PDict l => negb (Nat.eqb (length l) 0)
  end.

(** A number, for the comparison operators: [bool] is a subclass of [int];
    comparing anything else with a number raises [TypeError]. *)
Definition as_number (v : pyval) : option number :=
  match v with
  | PNum x => Some x
  | PBool true => Some (Fin 1%Q)
  | PBool false => Some (Fin 0%Q)
  | _ => None
  end.

(** [a < b] and [a <= b] on numbers: the order of the values, with [-inf]
    below and [inf] above the others; every comparison with [nan] is
    false. *)
Definition num_lt (a b : number) : bool :=
  match a, b with
  | NaN, _ | _, NaN => false
  | Fin x, Fin y => negb (Qle_bool y x)
  | NegInf, NegInf => false
  | NegInf, _ => true
  | _, NegInf => false
  | PosInf, _ => false
  | Fin _, PosInf => true
  end.

Definition num_le (a b : number) : bool :=
  match a, b with
  | NaN, _ | _, NaN => false
  | Fin x, Fin y => Qle_bool x y
  | NegInf, _ => true
  | _, NegInf => false
  | _, PosInf => true
  | PosInf, Fin _ => false
  end.

Definition is_nan (a : number) : bool :=
  match a with NaN => true | _ => false end.

(** Exception classes that occur, and what an exception carries.  The text
    of a message is an f-string; it is kept as the values the f-string
    interpolates. *)
Inductive exn_class := ValueError | TypeError | AttributeError | LibraryError.

Inductive message :=
  | Msg (text : string)
  | Msg_radius (radius : number)          (* "El radio debe ser positivo, se recibio: {radius}" *)
  | Msg_factor (factor : number)          (* "El factor debe ser positivo, se recibio: {factor}" *)
  | Msg_empty_pipeline                    (* "El pipeline debe tener al menos un filtro" *)
  | Msg_not_found (filter_type : string) (available : list string)
  | Msg_no_type                           (* "La configuracion debe incluir el campo 'type'" *)
  | Msg_unexpected_kwarg (cls kw : string)
  | Msg_multiple_values (function argument : string)  (* "{function}() got multiple values for argument '{argument}'" *)
  | Msg_not_subclass (cls : string)       (* "La clase debe heredar de BaseFilter, recibido: {filter_class}" *)
  | Msg_not_a_class                       (* "issubclass() arg 1 must be a class" *)
  | Msg_could_not_convert (s : string)    (* "could not convert string to float: ..." *)
  | Msg_not_comparable (v : pyval)        (* "'<' not supported between ..." *)
  | Msg_no_attribute (v : pyval) (attr : string)
  | Msg_invalid_literal (s : string)      (* "invalid literal for int() with base 10: ..." *)
  | Msg_create (filter_type : string) (kwargs : list (string * pyval)) (cause : message)
  | Msg_pipeline_item (i : nat) (filter_type : pyval) (cause : message).

Record exn := Exn { exn_type : exn_class; exn_str : message }.

(** The outcome of a call: it returns a value or raises. *)
Inductive outcome (A : Type) :=
  | Return (a : A)
  | Raise (e : exn).
Arguments Return {A} a.
Arguments Raise {A} e.

Definition returned {A} (o : outcome A) : option A :=
  match o with Return a => Some a | Raise _ => None end.

(** [str(n)] for an [int], and [int(s)] for a string.  [int] is modelled on
    an optional minus sign followed by decimal digits, which is what [str]
    produces; other spellings that Python also reads (surrounding blanks, a
    plus sign, underscores) raise here. *)
Definition str_int (n : Z) : string := NilZero.string_of_int (Z.to_int n).

Definition int (s : string) : outcome Z :=
  match NilZero.int_of_string s with
  | Some d => Return (Z.of_int d)
  | None => Raise (Exn ValueError (Msg_invalid_literal s))
  end.

(** [s.lower()] on ASCII letters. *)
Definition lower_ascii (c : ascii) : ascii :=
  let n := nat_of_ascii c in
  if (Nat.leb 65 n && Nat.leb n 90)%bool then ascii_of_nat (n + 32) else c.

Fixpoint lower (s : string) : string :=
  match s with
  | EmptyString => EmptyString
  | String c r => String (lower_ascii c) (lower r)
  end.

End Py.

(** A rational is read as the number it denotes. *)
Coercion Py.Fin : Q >-> Py.number.

(* ================================================================== *)
(** ** The broker                                                       *)
(* ================================================================== *)

(** The Redis keyspace as this program uses it: list keys and hash keys.
    The two kinds of key never coincide in the program (list keys end in a
    fixed suffix, hash keys contain [":task:"] or the registry prefix), so
    they are kept in two maps.  A list key that is absent reads as the empty
    list and a hash key that is absent as the empty hash, as in Redis. *)
Module Redis.

Record db := Db {
  lists : gmap string (list string);
  hashes : gmap string (gmap string string)
}.

Definition empty : db := Db ∅ ∅.

(** A command reads and updates the keyspace and gives a reply. *)
Definition cmd (A : Type) : Type := db -> A * db.

Definition ret {A} (a : A) : cmd A := fun d => (a, d).

Definition bind {A B} (c : cmd A) (k : A -> cmd B) : cmd B :=
  fun d => let (a, d') := c d in k a d'.

Definition exec {A} (c : cmd A) (d : db) : db := snd (c d).
Definition reply {A} (c : cmd A) (d : db) : A := fst (c d).

(** LRANGE key 0 -1 *)
Definition lrange_all (key : string) (d : db) : list string :=
  default [] (lists d !! key).

(** LLEN key *)
Definition llen (key : string) (d : db) : Z :=
  Z.of_nat (length (lrange_all key d)).

Definition set_list (key : string) (l : list string) (d : db) : db :=
  Db (<[key := l]> (lists d)) (hashes d).

(** RPUSH key value: append at the tail; replies the new length. *)
Definition rpush (key value : string) : cmd Z := fun d =>
  let l := (lrange_all key d ++ [value])%list in
  (Z.of_nat (length l), set_list key l d).

(** LPUSH key value: insert at the head; replies the new length. *)
Definition lpush (key value : string) : cmd Z := fun d =>
  let l := value :: lrange_all key d in
  (Z.of_nat (length l), set_list key l d).

(** RPOPLPUSH source destination: remove the tail element of [source] and
    insert it at the head of [destination]; nil when [source] is empty.
    BRPOPLPUSH is the same command once an element is there; with no other
    client pushing, it times out on an empty list and replies nil. *)
Definition rpoplpush (source destination : string) : cmd (option string) :=
  fun d =>
  match rev (lrange_all source d) with
  | [] => (None, d)
  | value :: front =>
      let d1 := set_list source (rev front) d in
      (Some value, set_list destination (value :: lrange_all destination d1) d1)
  end.

Definition brpoplpush (source destination : string) (timeout : Z)
  : cmd (option string) := rpoplpush source destination.

(** Remove the first occurrence of [value], head to tail. *)
Fixpoint remove_first (value : string) (l : list string) : list string :=
  match l with
  | [] => []
  | x :: r => if String.eqb x value then r else x :: remove_first value r
  end.

(** LREM key 1 value: replies the number of removed elements. *)
Definition lrem1 (key value : string) : cmd Z := fun d =>
  let l := lrange_all key d in
  let l' := remove_first value l in
  (Z.of_nat (length l) - Z.of_nat (length l'), set_list key l' d).

(** HGETALL key *)
Definition hgetall (key : string) (d : db) : gmap string string :=
  default ∅ (hashes d !! key).

(** HSET key field value: replies the number of fields that were added. *)
Definition hset (key field value : string) : cmd Z := fun d =>
  let h := hgetall key d in
  (match h !! field with Some _ => 0 | None => 1 end,
   Db (lists d) (<[key := <[field := value]> h]> (hashes d))).

(** HSET key f1 v1 f2 v2 ... (redis-py's [mapping=]) *)
Fixpoint hset_mapping (key : string) (mapping : list (string * string))
  : cmd Z :=
  match mapping with
  | [] => ret 0
  | (f, v) :: rest =>
      bind (hset key f v) (fun a =>
      bind (hset_mapping key rest) (fun b => ret (a + b)))
  end.

(** DEL key: replies the number of keys removed. *)
Definition del (key : string) : cmd Z := fun d =>
  let n := (match hashes d !! key with Some _ => 1 | None => 0 end)
         + (if bool_decide (lrange_all key d = []) then 0 else 1) in
  (n, Db (delete key (lists d)) (delete key (hashes d))).

(** KEYS prefix*: the existing keys that start with [prefix], in the
    server's order. *)
Definition keys_prefix (prefix : string) (d : db) : list string :=
  filter (fun k => String.prefix prefix k = true)
    ((map_to_list (hashes d)).*1
     ++ (map_to_list (filter (fun kl => kl.2 <> []) (lists d))).*1)%list.

(** DEL key1 key2 ...: replies the number of keys removed. *)
Fixpoint del_many (keys : list string) : cmd Z :=
  match keys with
  | [] => ret 0
  | key :: rest =>
      bind (del key) (fun a => bind (del_many rest) (fun b => ret (a + b)))
  end.

(** Sequencing of commands, as the statements of a method follow each
    other (and as a pipeline sends them in one batch). *)
Module Notations.
Notation "x <~ c ;; k" := (bind c (fun x => k))
  (at level 20, c at level 99, k at level 200, only parsing).
Notation "c ;;; k" := (bind c (fun _ => k))
  (at level 100, k at level 200, only parsing, right associativity).
End Notations.

End Redis.

(* ================================================================== *)
(** ** workers/redis_task_queue_v2.py                                   *)
(* ================================================================== *)

Module RedisTaskQueueV2.
Import Py Redis Redis.Notations.

(** The attributes set by [__init__]. *)
Record t := {
  queue_name : string;
  max_retries : Z;
  processing_timeout : Z
}.

(** [RedisTaskQueueV2()] with the default arguments. *)
Definition default_queue : t :=
  {| queue_name := "image_processing_v2";
     max_retries := 3;
     processing_timeout := 300 |}.

Definition pending_key (self : t) : string := queue_name self +:+ ":pending".
Definition processing_key (self : t) : string := queue_name self +:+ ":processing".
Definition completed_key (self : t) : string := queue_name self +:+ ":completed".
Definition failed_key (self : t) : string := queue_name self +:+ ":failed".
Definition dead_letter_key (self : t) : string := queue_name self +:+ ":dead_letter".

(** f"{self.queue_name}:task:{task_id}" *)
Definition task_key (self : t) (task_id : string) : string :=
  queue_name self +:+ ":task:" +:+ task_id.

Section Codec.

(** [json.dumps] and [json.loads]; [json_loads] gives [None] where the
    library raises [JSONDecodeError]. *)
Variable json_dumps : pyval -> string.
Variable json_loads : string -> option pyval.

(** [add_task].  [clock_ms] is the value of [int(time.time() * 1000)] and
    [utcnow] that of [datetime.utcnow().isoformat()] at the call.
    [task_data] is a dictionary, so its entry of the hash is written with
    [json.dumps]; the other five entries are written with [str]. *)
Definition add_task (self : t) (clock_ms : Z) (utcnow : string)
    (task_data : list (string * pyval)) : cmd string :=
  let task_id := "task-" +:+ str_int clock_ms in
  let task :=
    [ ("task_id", task_id);
      ("data", json_dumps (PDict task_data));
      ("status", "pending");
      ("created_at", utcnow);
      ("retry_count", str_int 0);
      ("last_error", "None") ] in
  hset_mapping (task_key self task_id) task ;;;
  rpush (pending_key self) task_id ;;;
  ret task_id.

(** One field of the returned task: [json.loads(value)], or [value] itself
    when that raises. *)
Definition parse_field (value : string) : pyval :=
  match json_loads value with
  | Some v => v
  | None => PStr value
  end.

(** [get_task]: the task as it was read before the metadata update, or
    [None]. *)
Definition get_task (self : t) (worker_id : string) (utcnow : string)
    (timeout : Z) : cmd (option (gmap string pyval)) :=
  task_id <~ brpoplpush (pending_key self) (processing_key self) timeout ;;
  match task_id with
  | None => ret None
  | Some task_id =>
      (* [if not task_id]: the empty string is as good as no reply *)
      if String.eqb task_id "" then ret None else
      let task_key := task_key self task_id in
      fun d =>
      let task_data := hgetall task_key d in
      if bool_decide (task_data = ∅) then
        (lrem1 (processing_key self) task_id ;;; ret None) d
      else
        let task := parse_field <$> task_data in
        (hset task_key "status" "processing" ;;;
         hset task_key "worker_id" worker_id ;;;
         hset task_key "started_at" utcnow ;;;
         ret (Some task)) d
  end.

(** [mark_completed]; [result] is the optional dictionary. *)
Definition mark_completed (self : t) (task_id : string) (utcnow : string)
    (result : option pyval) : cmd unit :=
  lrem1 (processing_key self) task_id ;;;
  hset (task_key self task_id) "status" "completed" ;;;
  hset (task_key self task_id) "completed_at" utcnow ;;;
  (match result with
   | Some r =>
       if truthy r then hset (task_key self task_id) "result" (json_dumps r)
       else ret 0
   | None => ret 0
   end) ;;;
  rpush (completed_key self) task_id ;;;
  ret tt.

End Codec.

(** [mark_failed].  It raises when the stored [retry_count] is not an
    integer literal; the removal from [processing] has happened by then. *)
Definition mark_failed (self : t) (task_id error_message : string)
    (should_retry : bool) (utcnow : string) : cmd (outcome unit) :=
  lrem1 (processing_key self) task_id ;;;
  fun d =>
  let task_data := hgetall (task_key self task_id) d in
  match (match task_data !! "retry_count" with
         | Some s => int s
         | None => Return 0
         end) with
  | Raise e => (Raise e, d)
  | Return retry_count =>
      let retry_count := retry_count + 1 in
      (hset (task_key self task_id) "retry_count" (str_int retry_count) ;;;
       hset (task_key self task_id) "last_error" error_message ;;;
       hset (task_key self task_id) "failed_at" utcnow ;;;
       if should_retry && (retry_count <? max_retries self)%Z then
         hset (task_key self task_id) "status" "failed" ;;;
         rpush (pending_key self) task_id ;;;
         ret (Return tt)
       else
         hset (task_key self task_id) "status" "dead" ;;;
         rpush (dead_letter_key self) task_id ;;;
         ret (Return tt)) d
  end.

(** [get_stats], without the constant [max_retries] entry. *)
Record stats := {
  stat_pending : Z;
  stat_processing : Z;
  stat_completed : Z;
  stat_failed : Z;
  stat_dead_letter : Z
}.

Definition get_stats (self : t) (d : db) : stats :=
  {| stat_pending := llen (pending_key self) d;
     stat_processing := llen (processing_key self) d;
     stat_completed := llen (completed_key self) d;
     stat_failed := llen (failed_key self) d;
     stat_dead_letter := llen (dead_letter_key self) d |}.

Definition get_dead_letter_tasks (self : t) (d : db) : list string :=
  lrange_all (dead_letter_key self) d.

(** [retry_dead_letter_task] *)
Definition retry_dead_letter_task (self : t) (task_id : string) : cmd unit :=
  removed <~ lrem1 (dead_letter_key self) task_id ;;
  if negb (removed =? 0)%Z then
    hset (task_key self task_id) "retry_count" (str_int 0) ;;;
    hset (task_key self task_id) "status" "pending" ;;;
    rpush (pending_key self) task_id ;;;
    ret tt
  else ret tt.

Section Clock.

(** [datetime.fromisoformat], with [None] where it raises [ValueError];
    [(datetime.utcnow() - started_at).total_seconds()] for a reading of the
    clock given by its [isoformat], with [None] where the subtraction raises
    [TypeError]; the text f"Timeout: sin progreso por {elapsed:.0f}s"; and
    the readings of the clock made during one call, in order. *)
Variable datetime : Type.
Variable fromisoformat : string -> option datetime.
Variable total_seconds : string -> datetime -> option Q.
Variable timeout_message : Q -> string.
Variable utcnow : nat -> string.

(** The loop of [recover_stuck_tasks] over the ids read from [processing];
    [reading] counts the readings of the clock made so far.  An exception
    of class [ValueError] or [TypeError] inside the [try] is passed over. *)
Fixpoint recover_loop (self : t) (task_ids : list string) (reading : nat)
    (recovered : Z) : cmd (outcome Z) :=
  match task_ids with
  | [] => ret (Return recovered)
  | task_id :: rest => fun d =>
      let task_data := hgetall (task_key self task_id) d in
      if bool_decide (task_data = ∅) then
        recover_loop self rest reading recovered d
      else
        match task_data !! "started_at" with
        | None => recover_loop self rest reading recovered d
        | Some started_at_str =>
            if String.eqb started_at_str "" then
              recover_loop self rest reading recovered d
            else
              match fromisoformat started_at_str with
              | None => recover_loop self rest reading recovered d
              | Some started_at =>
                  match total_seconds (utcnow reading) started_at with
                  | None => recover_loop self rest (S reading) recovered d
                  | Some elapsed =>
                      if num_lt (inject_Z (processing_timeout self)) elapsed then
                        (o <~ mark_failed self task_id (timeout_message elapsed)
                                true (utcnow (S reading)) ;;
                         match o with
                         | Return _ =>
                             recover_loop self rest (S (S reading)) (recovered + 1)
                         | Raise e =>
                             match exn_type e with
                             | ValueError | TypeError =>
                                 recover_loop self rest (S reading) recovered
                             | _ => ret (Raise e)
                             end
                         end) d
                      else recover_loop self rest (S reading) recovered d
                  end
              end
        end
  end.

(** [recover_stuck_tasks] *)
Definition recover_stuck_tasks (self : t) : cmd (outcome Z) := fun d =>
  recover_loop self (lrange_all (processing_key self) d) 0 0 d.

End Clock.

(** [clear]: the patterns of the two KEYS calls are "task:*" and
    "result:*". *)
Definition clear (self : t) : cmd unit :=
  del_many [pending_key self; processing_key self; completed_key self;
            failed_key self; dead_letter_key self] ;;;
  fun d =>
  let task_keys := keys_prefix "task:" d in
  let result_keys := keys_prefix "result:" d in
  ((match task_keys with [] => ret 0 | _ => del_many task_keys end) ;;;
   (match result_keys with [] => ret 0 | _ => del_many result_keys end) ;;;
   ret tt) d.

End RedisTaskQueueV2.

(* ================================================================== *)
(** ** workers/worker_registry.py                                       *)
(* ================================================================== *)

Module WorkerRegistry.
Import Py Redis Redis.Notations.

Record t := { heartbeat_timeout : Z }.

(** [WorkerRegistry()] with the default arguments. *)
Definition default_registry : t := {| heartbeat_timeout := 30 |}.

Definition registry_key : string := "worker_registry:workers".

(** f"{self.registry_key}:{worker_id}" *)
Definition worker_key (worker_id : string) : string :=
  registry_key +:+ ":" +:+ worker_id.

(** [d[k] = v] on a dictionary kept in insertion order. *)
Fixpoint dict_set {V} (k : string) (v : V) (d : list (string * V))
  : list (string * V) :=
  match d with
  | [] => [(k, v)]
  | (k', v') :: r =>
      if String.eqb k' k then (k, v) :: r else (k', v') :: dict_set k v r
  end.

(** [d.update(other)] *)
Definition dict_update {V} (d other : list (string * V)) : list (string * V) :=
  fold_left (fun acc kv => dict_set kv.1 kv.2 acc) other d.

(** [success is not None], where [success] is the integer reply of HSET. *)
Definition is_not_None (success : Z) : bool := true.

(** [unregister_worker] *)
Definition unregister_worker (self : t) (worker_id : string) : cmd bool :=
  deleted <~ del (worker_key worker_id) ;;
  ret (0 <? deleted)%Z.

(** The loop of [cleanup_dead_workers].  The [worker_id] entry of a
    dictionary comes from the hash, so it is a string when it is there. *)
Fixpoint cleanup_loop (self : t) (dead_workers : list (gmap string pyval))
    (count : Z) : cmd Z :=
  match dead_workers with
  | [] => ret count
  | worker :: rest =>
      match worker !! "worker_id" with
      | Some (PStr worker_id) =>
          if negb (String.eqb worker_id "") then
            unregister_worker self worker_id ;;;
            cleanup_loop self rest (count + 1)
          else cleanup_loop self rest count
      | _ => cleanup_loop self rest count
      end
  end.

(** [clear] *)
Definition clear (self : t) : cmd unit := fun d =>
  match keys_prefix (registry_key +:+ ":") d with
  | [] => (tt, d)
  | worker_keys => (del_many worker_keys ;;; ret tt) d
  end.

Section Floats.

(** The clock of the registry, [time.time()], is a [float], and so is a
    stored heartbeat once it is read back.  A float is a [number]; its
    comparisons, also with the [int] timeout, are exact and are those of
    [number].  What formats or rounds a float belongs to the interpreter and
    is taken as it is: [str(x)]; [float(s)], with [None] where it raises
    [ValueError]; the difference [x - y] of two floats; and [round(x, 2)]. *)
Variable str_float : number -> string.
Variable float_of_str : string -> option number.
Variable float_sub : number -> number -> number.
Variable round2 : number -> number.

(** [str(time.time())], and [float(s)] on a stored field. *)
Definition str_time (now : number) : string := str_float now.

Definition float (s : string) : outcome number :=
  match float_of_str s with
  | Some x => Return x
  | None => Raise (Exn ValueError (Msg_could_not_convert s))
  end.

(** [register_worker]; [now] is the reading of the clock, and the values of
    [metadata] are given as [str] renders them. *)
Definition register_worker (self : t) (worker_id : string) (now : number)
    (utcnow : string) (metadata : option (list (string * string)))
  : cmd bool :=
  let worker_info :=
    [ ("worker_id", worker_id);
      ("registered_at", utcnow);
      ("last_heartbeat", str_time now);
      ("status", "active") ] in
  let worker_info :=
    match metadata with
    | Some (kv :: m) => dict_update worker_info (kv :: m)
    | _ => worker_info
    end in
  fold_right (fun kv k => hset (worker_key worker_id) kv.1 kv.2 ;;; k)
    (ret true) worker_info.

(** [send_heartbeat] *)
Definition send_heartbeat (self : t) (worker_id : string) (now : number)
  : cmd bool :=
  success <~ hset (worker_key worker_id) "last_heartbeat" (str_time now) ;;
  ret (is_not_None success).

(** The dictionary handed out for a worker: the hash, with the two
    computed entries; the time since the heartbeat is stored rounded. *)
Definition annotated (worker_info : gmap string string)
    (time_since_heartbeat : number) (is_alive : bool) : gmap string pyval :=
  <["is_alive" := PBool is_alive]>
    (<["time_since_heartbeat" := PNum (round2 time_since_heartbeat)]>
       (PStr <$> worker_info)).

(** float(worker_info.get("last_heartbeat", 0)) *)
Definition last_heartbeat_of (worker_info : gmap string string)
  : outcome number :=
  match worker_info !! "last_heartbeat" with
  | Some s => float s
  | None => Return (Fin 0)
  end.

(** [time_since_heartbeat < self.heartbeat_timeout], the test of
    [get_active_workers], and [time_since_heartbeat >=
    self.heartbeat_timeout], the test of [get_dead_workers]. *)
Definition recent (self : t) (time_since_heartbeat : number) : bool :=
  num_lt time_since_heartbeat (Fin (inject_Z (heartbeat_timeout self))).

Definition overdue (self : t) (time_since_heartbeat : number) : bool :=
  num_le (Fin (inject_Z (heartbeat_timeout self))) time_since_heartbeat.

(** The loop of [get_active_workers] ([alive = true]) and of
    [get_dead_workers] ([alive = false]) over the keys found. *)
Fixpoint scan_workers (self : t) (alive : bool) (current_time : number)
    (worker_keys : list string) (d : db) (acc : list (gmap string pyval))
  : outcome (list (gmap string pyval)) :=
  match worker_keys with
  | [] => Return acc
  | key :: rest =>
      let worker_info := hgetall key d in
      if bool_decide (worker_info = ∅) then
        scan_workers self alive current_time rest d acc
      else
        match last_heartbeat_of worker_info with
        | Raise e => Raise e
        | Return last_heartbeat =>
            let time_since_heartbeat := float_sub current_time last_heartbeat in
            if (if alive then recent self time_since_heartbeat
                else overdue self time_since_heartbeat)
            then scan_workers self alive current_time rest d
                   (acc ++ [annotated worker_info time_since_heartbeat alive])%list
            else scan_workers self alive current_time rest d acc
        end
  end.

(** [get_active_workers] *)
Definition get_active_workers (self : t) (current_time : number) (d : db)
  : outcome (list (gmap string pyval)) :=
  scan_workers self true current_time
    (keys_prefix (registry_key +:+ ":") d) d [].

(** [get_dead_workers] *)
Definition get_dead_workers (self : t) (current_time : number) (d : db)
  : outcome (list (gmap string pyval)) :=
  scan_workers self false current_time
    (keys_prefix (registry_key +:+ ":") d) d [].

(** [cleanup_dead_workers] *)
Definition cleanup_dead_workers (self : t) (current_time : number)
  : cmd (outcome Z) := fun d =>
  match get_dead_workers self current_time d with
  | Raise e => (Raise e, d)
  | Return dead_workers =>
      let (count, d') := cleanup_loop self dead_workers 0 d in
      (Return count, d')
  end.

(** [get_worker_info] *)
Definition get_worker_info (self : t) (worker_id : string) (now : number)
    (d : db) : outcome (option (gmap string pyval)) :=
  let worker_info := hgetall (worker_key worker_id) d in
  if bool_decide (worker_info = ∅) then Return None
  else
    match last_heartbeat_of worker_info with
    | Raise e => Raise e
    | Return last_heartbeat =>
        let time_since_heartbeat := float_sub now last_heartbeat in
        Return (Some (annotated worker_info time_since_heartbeat
                        (recent self time_since_heartbeat)))
    end.

(** [get_stats]; the two scans read the clock one after the other. *)
Record stats := {
  total_registered : nat;
  active : nat;
  dead : nat;
  heartbeat_timeout_seconds : Z
}.

Definition get_stats (self : t) (time_active time_dead : number) (d : db)
  : outcome stats :=
  match get_active_workers self time_active d with
  | Raise e => Raise e
  | Return active_workers =>
      match get_dead_workers self time_dead d with
      | Raise e => Raise e
      | Return dead_workers =>
          Return {| total_registered := length active_workers + length dead_workers;
                    active := length active_workers;
                    dead := length dead_workers;
                    heartbeat_timeout_seconds := heartbeat_timeout self |}
      end
  end.

End Floats.

End WorkerRegistry.

(* ================================================================== *)
(** ** filters/*.py                                                     *)
(* ================================================================== *)

Module Filters.
Import Py.

(** What [print] writes during a constructor call. *)
Inductive printed :=
  | Warning_high_factor (factor : number).  (* "Advertencia: factor={factor} es muy alto, ..." *)

Section Imaging.

(** [PIL.Image.Image] and the calls the filters make on it.  Each is a
    call into the library: it gives a new image or raises. *)
Variable Image : Type.
Variable gaussian_blur : number -> Image -> outcome Image.  (* image.filter(ImageFilter.GaussianBlur(radius=r)) *)
Variable enhance_brightness : number -> Image -> outcome Image.  (* ImageEnhance.Brightness(image).enhance(f) *)
Variable find_edges : Image -> outcome Image.  (* image.filter(ImageFilter.FIND_EDGES) *)
Variable convert_L : Image -> outcome Image.  (* image.convert('L') *)

(** An instance of a subclass of [BaseFilter]: one of the four classes of
    the package with its attributes, or an instance of a class defined
    elsewhere, given by its class name and its [apply]. *)
Inductive BaseFilter :=
  | Blur (radius : number)
  | Brightness (factor : number)
  | Edges
  | Grayscale
  | Custom (class_name : string) (apply : Image -> outcome Image).

(** [self.__class__.__name__] *)
Definition class_name (f : BaseFilter) : string :=
  match f with
  | Blur _ => "BlurFilter"
  | Brightness _ => "BrightnessFilter"
  | Edges => "EdgesFilter"
  | Grayscale => "GrayscaleFilter"
  | Custom n _ => n
  end.

(** [BlurFilter.__init__(radius)] *)
Definition BlurFilter_init (radius : pyval) : outcome BaseFilter :=
  match as_number radius with
  | None => Raise (Exn TypeError (Msg_not_comparable radius))
  | Some r =>
      if num_lt r 0 then Raise (Exn ValueError (Msg_radius r))
      else Return (Blur r)
  end.

(** The default of [radius]. *)
Definition BlurFilter_default_radius : pyval := PNum 2.

(** [BrightnessFilter.__init__(factor)], with what it prints. *)
Definition BrightnessFilter_init (factor : pyval)
  : list printed * outcome BaseFilter :=
  match as_number factor with
  | None => ([], Raise (Exn TypeError (Msg_not_comparable factor)))
  | Some f =>
      if num_lt f 0 then ([], Raise (Exn ValueError (Msg_factor f)))
      else
        ((if num_lt 5 f then [Warning_high_factor f] else []),
         Return (Brightness f))
  end.

(** The default of [factor], 1.5. *)
Definition BrightnessFilter_default_factor : pyval := PNum (3 # 2).

(** [EdgesFilter.__init__()] and [GrayscaleFilter()] *)
Definition EdgesFilter_init : outcome BaseFilter := Return Edges.
Definition GrayscaleFilter_init : outcome BaseFilter := Return Grayscale.

(** [filter_obj.apply(image)] *)
Definition apply (f : BaseFilter) (image : Image) : outcome Image :=
  match f with
  | Blur radius => gaussian_blur radius image
  | Brightness factor => enhance_brightness factor image
  | Edges => find_edges image
  | Grayscale => convert_L image
  | Custom _ run => run image
  end.

End Imaging.

Arguments Blur {Image} radius.
Arguments Brightness {Image} factor.
Arguments Edges {Image}.
Arguments Grayscale {Image}.
Arguments Custom {Image} class_name apply.
Arguments class_name {Image} f.
Arguments BlurFilter_init {Image} radius.
Arguments BrightnessFilter_init {Image} factor.
Arguments EdgesFilter_init {Image}.
Arguments GrayscaleFilter_init {Image}.

End Filters.

(* ================================================================== *)
(** ** core/filter_pipeline.py                                          *)
(* ================================================================== *)

Module FilterPipeline.
Import Py Filters.

Inductive status := success | failed.

#[global] Instance status_eq_dec : EqDecision status.
Proof. solve_decision. Defined.

(** One entry of [stats['filters']]; the measured [time] is left out. *)
Record filter_stat := {
  name : string;
  index : nat;
  step_status : status;
  error : option message
}.

(** [stats], without [total_time]. *)
Record stats := {
  stat_filters : list filter_stat;
  stat_successful : nat;
  stat_failed : nat;
  total_filters : nat
}.

Section Imaging.

Variable Image : Type.
Variable gaussian_blur : number -> Image -> outcome Image.
Variable enhance_brightness : number -> Image -> outcome Image.
Variable find_edges : Image -> outcome Image.
Variable convert_L : Image -> outcome Image.

(** [os.makedirs(output_dir, exist_ok=True)] followed by
    [result_image.save(os.path.join(output_dir, f"step_{i:02d}_{name}.jpg"))]:
    [None] when both return, the exception when one raises. *)
Variable save_step : string -> nat -> string -> Image -> option exn.

Definition apply_filter : BaseFilter Image -> Image -> outcome Image :=
  Filters.apply Image gaussian_blur enhance_brightness find_edges convert_L.

Record t := {
  filters : list (BaseFilter Image);
  stop_on_error : bool;
  save_intermediate : bool
}.

(** [FilterPipeline(filters, stop_on_error, save_intermediate)] *)
Definition init (filters : list (BaseFilter Image))
    (stop_on_error save_intermediate : bool) : outcome t :=
  match filters with
  | [] => Raise (Exn ValueError Msg_empty_pipeline)
  | _ => Return {| filters := filters;
                   stop_on_error := stop_on_error;
                   save_intermediate := save_intermediate |}
  end.

(** The local variables of [apply] that the loop updates. *)
Record locals := {
  result_image : Image;
  filter_stats : list filter_stat;
  successful_count : nat;
  failed_count : nat
}.

(** The [except] branch, without its [break]. *)
Definition record_failure (i : nat) (filter_name : string) (e : exn)
    (l : locals) : locals :=
  {| result_image := result_image l;
     filter_stats :=
       (filter_stats l ++
        [ {| name := filter_name; index := i;
             step_status := failed; error := Some (exn_str e) |} ])%list;
     successful_count := successful_count l;
     failed_count := S (failed_count l) |}.

(** The [try] branch up to [successful_count += 1]. *)
Definition record_success (i : nat) (filter_name : string) (image : Image)
    (l : locals) : locals :=
  {| result_image := image;
     filter_stats :=
       (filter_stats l ++
        [ {| name := filter_name; index := i;
             step_status := success; error := None |} ])%list;
     successful_count := S (successful_count l);
     failed_count := failed_count l |}.

(** [self.save_intermediate and output_dir] *)
Definition saving (self : t) (output_dir : option string) : option string :=
  match output_dir with
  | Some dir =>
      if save_intermediate self && negb (String.eqb dir "") then Some dir
      else None
  | None => None
  end.

(** The [for] loop of [apply], from index [i] on. *)
Fixpoint loop (self : t) (output_dir : option string) (i : nat)
    (rest : list (BaseFilter Image)) (l : locals) : locals :=
  match rest with
  | [] => l
  | filter_obj :: rest =>
      let filter_name := class_name filter_obj in
      (* except Exception as e: ...; if self.stop_on_error: break *)
      let except e l :=
        let l' := record_failure i filter_name e l in
        if stop_on_error self then l' else loop self output_dir (S i) rest l' in
      match apply_filter filter_obj (result_image l) with
      | Raise e => except e l
      | Return image =>
          let l1 := record_success i filter_name image l in
          match saving self output_dir with
          | None => loop self output_dir (S i) rest l1
          | Some dir =>
              match save_step dir i filter_name image with
              | None => loop self output_dir (S i) rest l1
              | Some e => except e l1
              end
          end
      end
  end.

(** [apply(image, output_dir)].  [image.copy()] is the same image as a
    value; the filters build new images and leave their argument alone. *)
Definition apply (self : t) (image : Image) (output_dir : option string)
  : option Image * stats :=
  let l := loop self output_dir 0 (filters self)
             {| result_image := image; filter_stats := [];
                successful_count := 0; failed_count := 0 |} in
  let stats :=
    {| stat_filters := filter_stats l;
       stat_successful := successful_count l;
       stat_failed := failed_count l;
       total_filters := length (filters self) |} in
  if Nat.eqb (successful_count l) 0 then (None, stats)
  else (Some (result_image l), stats).

(** [add_filter]: the pipeline after the call.  The argument is a filter,
    so the [isinstance] test passes. *)
Definition add_filter (filter_obj : BaseFilter Image) (self : t) : t :=
  {| filters := (filters self ++ [filter_obj])%list;
     stop_on_error := stop_on_error self;
     save_intermediate := save_intermediate self |}.

(** What [remove_filter] does: it returns the filter it removed, or raises
    [IndexError], whose message shows the index and the length. *)
Inductive removal :=
  | Removed (removed : BaseFilter Image)
  | IndexError (index : Z) (len : nat).

(** [remove_filter(index)]: the outcome and the pipeline after the call. *)
Definition remove_filter (index : Z) (self : t) : removal * t :=
  if ((0 <=? index) && (index <? Z.of_nat (length (filters self))))%Z then
    match filters self !! Z.to_nat index with
    | Some removed =>
        (Removed removed,
         {| filters := delete (Z.to_nat index) (filters self);
            stop_on_error := stop_on_error self;
            save_intermediate := save_intermediate self |})
    | None => (IndexError index (length (filters self)), self)
    end
  else (IndexError index (length (filters self)), self).

(** [get_filter_names] and [__len__] *)
Definition get_filter_names (self : t) : list string :=
  class_name <$> filters self.

Definition len (self : t) : nat := length (filters self).

End Imaging.

Arguments filters {Image} t.
Arguments stop_on_error {Image} t.
Arguments save_intermediate {Image} t.
Arguments init {Image} filters stop_on_error save_intermediate.
Arguments result_image {Image} l.
Arguments filter_stats {Image} l.
Arguments successful_count {Image} l.
Arguments failed_count {Image} l.

End FilterPipeline.

(* ================================================================== *)
(** ** core/filter_factory.py                                           *)
(* ================================================================== *)

Module FilterFactory.
Import Py Filters.

Section Imaging.

Variable Image : Type.
Variable gaussian_blur : number -> Image -> outcome Image.
Variable enhance_brightness : number -> Image -> outcome Image.
Variable find_edges : Image -> outcome Image.
Variable convert_L : Image -> outcome Image.
Variable save_step : string -> nat -> string -> Image -> option exn.

(** A keyword-argument dictionary, and a descriptor: dictionaries with
    string keys, in insertion order. *)
Definition dict : Type := list (string * pyval).

(** [d.get(k)] *)
Fixpoint dict_get (k : string) (d : dict) : option pyval :=
  match d with
  | [] => None
  | (k', v) :: r => if String.eqb k' k then Some v else dict_get k r
  end.

(** A filter class, as something to call with keyword arguments. *)
Definition filter_class : Type := dict -> outcome (BaseFilter Image).

(** The first keyword that the signature [allowed] does not have. *)
Definition unexpected_kwarg (allowed : list string) (kwargs : dict)
  : option string :=
  fst <$> find (fun kv => negb (existsb (String.eqb kv.1) allowed)) kwargs.

(** The class [BlurFilter], called with keyword arguments. *)
Definition BlurFilter : filter_class := fun kwargs =>
  match unexpected_kwarg ["radius"] kwargs with
  | Some kw => Raise (Exn TypeError (Msg_unexpected_kwarg "BlurFilter" kw))
  | None =>
      BlurFilter_init (default BlurFilter_default_radius (dict_get "radius" kwargs))
  end.

(** The class [BrightnessFilter], called with keyword arguments; what the
    constructor prints is dropped. *)
Definition BrightnessFilter : filter_class := fun kwargs =>
  match unexpected_kwarg ["factor"] kwargs with
  | Some kw => Raise (Exn TypeError (Msg_unexpected_kwarg "BrightnessFilter" kw))
  | None =>
      snd (BrightnessFilter_init
             (default BrightnessFilter_default_factor (dict_get "factor" kwargs)))
  end.

(** The class [EdgesFilter], called with keyword arguments. *)
Definition EdgesFilter : filter_class := fun kwargs =>
  match unexpected_kwarg [] kwargs with
  | Some kw => Raise (Exn TypeError (Msg_unexpected_kwarg "EdgesFilter" kw))
  | None => EdgesFilter_init
  end.

(** The class [GrayscaleFilter], called with keyword arguments. *)
Definition GrayscaleFilter : filter_class := fun kwargs =>
  match unexpected_kwarg [] kwargs with
  | Some kw => Raise (Exn TypeError (Msg_unexpected_kwarg "GrayscaleFilter" kw))
  | None => GrayscaleFilter_init
  end.

(** The class attribute [_FILTER_REGISTRY] as the module is loaded. *)
Definition _FILTER_REGISTRY : list (string * filter_class) :=
  [ ("blur", BlurFilter);
    ("brightness", BrightnessFilter);
    ("edges", EdgesFilter);
    ("grayscale", GrayscaleFilter);
    ("gray", GrayscaleFilter) ].

Fixpoint registry_get (k : string) (registry : list (string * filter_class))
  : option filter_class :=
  match registry with
  | [] => None
  | (k', c) :: r => if String.eqb k' k then Some c else registry_get k r
  end.

(** What a caller passes as [filter_class]: a subclass of [BaseFilter],
    another class, given by its text, or an object that is no class. *)
Inductive class_object :=
  | Subclass (c : filter_class)
  | OtherClass (repr : string)
  | NotAClass.

(** [register_filter(name, filter_class)]: the registry after the call.
    [issubclass] raises [TypeError] itself when its argument is no class. *)
Definition register_filter (name : string) (cls : class_object)
    (registry : list (string * filter_class))
  : outcome (list (string * filter_class)) :=
  match cls with
  | NotAClass => Raise (Exn TypeError Msg_not_a_class)
  | OtherClass repr => Raise (Exn TypeError (Msg_not_subclass repr))
  | Subclass c => Return (WorkerRegistry.dict_set (lower name) c registry)
  end.

(** [get_available_filters()] *)
Definition get_available_filters (registry : list (string * filter_class))
  : list string := registry.*1.

Section Registry.

(** The registry at the time of the calls. *)
Variable registry : list (string * filter_class).

(** The first keyword of a call of [create] that names one of its own
    parameters, [self] and [filter_type], which the call has bound by
    position already. *)
Definition bound_twice (kwargs : dict) : option string :=
  fst <$> find (fun kv => String.eqb kv.1 "self" || String.eqb kv.1 "filter_type")
            kwargs.

(** [create(filter_type, **kwargs)].  A keyword that names a parameter of
    [create] makes the call itself raise [TypeError], before the body
    runs. *)
Definition create (filter_type : string) (kwargs : dict)
  : outcome (BaseFilter Image) :=
  match bound_twice kwargs with
  | Some argument =>
      Raise (Exn TypeError (Msg_multiple_values "create" argument))
  | None =>
      let filter_type_lower := lower filter_type in
      match registry_get filter_type_lower registry with
      | None =>
          Raise (Exn ValueError
                   (Msg_not_found filter_type (get_available_filters registry)))
      | Some filter_class =>
          match filter_class kwargs with
          | Raise (Exn TypeError e) =>
              Raise (Exn TypeError (Msg_create filter_type kwargs e))
          | o => o
          end
      end
  end.

(** [create_from_config(config)]; a [type] that is not a string has no
    [lower]. *)
Definition create_from_config (config : dict) : outcome (BaseFilter Image) :=
  match dict_get "type" config with
  | None => Raise (Exn ValueError Msg_no_type)
  | Some filter_type =>
      let params := filter (fun kv => kv.1 <> "type") config in
      match filter_type with
      | PStr filter_type => create filter_type params
      | v => Raise (Exn AttributeError (Msg_no_attribute v "lower"))
      end
  end.

(** The loop of [create_pipeline], from index [i] on. *)
Fixpoint create_filters (i : nat) (configs : list dict)
    (filters : list (BaseFilter Image)) : outcome (list (BaseFilter Image)) :=
  match configs with
  | [] => Return filters
  | config :: rest =>
      match create_from_config config with
      | Return filter_obj => create_filters (S i) rest (filters ++ [filter_obj])%list
      | Raise e =>
          Raise (Exn ValueError
                   (Msg_pipeline_item i
                      (default (PStr "unknown") (dict_get "type" config))
                      (exn_str e)))
      end
  end.

(** [create_pipeline(configs, stop_on_error=..., save_intermediate=...)] *)
Definition create_pipeline (configs : list dict)
    (stop_on_error save_intermediate : bool)
  : outcome (FilterPipeline.t Image) :=
  match create_filters 0 configs [] with
  | Raise e => Raise e
  | Return filters => FilterPipeline.init filters stop_on_error save_intermediate
  end.

End Registry.
End Imaging.

End FilterFactory.

(* ================================================================== *)
(** * demos/demo_full_test.py                                           *)
(* ================================================================== *)

Module DemoFullTest.
Import Py Redis Redis.Notations.

Section Codec.

Variable json_dumps : pyval -> string.

(** The HSET commands of the loop over [task.items()]. *)
Fixpoint hset_items (task_key : string) (items : list (string * pyval))
  : cmd unit :=
  match items with
  | [] => ret tt
  | (key, value) :: rest =>
      hset task_key key (json_dumps value) ;;; hset_items task_key rest
  end.

(** [send_task(redis_client, task)]; [uuid4] is the value of
    [str(uuid.uuid4())] at the call.  The id is also stored in the
    dictionary of the caller. *)
Definition send_task (uuid4 : string) (task : list (string * pyval))
  : cmd string :=
  let task_id := uuid4 in
  let task := WorkerRegistry.dict_set "task_id" (PStr task_id) task in
  let task_key := "image_processing_v2:task:" +:+ task_id in
  hset_items task_key task ;;;
  lpush "image_processing_v2:pending" task_id ;;;
  ret task_id.

End Codec.

End DemoFullTest.

(* ================================================================== *)
(** * core/batch_processor.py                                           *)
(* ================================================================== *)

Module BatchProcessor.
Import Py Filters.

Definition SUPPORTED_FORMATS : list string :=
  [".jpg"; ".jpeg"; ".png"; ".bmp"; ".gif"].

(** [s.endswith(suffix)] *)
Definition endswith (s suffix : string) : bool :=
  let n := String.length s in
  let m := String.length suffix in
  (m <=? n)%nat && String.eqb (substring (n - m) m s) suffix.

(** any(file.lower().endswith(ext) for ext in self.SUPPORTED_FORMATS) *)
Definition is_image (file : string) : bool :=
  existsb (endswith (lower file)) SUPPORTED_FORMATS.

(** [os.path.join(a, b)] of [posixpath] *)
Definition path_join (a b : string) : string :=
  if String.prefix "/" b then b
  else if String.eqb a "" || endswith a "/" then a +:+ b
  else a +:+ "/" +:+ b.

(** [os.path.basename(p)]: what follows the last slash.  [tail] is what
    follows the last slash read so far. *)
Fixpoint basename_from (tail rest : string) : string :=
  match rest with
  | EmptyString => tail
  | String c r =>
      if Ascii.eqb c "/" then basename_from r r else basename_from tail r
  end.

Definition basename (p : string) : string := basename_from p p.

(** [sorted] on a list of strings. *)
Definition str_le (a b : string) : Prop := String.leb a b = true.

#[global] Instance str_le_dec (a b : string) : Decision (str_le a b).
Proof. unfold str_le. apply _. Defined.

Definition sorted (l : list string) : list string := merge_sort str_le l.

(** The dictionary [process_image] returns, without the measured [time]:
    the one with [status] 'success' and the one with [status] 'failed'. *)
Inductive result :=
  | Processed (input_path output_path : string) (original_size : Z * Z)
      (pipeline_stats : FilterPipeline.stats)
  | Failed (input_path : string) (error : message).

Definition input_path (r : result) : string :=
  match r with
  | Processed p _ _ _ => p
  | Failed p _ => p
  end.

Definition is_success (r : result) : bool :=
  match r with
  | Processed _ _ _ _ => true
  | Failed _ _ => false
  end.

(** The report of [process_all], without the times and the text of the
    pipeline; [report_error] is the entry of the report of an empty run. *)
Record report := {
  total : nat;
  successful : nat;
  failed : nat;
  results : list result;
  report_error : option string
}.

Section Files.

Variable Image : Type.
Variable gaussian_blur : number -> Image -> outcome Image.
Variable enhance_brightness : number -> Image -> outcome Image.
Variable find_edges : Image -> outcome Image.
Variable convert_L : Image -> outcome Image.
Variable save_step : string -> nat -> string -> Image -> option exn.

(** The file system, and the calls made on it: [os.listdir(dir)], which
    raises when it cannot read [dir]; [os.walk(dir)], as the list of its
    (root, files) pairs; [Image.open(path)]; [image.size];
    [os.path.relpath(path, start)];
    [os.makedirs(os.path.dirname(path), exist_ok=True)]; and
    [image.save(path, quality=95)]. *)
Variable world : Type.
Variable listdir : string -> world -> outcome (list string).
Variable walk : string -> world -> list (string * list string).
Variable open_image : string -> world -> outcome Image.
Variable size : Image -> Z * Z.
Variable relpath : string -> string -> outcome string.
Variable makedirs_dirname : string -> world -> option exn * world.
Variable save : string -> Image -> world -> option exn * world.

Record t := {
  input_dir : string;
  output_dir : string;
  pipeline : FilterPipeline.t Image;
  recursive : bool;
  preserve_structure : bool
}.

(** The images of one directory: the files with a supported extension,
    joined to the directory. *)
Definition images_in (root : string) (files : list string) : list string :=
  path_join root <$> filter (fun file => is_image file = true) files.

(** [find_images] *)
Definition find_images (self : t) (w : world) : outcome (list string) :=
  if recursive self then
    Return (sorted (walk (input_dir self) w ≫= fun rf => images_in rf.1 rf.2))
  else
    match listdir (input_dir self) w with
    | Raise e => Raise e
    | Return files => Return (sorted (images_in (input_dir self) files))
    end.

(** [process_image]: every exception raised in its body is caught. *)
Definition process_image (self : t) (input_path : string) (w : world)
  : result * world :=
  match open_image input_path w with
  | Raise e => (Failed input_path (exn_str e), w)
  | Return image =>
      let original_size := size image in
      let (result, stats) :=
        FilterPipeline.apply Image gaussian_blur enhance_brightness find_edges
          convert_L save_step (pipeline self) image None in
      match result with
      | None => (Failed input_path (Msg "Pipeline failed completely"), w)
      | Some result =>
          match relpath input_path (input_dir self) with
          | Raise e => (Failed input_path (exn_str e), w)
          | Return relative_path =>
              let save_to output_path w :=
                match save output_path result w with
                | (Some e, w') => (Failed input_path (exn_str e), w')
                | (None, w') =>
                    (Processed input_path output_path original_size stats, w')
                end in
              if preserve_structure self then
                let output_path := path_join (output_dir self) relative_path in
                match makedirs_dirname output_path w with
                | (Some e, w') => (Failed input_path (exn_str e), w')
                | (None, w') => save_to output_path w'
                end
              else
                let filename := basename input_path in
                save_to (path_join (output_dir self) filename) w
          end
      end
  end.

(** The loop of [process_all]. *)
Fixpoint process_loop (self : t) (images : list string) (w : world)
    (results : list result) (successful failed : nat)
  : list result * nat * nat * world :=
  match images with
  | [] => (results, successful, failed, w)
  | image_path :: rest =>
      let (result, w') := process_image self image_path w in
      if is_success result then
        process_loop self rest w' (results ++ [result])%list (S successful) failed
      else
        process_loop self rest w' (results ++ [result])%list successful (S failed)
  end.

(** [process_all] *)
Definition process_all (self : t) (w : world) : outcome report * world :=
  match find_images self w with
  | Raise e => (Raise e, w)
  | Return images =>
      let total_images := length images in
      if Nat.eqb total_images 0 then
        (Return {| total := 0; successful := 0; failed := 0; results := [];
                   report_error := Some "No se encontraron imágenes" |}, w)
      else
        match process_loop self images w [] 0 0 with
        | (results, successful, failed, w') =>
            (Return {| total := total_images; successful := successful;
                       failed := failed; results := results;
                       report_error := None |}, w')
        end
  end.

End Files.

Arguments input_dir {Image} t.
Arguments output_dir {Image} t.
Arguments pipeline {Image} t.
Arguments recursive {Image} t.
Arguments preserve_structure {Image} t.

End BatchProcessor.


(* ================================================================== *)
(** ** The life of a task in the queue                                  *)
(* ================================================================== *)

(** The calls a submitter, a worker and an operator make on a queue, and
    what is said of every state they lead to. *)
Module QueueProtocol.
Import Py Redis RedisTaskQueueV2.

(** How often [task_id] occurs in a list, and in the list at [key]. *)
Definition count (task_id : string) (l : list string) : nat :=
  length (filter (fun x => x = task_id) l).

Definition occurrences (task_id key : string) (d : db) : nat :=
  count task_id (lrange_all key d).


(** The [status] field of the task's hash. *)
Definition status_of (self : t) (task_id : string) (d : db) : option string :=
  hgetall (task_key self task_id) d !! "status".

(** The occurrences of a task id in the five lists, in the order
    pending, processing, completed, failed, dead_letter. *)
Definition where_is (self : t) (task_id : string) (d : db)
  : nat * nat * nat * nat * nat :=
  (occurrences task_id (pending_key self) d,
   occurrences task_id (processing_key self) d,
   occurrences task_id (completed_key self) d,
   occurrences task_id (failed_key self) d,
   occurrences task_id (dead_letter_key self) d).

(** Where the code keeps a task of each status: a task that failed and is
    to be retried waits in [pending]. *)
Definition place_of (status : string) : option (nat * nat * nat * nat * nat) :=
  if String.eqb status "pending" then Some (1, 0, 0, 0, 0)%nat
  else if String.eqb status "failed" then Some (1, 0, 0, 0, 0)%nat
  else if String.eqb status "processing" then Some (0, 1, 0, 0, 0)%nat
  else if String.eqb status "completed" then Some (0, 0, 1, 0, 0)%nat
  else if String.eqb status "dead" then Some (0, 0, 0, 0, 1)%nat
  else None.

(** The hash [add_task] writes, over what the key held. *)
Definition submitted (json_dumps : pyval -> string) (task_id utcnow : string)
    (task_data : list (string * pyval)) (h : gmap string string)
  : gmap string string :=
  <["last_error" := "None"]>
    (<["retry_count" := str_int 0]>
       (<["created_at" := utcnow]>
          (<["status" := "pending"]>
             (<["data" := json_dumps (PDict task_data)]>
                (<["task_id" := task_id]> h))))).

(** The hash after a claim by [get_task]. *)
Definition claimed (worker_id utcnow : string) (h : gmap string string)
  : gmap string string :=
  <["started_at" := utcnow]>
    (<["worker_id" := worker_id]> (<["status" := "processing"]> h)).

(** The hash after [mark_completed]. *)
Definition with_result (json_dumps : pyval -> string) (result : option pyval)
    (h : gmap string string) : gmap string string :=
  match result with
  | Some r => if truthy r then <["result" := json_dumps r]> h else h
  | None => h
  end.

Definition completed (json_dumps : pyval -> string) (utcnow : string)
    (result : option pyval) (h : gmap string string) : gmap string string :=
  with_result json_dumps result
    (<["completed_at" := utcnow]> (<["status" := "completed"]> h)).

(** The retry count that [mark_failed] reads from a hash. *)
Definition stored_retry_count (h : gmap string string) : outcome Z :=
  match h !! "retry_count" with
  | Some s => int s
  | None => Return 0
  end.

(** The test of [mark_failed] that sends a task back to [pending], on the
    count read. *)
Definition retried (self : t) (should_retry : bool) (retry_count : Z) : bool :=
  should_retry && (retry_count + 1 <? max_retries self)%Z.

(** The hash after [mark_failed]. *)
Definition failed_hash (error_message utcnow : string) (retry : bool)
    (retry_count : Z) (h : gmap string string) : gmap string string :=
  <["status" := if retry then "failed" else "dead"]>
    (<["failed_at" := utcnow]>
       (<["last_error" := error_message]>
          (<["retry_count" := str_int (retry_count + 1)]> h))).

(** The task id is somewhere in the five lists. *)
Definition listed (self : t) (task_id : string) (d : db) : Prop :=
  where_is self task_id d <> (0, 0, 0, 0, 0)%nat.

Section Codec.

Variable json_dumps : pyval -> string.
Variable json_loads : string -> option pyval.

(** One call on the queue.  A submission is made at a millisecond at
    which no task was submitted before; a worker reports on a task it
    holds, that is, one in [processing]. *)
Inductive step (self : t) : db -> db -> Prop :=
  | step_add_task clock_ms utcnow task_data d :
      hgetall (task_key self ("task-" +:+ str_int clock_ms)) d = ∅ ->
      step self d (exec (add_task json_dumps self clock_ms utcnow task_data) d)
  | step_get_task worker_id utcnow timeout d :
      step self d (exec (get_task json_loads self worker_id utcnow timeout) d)
  | step_mark_completed task_id utcnow result d :
      task_id ∈ lrange_all (processing_key self) d ->
      step self d (exec (mark_completed json_dumps self task_id utcnow result) d)
  | step_mark_failed task_id error_message should_retry utcnow d :
      task_id ∈ lrange_all (processing_key self) d ->
      step self d
        (exec (mark_failed self task_id error_message should_retry utcnow) d)
  | step_retry_dead_letter_task task_id d :
      step self d (exec (retry_dead_letter_task self task_id) d).

(** The states a queue goes through, from an empty broker.
    [recover_stuck_tasks] calls [mark_failed] on ids it finds in
    [processing], so the states it leads to are among these. *)
Definition reachable (self : t) (d : db) : Prop :=
  rtc (step self) Redis.empty d.

End Codec.

(** A worker claims the next task and reports the failure of [task_id],
    [rounds] times over. *)
Fixpoint claim_and_fail (json_loads : string -> option pyval) (self : t)
    (worker_id utcnow : string) (timeout : Z) (task_id error_message : string)
    (rounds : nat) : cmd unit :=
  match rounds with
  | O => ret tt
  | S rounds =>
      bind (get_task json_loads self worker_id utcnow timeout) (fun _ =>
      bind (mark_failed self task_id error_message true utcnow) (fun _ =>
      claim_and_fail json_loads self worker_id utcnow timeout task_id
        error_message rounds))
  end.

(** What a sweep of [processing] does to the lists: [n] ids leave
    [processing], each for [pending] or [dead_letter], and the other two
    lists stay as they are. *)
Definition swept (self : t) (d d' : db) (n : nat) : Prop :=
  lrange_all (completed_key self) d' = lrange_all (completed_key self) d
  /\ lrange_all (failed_key self) d' = lrange_all (failed_key self) d
  /\ (length (lrange_all (processing_key self) d') + n
      = length (lrange_all (processing_key self) d))%nat
  /\ (length (lrange_all (pending_key self) d')
      + length (lrange_all (dead_letter_key self) d')
      = length (lrange_all (pending_key self) d)
        + length (lrange_all (dead_letter_key self) d) + n)%nat.

(** The millisecond an id was minted at: the digits after ["task-"]. *)
Fixpoint drop_chars (n : nat) (s : string) : string :=
  match n, s with
  | S n', String _ r => drop_chars n' r
  | _, _ => s
  end.

Definition stamp_of (task_id : string) : outcome Z := int (drop_chars 5 task_id).

(** What holds of every reachable state. *)
Record invariant (self : t) (d : db) : Prop := {
  inv_place : forall task_id status,
    status_of self task_id d = Some status ->
    place_of status = Some (where_is self task_id d);
  inv_retry_count : forall task_id status,
    status_of self task_id d = Some status ->
    exists n, hgetall (task_key self task_id) d !! "retry_count" = Some (str_int n);
  inv_listed : forall task_id,
    listed self task_id d -> is_Some (status_of self task_id d);
  inv_named : forall task_id,
    listed self task_id d -> task_id <> ""
}.

End QueueProtocol.

(* ================================================================== *)
(** ** Composition of filters                                           *)
(* ================================================================== *)

Module Composition.
Import Py Filters.

Section Imaging.

Variable Image : Type.
Variable gaussian_blur : number -> Image -> outcome Image.
Variable enhance_brightness : number -> Image -> outcome Image.
Variable find_edges : Image -> outcome Image.
Variable convert_L : Image -> outcome Image.

(** [fn.apply(... f2.apply(f1.apply(image)))]: the calls one after the
    other; an exception of one of them ends it. *)
Fixpoint compose (fs : list (BaseFilter Image)) (image : Image)
  : outcome Image :=
  match fs with
  | [] => Return image
  | f :: rest =>
      match Filters.apply Image gaussian_blur enhance_brightness find_edges
              convert_L f image with
      | Return image' => compose rest image'
      | Raise e => Raise e
      end
  end.


End Imaging.

(** The entry of a filter that succeeds at index [i], the entries of a
    run of filters that all succeed, and the entry of a filter that
    raises. *)
Definition success_entry {Image} (i : nat) (f : BaseFilter Image)
  : FilterPipeline.filter_stat :=
  {| FilterPipeline.name := class_name f;
     FilterPipeline.index := i;
     FilterPipeline.step_status := FilterPipeline.success;
     FilterPipeline.error := None |}.

Fixpoint success_entries {Image} (i : nat) (fs : list (BaseFilter Image))
  : list FilterPipeline.filter_stat :=
  match fs with
  | [] => []
  | f :: rest => success_entry i f :: success_entries (S i) rest
  end.

Definition failed_entry {Image} (i : nat) (f : BaseFilter Image) (e : exn)
  : FilterPipeline.filter_stat :=
  {| FilterPipeline.name := class_name f;
     FilterPipeline.index := i;
     FilterPipeline.step_status := FilterPipeline.failed;
     FilterPipeline.error := Some (exn_str e) |}.

(** The entries with a given status. *)
Definition with_status (s : FilterPipeline.status)
    (l : list FilterPipeline.filter_stat) : list FilterPipeline.filter_stat :=
  filter (fun e => FilterPipeline.step_status e = s) l.

(** The two counters agree with the entries recorded. *)
Definition counts_agree {Image} (l : FilterPipeline.locals Image) : Prop :=
  FilterPipeline.successful_count l
    = length (with_status FilterPipeline.success (FilterPipeline.filter_stats l))
  /\ FilterPipeline.failed_count l
    = length (with_status FilterPipeline.failed (FilterPipeline.filter_stats l)).



End Composition.

(* ================================================================== *)
(** ** Sample data for the closed examples                              *)
(* ================================================================== *)

Module Sample.
Import Py Filters.

(** A JSON codec on the documents of the examples: the empty object and
    integer literals. *)
Definition json_dumps (v : pyval) : string :=
  match v with
  | PNum (Fin q) => str_int (Qfloor q)
  | _ => "{}"
  end.

Definition json_loads (s : string) : option pyval :=
  if String.eqb s "{}" then Some (PDict [])
  else match int s with
       | Return n =>
           if String.eqb (str_int n) s then Some (PNum (inject_Z n)) else None
       | Raise _ => None
       end.

(** A one-pixel grey image, given by its level, and an imaging library on
    it: blurring and conversion leave the pixel, brightness scales it, an
    image without neighbours has no edges. *)
Definition Image : Type := Z.
Definition gaussian_blur (radius : number) (image : Image) : outcome Image :=
  Return image.
Definition enhance_brightness (factor : number) (image : Image)
  : outcome Image :=
  match factor with
  | Fin f => Return (Z.min 255 (Qfloor (f * inject_Z image)))
  | _ => Raise (Exn LibraryError (Msg "cannot enhance"))
  end.
Definition find_edges (image : Image) : outcome Image := Return 0.
Definition convert_L (image : Image) : outcome Image := Return image.
Definition save_step (dir : string) (i : nat) (name : string) (image : Image)
  : option exn := None.

(** States of the default queue on a broker that starts empty. *)
Definition queue : RedisTaskQueueV2.t := RedisTaskQueueV2.default_queue.

Definition submit (clock_ms : Z) : Redis.cmd string :=
  RedisTaskQueueV2.add_task json_dumps queue clock_ms "2024-05-01T10:00:00" [].

Definition claim : Redis.cmd (option (gmap string pyval)) :=
  RedisTaskQueueV2.get_task json_loads queue "worker-1" "2024-05-01T10:00:01" 5.

Definition complete (task_id : string) : Redis.cmd unit :=
  RedisTaskQueueV2.mark_completed json_dumps queue task_id "2024-05-01T10:00:02" None.

Definition fail (task_id : string) : Redis.cmd (outcome unit) :=
  RedisTaskQueueV2.mark_failed queue task_id "boom" true "2024-05-01T10:00:02".

(** Two submissions, one millisecond apart. *)
Definition two_submitted : Redis.db :=
  Redis.exec (submit 2) (Redis.exec (submit 1) Redis.empty).

(** A task is submitted, claimed and completed. *)
Definition completed_once : Redis.db :=
  Redis.exec (complete "task-1")
    (Redis.exec claim (Redis.exec (submit 1) Redis.empty)).

(** A task is submitted, claimed and fails for the first time. *)
Definition failed_once : Redis.db :=
  Redis.exec (fail "task-1")
    (Redis.exec claim (Redis.exec (submit 1) Redis.empty)).

(** A task is claimed; a second one is submitted; the first one fails. *)
Definition retry_behind_newer : Redis.db :=
  Redis.exec (fail "task-1")
    (Redis.exec (submit 2)
       (Redis.exec claim (Redis.exec (submit 1) Redis.empty))).

(** A task is submitted, claimed and fails for good. *)
Definition dead_once : Redis.db :=
  Redis.exec
    (RedisTaskQueueV2.mark_failed queue "task-1" "boom" false "2024-05-01T10:00:02")
    (Redis.exec claim (Redis.exec (submit 1) Redis.empty)).

(** A task is submitted and claimed, at 10:00:01. *)
Definition claimed_once : Redis.db :=
  Redis.exec claim (Redis.exec (submit 1) Redis.empty).

(** A clock for the examples: it reads the minutes and the seconds of a
    time of the first of May 2024 between 10:00:00 and 10:59:59, and
    counts the seconds from 10:00:00. *)
Definition seconds_of (s : string) : option Z :=
  match int (substring 14 2 s), int (substring 17 2 s) with
  | Return m, Return sec => Some (60 * m + sec)
  | _, _ => None
  end.

Definition total_seconds (now : string) (started_at : Z) : option Q :=
  match seconds_of now with
  | Some n => Some (inject_Z (n - started_at))
  | None => None
  end.

Definition timeout_message (elapsed : Q) : string :=
  "Timeout: sin progreso por " +:+ str_int (Qfloor elapsed) +:+ "s".

(** A sweep of [processing] at the time [now]. *)
Definition sweep (now : string) : Redis.cmd (outcome Z) :=
  RedisTaskQueueV2.recover_stuck_tasks Z seconds_of total_seconds timeout_message
    (fun _ => now) queue.

(** A filter class of a user of the package, whose [apply] raises. *)
Definition Failing : BaseFilter Image :=
  Custom "FailingFilter" (fun _ => Raise (Exn LibraryError (Msg "cannot filter"))).

(** Floats for the examples: the clock ticks in quarters of a second, a
    float is written with two decimals, and such texts, with "nan", "inf"
    and "-inf", are the ones read back. *)
Definition hundredths (q : Q) : Z := Qfloor (q * 100 + (1 # 2)).

Definition two_digits (n : Z) : string :=
  if (n <? 10)%Z then "0" +:+ str_int n else str_int n.

Definition str_float (x : number) : string :=
  match x with
  | Fin q =>
      let h := hundredths q in
      (if (h <? 0)%Z then "-" else "")
      +:+ str_int (Z.abs h / 100) +:+ "." +:+ two_digits (Z.abs h mod 100)
  | PosInf => "inf"
  | NegInf => "-inf"
  | NaN => "nan"
  end.

Definition digits (s : string) : option Z :=
  match s with
  | String "-" _ => None
  | _ => match int s with Return n => Some n | Raise _ => None end
  end.

Definition float_of_str (s : string) : option number :=
  if String.eqb s "nan" then Some NaN
  else if String.eqb s "inf" then Some PosInf
  else if String.eqb s "-inf" then Some NegInf
  else
    let negative := String.prefix "-" s in
    let body := if negative then QueueProtocol.drop_chars 1 s else s in
    let n := String.length body in
    if (4 <=? n)%nat && String.eqb (substring (n - 3) 1 body) "." then
      match digits (substring 0 (n - 3) body), digits (substring (n - 2) 2 body) with
      | Some whole, Some cents =>
          let h := (whole * 100 + cents)%Z in
          Some (Fin ((if negative then - h else h) # 100))
      | _, _ => None
      end
    else None.

Definition float_sub (x y : number) : number :=
  match x, y with
  | NaN, _ | _, NaN => NaN
  | Fin a, Fin b => Fin (a - b)
  | PosInf, PosInf | NegInf, NegInf => NaN
  | PosInf, _ | _, NegInf => PosInf
  | NegInf, _ | _, PosInf => NegInf
  end.

Definition round2 (x : number) : number :=
  match x with
  | Fin q => Fin (hundredths q # 100)
  | _ => x
  end.

Definition register (worker_id : string) (now : number)
  : Redis.cmd bool :=
  WorkerRegistry.register_worker str_float WorkerRegistry.default_registry
    worker_id now "2024-05-01T10:00:00" None.

Definition heartbeat (worker_id : string) (now : number) : Redis.cmd bool :=
  WorkerRegistry.send_heartbeat str_float WorkerRegistry.default_registry
    worker_id now.

(** A registry with one worker, registered at second 95.25. *)
Definition one_worker : Redis.db :=
  Redis.exec (register "worker-1" (9525 # 100)) Redis.empty.

(** The unregistered worker "ghost" sends a heartbeat at second 100.25. *)
Definition with_ghost : Redis.db :=
  Redis.exec (heartbeat "ghost" (10025 # 100)) one_worker.

(** A pipeline that stops at its second filter. *)
Definition pipeline : FilterPipeline.t Image :=
  {| FilterPipeline.filters := [Grayscale; Failing; Brightness 2];
     FilterPipeline.stop_on_error := true;
     FilterPipeline.save_intermediate := false |}.

(** The descriptors [{type: grayscale}, {type: blur, radius: 3}]. *)
Definition descriptors : list (list (string * pyval)) :=
  [ [("type", PStr "grayscale")];
    [("type", PStr "blur"); ("radius", PNum 3)] ].

(** The registry after a user registers the failing class under
    "failing", and descriptors that use it after grayscale. *)
Definition registry_with_failing
  : list (string * FilterFactory.filter_class Image) :=
  match FilterFactory.register_filter Image "failing"
          (FilterFactory.Subclass Image (fun _ => Return Failing))
          (FilterFactory._FILTER_REGISTRY Image) with
  | Return registry => registry
  | Raise _ => FilterFactory._FILTER_REGISTRY Image
  end.

Definition descriptors_with_failing : list (list (string * pyval)) :=
  [ [("type", PStr "grayscale")]; [("type", PStr "failing")] ].

(** A directory "in" with three files, one of them not an image, and a
    subdirectory with a file of the same name as one above.  Every image
    opens as the one-pixel image of level 100, and every write succeeds. *)
Definition listdir (dir : string) (w : unit) : outcome (list string) :=
  Return ["b.PNG"; "notes.txt"; "a.jpg"].

Definition walk (dir : string) (w : unit) : list (string * list string) :=
  [(dir, ["b.PNG"; "notes.txt"; "a.jpg"]); (dir +:+ "/sub", ["a.jpg"])].

Definition open_image (path : string) (w : unit) : outcome Image := Return 100.
Definition size (image : Image) : Z * Z := (1, 1).
Definition relpath (path start : string) : outcome string :=
  Return (QueueProtocol.drop_chars (S (String.length start)) path).
Definition makedirs_dirname (path : string) (w : unit) : option exn * unit :=
  (None, w).
Definition save (path : string) (image : Image) (w : unit) : option exn * unit :=
  (None, w).

Definition batch (recursive : bool) : BatchProcessor.t Image :=
  {| BatchProcessor.input_dir := "in";
     BatchProcessor.output_dir := "out";
     BatchProcessor.pipeline :=
       {| FilterPipeline.filters := [Grayscale; Brightness 2];
          FilterPipeline.stop_on_error := false;
          FilterPipeline.save_intermediate := false |};
     BatchProcessor.recursive := recursive;
     BatchProcessor.preserve_structure := false |}.

End Sample.
(* ================================================================== *)
(** * Properties                                                        *)
(* ================================================================== *)

(** ** Python built-ins *)

Section PyFacts.
Import Py.

Lemma to_int_not_nil (n : Z) :
  Z.to_int n <> Decimal.Pos Decimal.Nil /\ Z.to_int n <> Decimal.Neg Decimal.Nil.
Proof.
  destruct n as [|p|p]; simpl; split; try discriminate;
    intros [= H]; revert H; apply DecimalPos.Unsigned.to_uint_nonnil.
Qed.

(** [int(str(n)) == n] *)
Lemma int_str_int (n : Z) : int (str_int n) = Return n.
Proof.
  unfold int, str_int.
  destruct (to_int_not_nil n) as [Hp Hn].
  rewrite NilZero.isi by assumption.
  now rewrite DecimalZ.of_to.
Qed.

Lemma str_int_inj (n m : Z) : str_int n = str_int m -> n = m.
Proof.
  intros H. pose proof (int_str_int n) as Hn. rewrite H, int_str_int in Hn.
  now injection Hn.
Qed.

Lemma num_lt_spec (a b : Q) : num_lt a b = true <-> (a < b)%Q.
Proof.
  unfold num_lt. rewrite negb_true_iff, <- not_true_iff_false, Qle_bool_iff.
  split; [apply Qnot_le_lt | apply Qlt_not_le].
Qed.

Lemma num_lt_false (a b : Q) : num_lt a b = false <-> (b <= a)%Q.
Proof.
  unfold num_lt. rewrite negb_false_iff. apply Qle_bool_iff.
Qed.

End PyFacts.

(** ** The broker *)

Section RedisFacts.
Import Redis.

Lemma exec_bind {A B} (c : cmd A) (k : A -> cmd B) (d : db) :
  exec (bind c k) d = exec (k (reply c d)) (exec c d).
Proof. unfold exec, reply, bind. now destruct (c d). Qed.

Lemma reply_bind {A B} (c : cmd A) (k : A -> cmd B) (d : db) :
  reply (bind c k) d = reply (k (reply c d)) (exec c d).
Proof. unfold exec, reply, bind. now destruct (c d). Qed.

Lemma exec_ret {A} (a : A) (d : db) : exec (ret a) d = d.
Proof. reflexivity. Qed.

Lemma reply_ret {A} (a : A) (d : db) : reply (ret a) d = a.
Proof. reflexivity. Qed.

Lemma lrange_set_list (k k' : string) (l : list string) (d : db) :
  lrange_all k (set_list k' l d) = if decide (k = k') then l else lrange_all k d.
Proof.
  unfold lrange_all, set_list; simpl. destruct (decide (k = k')) as [->|Hne].
  - now rewrite lookup_insert_eq.
  - now rewrite lookup_insert_ne by congruence.
Qed.

Lemma lrange_rpush (k k' v : string) (d : db) :
  lrange_all k (exec (rpush k' v) d) =
  if decide (k = k') then (lrange_all k d ++ [v])%list else lrange_all k d.
Proof.
  unfold exec, rpush; simpl. rewrite lrange_set_list.
  now destruct (decide (k = k')) as [->|].
Qed.

Lemma hgetall_rpush (k k' v : string) (d : db) :
  hgetall k (exec (rpush k' v) d) = hgetall k d.
Proof. reflexivity. Qed.

Lemma lrange_lrem1 (k k' v : string) (d : db) :
  lrange_all k (exec (lrem1 k' v) d) =
  if decide (k = k') then remove_first v (lrange_all k d) else lrange_all k d.
Proof.
  unfold exec, lrem1; simpl. rewrite lrange_set_list.
  now destruct (decide (k = k')) as [->|].
Qed.

Lemma hgetall_lrem1 (k k' v : string) (d : db) :
  hgetall k (exec (lrem1 k' v) d) = hgetall k d.
Proof. reflexivity. Qed.

Lemma lrange_hset (k k' f v : string) (d : db) :
  lrange_all k (exec (hset k' f v) d) = lrange_all k d.
Proof. reflexivity. Qed.

Lemma hgetall_hset (k k' f v : string) (d : db) :
  hgetall k (exec (hset k' f v) d) =
  if decide (k = k') then <[f := v]> (hgetall k d) else hgetall k d.
Proof.
  unfold exec, hset, hgetall; simpl. destruct (decide (k = k')) as [->|Hne].
  - now rewrite lookup_insert_eq.
  - now rewrite lookup_insert_ne by congruence.
Qed.

Lemma lrange_hset_mapping (k k' : string) (m : list (string * string)) (d : db) :
  lrange_all k (exec (hset_mapping k' m) d) = lrange_all k d.
Proof.
  revert d. induction m as [|[f v] m IH]; intros d; simpl; [reflexivity|].
  rewrite exec_bind, exec_bind, exec_ret, IH. apply lrange_hset.
Qed.

Lemma hgetall_hset_mapping (k k' : string) (m : list (string * string)) (d : db) :
  hgetall k (exec (hset_mapping k' m) d) =
  if decide (k = k')
  then fold_left (fun h fv => <[fv.1 := fv.2]> h) m (hgetall k d)
  else hgetall k d.
Proof.
  revert d. induction m as [|[f v] m IH]; intros d; simpl.
  - now destruct (decide (k = k')).
  - rewrite exec_bind, exec_bind, exec_ret, IH, hgetall_hset.
    now destruct (decide (k = k')).
Qed.

(** The claim of a task id: the tail of the source list is taken. *)
Lemma rpoplpush_nil (src dst : string) (d : db) :
  lrange_all src d = [] -> rpoplpush src dst d = (None, d).
Proof. unfold rpoplpush. now intros ->. Qed.

Lemma rpoplpush_snoc (src dst : string) (front : list string) (v : string) (d : db) :
  lrange_all src d = (front ++ [v])%list ->
  rpoplpush src dst d =
  (Some v,
   set_list dst (v :: lrange_all dst (set_list src front d)) (set_list src front d)).
Proof.
  unfold rpoplpush. intros ->. rewrite rev_unit. now rewrite rev_involutive.
Qed.

Lemma reply_rpoplpush_snoc (src dst : string) (front : list string) (v : string)
    (d : db) :
  lrange_all src d = (front ++ [v])%list ->
  reply (rpoplpush src dst) d = Some v.
Proof. intros H. unfold reply. now rewrite (rpoplpush_snoc _ _ _ _ _ H). Qed.

Lemma lrange_rpoplpush_snoc (k src dst : string) (front : list string)
    (v : string) (d : db) :
  lrange_all src d = (front ++ [v])%list -> src <> dst ->
  lrange_all k (exec (rpoplpush src dst) d) =
  if decide (k = dst) then v :: lrange_all k d
  else if decide (k = src) then front else lrange_all k d.
Proof.
  intros H Hne. unfold exec. rewrite (rpoplpush_snoc _ _ _ _ _ H). cbn [snd].
  rewrite !lrange_set_list.
  destruct (decide (k = dst)) as [->|]; [|reflexivity].
  now rewrite decide_False by congruence.
Qed.

Lemma hgetall_rpoplpush (k src dst : string) (d : db) :
  hgetall k (exec (rpoplpush src dst) d) = hgetall k d.
Proof.
  unfold exec, rpoplpush. now destruct (rev (lrange_all src d)).
Qed.

Lemma remove_first_head (v : string) (l : list string) :
  remove_first v (v :: l) = l.
Proof. simpl. now rewrite String.eqb_refl. Qed.

Lemma remove_first_notin (v : string) (l : list string) :
  v ∉ l -> remove_first v l = l.
Proof.
  induction l as [|x l IH]; simpl; [reflexivity|].
  rewrite not_elem_of_cons. intros [Hne Hl].
  destruct (String.eqb_spec x v) as [->|_]; [congruence|].
  now rewrite IH.
Qed.

Lemma remove_first_length_in (v : string) (l : list string) :
  v ∈ l -> S (length (remove_first v l)) = length l.
Proof.
  induction l as [|x l IH]; simpl.
  - intros H. now apply elem_of_nil in H.
  - destruct (String.eqb_spec x v) as [->|Hne]; [reflexivity|].
    rewrite elem_of_cons. intros [->|H]; [congruence|].
    simpl. now rewrite IH.
Qed.

(** The reply of LREM tells whether the value was in the list. *)
Lemma reply_lrem1 (k v : string) (d : db) :
  reply (lrem1 k v) d = if decide (v ∈ lrange_all k d) then 1 else 0.
Proof.
  unfold reply, lrem1; cbn [fst].
  destruct (decide (v ∈ lrange_all k d)) as [Hin|Hnin].
  - rewrite <- (remove_first_length_in _ _ Hin). lia.
  - rewrite (remove_first_notin _ _ Hnin). lia.
Qed.

End RedisFacts.

(** ** The task queue: keys *)

Section QueueKeys.
Import Py Redis RedisTaskQueueV2.

Variable self : t.

Lemma task_key_inj (a b : string) : task_key self a = task_key self b -> a = b.
Proof.
  unfold task_key. intros H.
  apply (inj (String.app _)) in H. now apply (inj (String.app _)) in H.
Qed.

Lemma list_keys_distinct :
  NoDup [pending_key self; processing_key self; completed_key self;
         failed_key self; dead_letter_key self].
Proof.
  unfold pending_key, processing_key, completed_key, failed_key, dead_letter_key.
  apply (NoDup_fmap_2 (String.app (queue_name self))
           [":pending"; ":processing"; ":completed"; ":failed"; ":dead_letter"]).
  compute_done.
Qed.

End QueueKeys.

(** The five list keys are different strings. *)
Ltac key_neq :=
  unfold RedisTaskQueueV2.pending_key, RedisTaskQueueV2.processing_key,
    RedisTaskQueueV2.completed_key, RedisTaskQueueV2.failed_key,
    RedisTaskQueueV2.dead_letter_key;
  let H := fresh in
  intros H; apply (inj (String.app _)) in H; discriminate H.

(** Settle the tests on keys that the lemmas on commands leave. *)
Ltac settle_keys :=
  repeat match goal with
  | |- context [decide (?a = ?a)] => rewrite (decide_True (P := a = a)) by reflexivity
  | |- context [decide (?a = ?b)] => rewrite (decide_False (P := a = b)) by key_neq
  end.

(** Read a field of a hash written by a sequence of HSETs. *)
Ltac read_field :=
  unfold QueueProtocol.submitted, QueueProtocol.claimed, QueueProtocol.completed,
    QueueProtocol.with_result, QueueProtocol.failed_hash;
  repeat first
    [ rewrite lookup_insert_eq
    | rewrite lookup_insert_ne by discriminate ];
  try reflexivity.

(** ** The task queue: what each method does to the lists and hashes *)

Section QueueMethods.
Import Py Redis RedisTaskQueueV2 QueueProtocol.

Variable json_dumps : pyval -> string.
Variable json_loads : string -> option pyval.
Variable self : t.


Lemma reply_add_task clock_ms utcnow task_data d :
  reply (add_task json_dumps self clock_ms utcnow task_data) d =
  "task-" +:+ str_int clock_ms.
Proof.
  unfold add_task. now rewrite !reply_bind, reply_ret.
Qed.

Lemma lrange_add_task k clock_ms utcnow task_data d :
  lrange_all k (exec (add_task json_dumps self clock_ms utcnow task_data) d) =
  if decide (k = pending_key self)
  then (lrange_all k d ++ ["task-" +:+ str_int clock_ms])%list
  else lrange_all k d.
Proof.
  unfold add_task.
  rewrite !exec_bind, exec_ret, lrange_rpush, lrange_hset_mapping.
  reflexivity.
Qed.

Lemma hgetall_add_task k clock_ms utcnow task_data d :
  hgetall k (exec (add_task json_dumps self clock_ms utcnow task_data) d) =
  if decide (k = task_key self ("task-" +:+ str_int clock_ms))
  then submitted json_dumps ("task-" +:+ str_int clock_ms) utcnow task_data (hgetall k d)
  else hgetall k d.
Proof.
  unfold add_task.
  rewrite !exec_bind, exec_ret, hgetall_rpush, hgetall_hset_mapping.
  reflexivity.
Qed.


Lemma get_task_none worker_id utcnow timeout d :
  lrange_all (pending_key self) d = [] ->
  get_task json_loads self worker_id utcnow timeout d = (None, d).
Proof.
  intros H. unfold get_task, brpoplpush, bind.
  now rewrite (rpoplpush_nil _ _ _ H).
Qed.

(** [get_task], statement by statement. *)
Lemma get_task_unfold worker_id utcnow timeout d :
  get_task json_loads self worker_id utcnow timeout d =
  let d1 := exec (rpoplpush (pending_key self) (processing_key self)) d in
  match reply (rpoplpush (pending_key self) (processing_key self)) d with
  | None => (None, d1)
  | Some task_id =>
      let key := task_key self task_id in
      if String.eqb task_id "" then (None, d1)
      else if bool_decide (hgetall key d1 = ∅)
      then (None, exec (lrem1 (processing_key self) task_id) d1)
      else (Some (parse_field json_loads <$> hgetall key d1),
            exec (hset key "started_at" utcnow)
              (exec (hset key "worker_id" worker_id)
                 (exec (hset key "status" "processing") d1)))
  end.
Proof.
  unfold get_task, brpoplpush, bind, exec, reply.
  destruct (rpoplpush (pending_key self) (processing_key self) d) as [[id|] d1];
    cbn [fst snd]; [|reflexivity].
  destruct (String.eqb id ""); [reflexivity|].
  now destruct (bool_decide (hgetall (task_key self id) d1 = ∅)).
Qed.

Lemma get_task_some worker_id utcnow timeout d front task_id :
  lrange_all (pending_key self) d = (front ++ [task_id])%list ->
  task_id <> "" ->
  hgetall (task_key self task_id) d <> ∅ ->
  let d' := exec (get_task json_loads self worker_id utcnow timeout) d in
  reply (get_task json_loads self worker_id utcnow timeout) d =
    Some (parse_field json_loads <$> hgetall (task_key self task_id) d)
  /\ (forall k, lrange_all k d' =
        if decide (k = processing_key self) then task_id :: lrange_all k d
        else if decide (k = pending_key self) then front
        else lrange_all k d)
  /\ (forall k, hgetall k d' =
        if decide (k = task_key self task_id)
        then claimed worker_id utcnow (hgetall k d)
        else hgetall k d).
Proof.
  intros Hp Hid Hh. cbv zeta. unfold exec at 1 2, reply at 1.
  rewrite get_task_unfold. cbv zeta.
  rewrite (reply_rpoplpush_snoc _ _ _ _ _ Hp), hgetall_rpoplpush.
  apply String.eqb_neq in Hid. rewrite Hid.
  rewrite bool_decide_eq_false_2 by exact Hh. cbn [fst snd].
  split; [reflexivity|]. split; intros k.
  - rewrite !lrange_hset.
    apply (lrange_rpoplpush_snoc _ _ _ _ _ _ Hp). key_neq.
  - rewrite !hgetall_hset, hgetall_rpoplpush.
    unfold claimed. now destruct (decide (k = task_key self task_id)).
Qed.

(** A claim that finds no hash for the id drops the id. *)
Lemma get_task_orphan worker_id utcnow timeout d front task_id :
  lrange_all (pending_key self) d = (front ++ [task_id])%list ->
  task_id <> "" ->
  hgetall (task_key self task_id) d = ∅ ->
  let d' := exec (get_task json_loads self worker_id utcnow timeout) d in
  reply (get_task json_loads self worker_id utcnow timeout) d = None
  /\ (forall k, lrange_all k d' =
        if decide (k = pending_key self) then front else lrange_all k d)
  /\ (forall k, hgetall k d' = hgetall k d).
Proof.
  intros Hp Hid Hh. cbv zeta. unfold exec at 1 2, reply at 1.
  rewrite get_task_unfold. cbv zeta.
  rewrite (reply_rpoplpush_snoc _ _ _ _ _ Hp), hgetall_rpoplpush.
  apply String.eqb_neq in Hid. rewrite Hid.
  rewrite bool_decide_eq_true_2 by exact Hh. cbn [fst snd].
  split; [reflexivity|]. split; intros k.
  - rewrite lrange_lrem1.
    rewrite !(lrange_rpoplpush_snoc _ _ _ _ _ _ Hp) by key_neq.
    destruct (decide (k = processing_key self)) as [->|].
    + settle_keys. apply remove_first_head.
    + reflexivity.
  - rewrite hgetall_lrem1. apply hgetall_rpoplpush.
Qed.


Lemma lrange_mark_completed k task_id utcnow result d :
  lrange_all k (exec (mark_completed json_dumps self task_id utcnow result) d) =
  if decide (k = completed_key self) then (lrange_all k d ++ [task_id])%list
  else if decide (k = processing_key self) then remove_first task_id (lrange_all k d)
  else lrange_all k d.
Proof.
  unfold mark_completed. rewrite !exec_bind, exec_ret, lrange_rpush.
  assert (forall d0, lrange_all k
            (exec match result with
                  | Some r => if truthy r
                              then hset (task_key self task_id) "result" (json_dumps r)
                              else ret 0
                  | None => ret 0
                  end d0) = lrange_all k d0) as ->
    by (intros d0; destruct result as [r|]; [destruct (truthy r)|]; reflexivity).
  rewrite !lrange_hset, lrange_lrem1.
  destruct (decide (k = completed_key self)) as [->|]; [|reflexivity].
  now settle_keys.
Qed.

Lemma hgetall_mark_completed k task_id utcnow result d :
  hgetall k (exec (mark_completed json_dumps self task_id utcnow result) d) =
  if decide (k = task_key self task_id)
  then completed json_dumps utcnow result (hgetall k d)
  else hgetall k d.
Proof.
  unfold mark_completed. rewrite !exec_bind, exec_ret, hgetall_rpush.
  unfold completed, with_result.
  destruct result as [r|]; [destruct (truthy r)|];
    rewrite ?exec_ret, !hgetall_hset, hgetall_lrem1;
    now destruct (decide (k = task_key self task_id)).
Qed.


(** [mark_failed], statement by statement. *)
Lemma mark_failed_unfold task_id error_message should_retry utcnow d :
  mark_failed self task_id error_message should_retry utcnow d =
  let d1 := exec (lrem1 (processing_key self) task_id) d in
  let key := task_key self task_id in
  match stored_retry_count (hgetall key d1) with
  | Raise e => (Raise e, d1)
  | Return n =>
      let d2 := exec (hset key "failed_at" utcnow)
                  (exec (hset key "last_error" error_message)
                     (exec (hset key "retry_count" (str_int (n + 1))) d1)) in
      (Return tt,
       if retried self should_retry n
       then exec (rpush (pending_key self) task_id)
              (exec (hset key "status" "failed") d2)
       else exec (rpush (dead_letter_key self) task_id)
              (exec (hset key "status" "dead") d2))
  end.
Proof.
  unfold mark_failed, bind, exec, stored_retry_count, retried. cbn [fst snd lrem1].
  set (d1 := set_list _ _ d).
  destruct (hgetall (task_key self task_id) d1 !! "retry_count") as [s|].
  - destruct (int s) as [n|e]; [|reflexivity].
    cbn [hset fst snd].
    now destruct (should_retry && (n + 1 <? max_retries self)%Z).
  - cbn [hset fst snd].
    now destruct (should_retry && (0 + 1 <? max_retries self)%Z).
Qed.

Lemma mark_failed_returns task_id error_message should_retry utcnow d n :
  stored_retry_count (hgetall (task_key self task_id) d) = Return n ->
  let d' := exec (mark_failed self task_id error_message should_retry utcnow) d in
  reply (mark_failed self task_id error_message should_retry utcnow) d = Return tt
  /\ (forall k, lrange_all k d' =
        if decide (k = processing_key self)
        then remove_first task_id (lrange_all k d)
        else if decide (k = if retried self should_retry n
                            then pending_key self else dead_letter_key self)
        then (lrange_all k d ++ [task_id])%list
        else lrange_all k d)
  /\ (forall k, hgetall k d' =
        if decide (k = task_key self task_id)
        then failed_hash error_message utcnow (retried self should_retry n) n (hgetall k d)
        else hgetall k d).
Proof.
  intros Hn. cbv zeta. unfold exec at 1 2, reply at 1.
  rewrite mark_failed_unfold. cbv zeta.
  rewrite hgetall_lrem1, Hn. cbn [fst snd].
  split; [reflexivity|]. unfold failed_hash.
  split; intros k; destruct (retried self should_retry n).
  - rewrite lrange_rpush, !lrange_hset, lrange_lrem1.
    destruct (decide (k = processing_key self)) as [->|]; [now settle_keys|].
    reflexivity.
  - rewrite lrange_rpush, !lrange_hset, lrange_lrem1.
    destruct (decide (k = processing_key self)) as [->|]; [now settle_keys|].
    reflexivity.
  - rewrite hgetall_rpush, !hgetall_hset, hgetall_lrem1.
    now destruct (decide (k = task_key self task_id)).
  - rewrite hgetall_rpush, !hgetall_hset, hgetall_lrem1.
    now destruct (decide (k = task_key self task_id)).
Qed.

(** [retry_dead_letter_task] on an id of the dead-letter list, and on any
    other id. *)
Lemma retry_dead_letter_task_in task_id d :
  task_id ∈ lrange_all (dead_letter_key self) d ->
  let d' := exec (retry_dead_letter_task self task_id) d in
  (forall k, lrange_all k d' =
     if decide (k = pending_key self) then (lrange_all k d ++ [task_id])%list
     else if decide (k = dead_letter_key self)
     then remove_first task_id (lrange_all k d)
     else lrange_all k d)
  /\ (forall k, hgetall k d' =
        if decide (k = task_key self task_id)
        then <["status" := "pending"]> (<["retry_count" := str_int 0]> (hgetall k d))
        else hgetall k d).
Proof.
  intros Hin. cbv zeta. unfold retry_dead_letter_task.
  rewrite exec_bind, reply_lrem1, decide_True by exact Hin. cbn [Z.eqb negb].
  split; intros k; rewrite !exec_bind, exec_ret.
  - rewrite lrange_rpush, !lrange_hset, lrange_lrem1.
    destruct (decide (k = pending_key self)) as [->|]; [now settle_keys|].
    reflexivity.
  - rewrite hgetall_rpush, !hgetall_hset, hgetall_lrem1.
    now destruct (decide (k = task_key self task_id)).
Qed.

Lemma retry_dead_letter_task_notin task_id d :
  task_id ∉ lrange_all (dead_letter_key self) d ->
  let d' := exec (retry_dead_letter_task self task_id) d in
  (forall k, lrange_all k d' = lrange_all k d)
  /\ (forall k, hgetall k d' = hgetall k d).
Proof.
  intros Hnin. cbv zeta. unfold retry_dead_letter_task.
  rewrite exec_bind, reply_lrem1, decide_False by exact Hnin. cbn [Z.eqb negb].
  rewrite exec_ret.
  split; intros k; [|apply hgetall_lrem1].
  rewrite lrange_lrem1. destruct (decide (k = dead_letter_key self)) as [->|].
  - now apply remove_first_notin.
  - reflexivity.
Qed.

End QueueMethods.

(** ** The task queue: every task is in the list of its status *)

Section QueueInvariant.
Import Py Redis RedisTaskQueueV2 QueueProtocol.

Variable json_dumps : pyval -> string.
Variable json_loads : string -> option pyval.
Variable self : t.

Lemma count_snoc (id x : string) (l : list string) :
  count id (l ++ [x]) = (count id l + if decide (x = id) then 1 else 0)%nat.
Proof.
  unfold count. rewrite filter_app, length_app. f_equal.
  rewrite filter_cons, filter_nil. now destruct (decide (x = id)).
Qed.

Lemma count_cons (id x : string) (l : list string) :
  count id (x :: l) = ((if decide (x = id) then 1 else 0) + count id l)%nat.
Proof.
  unfold count. rewrite filter_cons. now destruct (decide (x = id)).
Qed.

Lemma count_remove_first_ne (id v : string) (l : list string) :
  id <> v -> count id (remove_first v l) = count id l.
Proof.
  intros Hne. induction l as [|x l IH]; simpl; [reflexivity|].
  destruct (String.eqb_spec x v) as [->|Hx].
  - rewrite count_cons. now rewrite decide_False by congruence.
  - now rewrite !count_cons, IH.
Qed.

Lemma count_remove_first_eq (v : string) (l : list string) :
  v ∈ l -> S (count v (remove_first v l)) = count v l.
Proof.
  induction l as [|x l IH]; simpl.
  - intros H. now apply elem_of_nil in H.
  - destruct (String.eqb_spec x v) as [->|Hx].
    + intros _. rewrite count_cons. now rewrite decide_True by reflexivity.
    + rewrite elem_of_cons. intros [->|H]; [congruence|].
      rewrite !count_cons, decide_False by exact Hx. simpl. now apply IH.
Qed.

Lemma count_pos (v : string) (l : list string) : v ∈ l <-> (0 < count v l)%nat.
Proof.
  induction l as [|x l IH].
  - split; [intros H; now apply elem_of_nil in H | cbn; lia].
  - rewrite elem_of_cons, count_cons, IH.
    destruct (decide (x = v)) as [->|Hne]; split; try lia; auto.
    intros [->|H]; [congruence | lia].
Qed.

(** The statuses the code writes, with the place of each. *)
Lemma place_of_cases (status : string) (w : nat * nat * nat * nat * nat) :
  place_of status = Some w ->
  (w = (1, 0, 0, 0, 0)%nat /\ (status = "pending" \/ status = "failed"))
  \/ (w = (0, 1, 0, 0, 0)%nat /\ status = "processing")
  \/ (w = (0, 0, 1, 0, 0)%nat /\ status = "completed")
  \/ (w = (0, 0, 0, 0, 1)%nat /\ status = "dead").
Proof.
  unfold place_of.
  destruct (String.eqb_spec status "pending") as [->|_]; [intros [= <-]; auto|].
  destruct (String.eqb_spec status "failed") as [->|_]; [intros [= <-]; auto|].
  destruct (String.eqb_spec status "processing") as [->|_]; [intros [= <-]; auto|].
  destruct (String.eqb_spec status "completed") as [->|_]; [intros [= <-]; auto 6|].
  destruct (String.eqb_spec status "dead") as [->|_]; [intros [= <-]; auto 6|].
  discriminate.
Qed.

Lemma invariant_empty : invariant self Redis.empty.
Proof.
  split.
  - intros id st H. discriminate H.
  - intros id st H. discriminate H.
  - intros id H. now destruct H.
  - intros id H. now destruct H.
Qed.

(** The invariant speaks of the five lists and of the task hashes only. *)
Lemma invariant_ext (d d' : db) :
  (forall k, lrange_all k d' = lrange_all k d) ->
  (forall k, hgetall k d' = hgetall k d) ->
  invariant self d -> invariant self d'.
Proof.
  intros Hl Hh [I1 I2 I3 I4].
  assert (forall id, where_is self id d' = where_is self id d) as Hw
    by (intros id; unfold where_is, occurrences; now rewrite !Hl).
  split.
  - intros id st. unfold status_of. rewrite Hh, Hw. apply I1.
  - intros id st. unfold status_of. rewrite !Hh. apply I2.
  - intros id. unfold listed, status_of. rewrite Hw, Hh. apply I3.
  - intros id. unfold listed. rewrite Hw. apply I4.
Qed.

(** A call that moves one task and leaves the others keeps the
    invariant when the task it moves ends in the list of its new status. *)
Lemma invariant_update (d d' : db) (T : string) :
  invariant self d ->
  T <> "" ->
  (forall k, k <> task_key self T -> hgetall k d' = hgetall k d) ->
  (forall id, id <> T -> where_is self id d' = where_is self id d) ->
  (exists st n,
     status_of self T d' = Some st
     /\ place_of st = Some (where_is self T d')
     /\ hgetall (task_key self T) d' !! "retry_count" = Some (str_int n)) ->
  invariant self d'.
Proof.
  intros [I1 I2 I3 I4] HT Hh Hw (st & n & Hst & Hpl & Hrc).
  assert (forall id, id <> T -> hgetall (task_key self id) d'
                                = hgetall (task_key self id) d) as Hh'.
  { intros id Hne. apply Hh. intros E. now apply task_key_inj in E. }
  split.
  - intros id st'. destruct (decide (id = T)) as [->|Hne].
    + rewrite Hst. now intros [= <-].
    + unfold status_of. rewrite Hh', Hw by exact Hne. apply I1.
  - intros id st'. destruct (decide (id = T)) as [->|Hne].
    + intros _. now exists n.
    + unfold status_of. rewrite !Hh' by exact Hne. apply I2.
  - intros id. destruct (decide (id = T)) as [->|Hne].
    + intros _. rewrite Hst. now eexists.
    + unfold listed, status_of. rewrite Hw, Hh' by exact Hne. apply I3.
  - intros id. destruct (decide (id = T)) as [->|Hne]; [auto|].
    unfold listed. rewrite Hw by exact Hne. apply I4.
Qed.

Lemma not_listed (d : db) (T : string) :
  invariant self d -> status_of self T d = None ->
  where_is self T d = (0, 0, 0, 0, 0)%nat.
Proof.
  intros [_ _ I3 _] Hst.
  destruct (decide (where_is self T d = (0, 0, 0, 0, 0)%nat)) as [E|Hne]; [exact E|].
  destruct (I3 T Hne) as [st Hst']. congruence.
Qed.

(** A task id found in one of the lists has a hash, and is nowhere else. *)
Lemma in_processing (d : db) (T : string) :
  invariant self d -> T ∈ lrange_all (processing_key self) d ->
  T <> ""
  /\ where_is self T d = (0, 1, 0, 0, 0)%nat
  /\ exists n, hgetall (task_key self T) d !! "retry_count" = Some (str_int n).
Proof.
  intros [I1 I2 I3 I4] Hin. apply count_pos in Hin.
  assert (listed self T d) as Hl.
  { unfold listed, where_is, occurrences. intros [= _ E _ _ _]. lia. }
  destruct (I3 T Hl) as [st Hst].
  specialize (I1 T st Hst). specialize (I2 T st Hst). specialize (I4 T Hl).
  destruct (place_of_cases _ _ I1) as [[E _]|[[E ->]|[[E _]|[E _]]]];
    try (exfalso; unfold where_is, occurrences in E; injection E; intros; lia).
  auto.
Qed.

Lemma in_pending (d : db) (T : string) :
  invariant self d -> T ∈ lrange_all (pending_key self) d ->
  (T <> "" /\ hgetall (task_key self T) d <> ∅)
  /\ where_is self T d = (1, 0, 0, 0, 0)%nat
  /\ exists n, hgetall (task_key self T) d !! "retry_count" = Some (str_int n).
Proof.
  intros [I1 I2 I3 I4] Hin. apply count_pos in Hin.
  assert (listed self T d) as Hl.
  { unfold listed, where_is, occurrences. intros [= E _ _ _ _]. lia. }
  destruct (I3 T Hl) as [st Hst].
  specialize (I1 T st Hst). specialize (I2 T st Hst). specialize (I4 T Hl).
  assert (hgetall (task_key self T) d <> ∅) as Hne.
  { intros E. unfold status_of in Hst. rewrite E in Hst. discriminate Hst. }
  destruct (place_of_cases _ _ I1) as [[E _]|[[E _]|[[E _]|[E _]]]];
    try (exfalso; unfold where_is, occurrences in E; injection E; intros; lia).
  auto.
Qed.

Lemma in_dead_letter (d : db) (T : string) :
  invariant self d -> T ∈ lrange_all (dead_letter_key self) d ->
  T <> "" /\ where_is self T d = (0, 0, 0, 0, 1)%nat.
Proof.
  intros [I1 I2 I3 I4] Hin. apply count_pos in Hin.
  assert (listed self T d) as Hl.
  { unfold listed, where_is, occurrences. intros [= _ _ _ _ E]. lia. }
  destruct (I3 T Hl) as [st Hst].
  specialize (I1 T st Hst). specialize (I4 T Hl).
  destruct (place_of_cases _ _ I1) as [[E _]|[[E _]|[[E _]|[E _]]]];
    try (exfalso; unfold where_is, occurrences in E; injection E; intros; lia).
  auto.
Qed.

Lemma invariant_add_task clock_ms utcnow task_data d :
  invariant self d ->
  hgetall (task_key self ("task-" +:+ str_int clock_ms)) d = ∅ ->
  invariant self (exec (add_task json_dumps self clock_ms utcnow task_data) d).
Proof.
  intros Hinv Hfresh. set (T := "task-" +:+ str_int clock_ms) in *.
  assert (where_is self T d = (0, 0, 0, 0, 0)%nat) as Hw0.
  { apply not_listed; [exact Hinv|]. unfold status_of. now rewrite Hfresh. }
  apply (invariant_update d _ T Hinv); [discriminate|..].
  - intros k Hk. rewrite hgetall_add_task. now rewrite decide_False by exact Hk.
  - intros id Hne. unfold where_is, occurrences.
    rewrite !lrange_add_task. settle_keys.
    rewrite count_snoc, decide_False by (intros E; now apply Hne).
    now rewrite Nat.add_0_r.
  - exists "pending", 0. unfold status_of.
    rewrite hgetall_add_task, decide_True by reflexivity.
    split; [read_field|]. split; [|read_field].
    unfold where_is, occurrences in *.
    rewrite !lrange_add_task. settle_keys.
    rewrite count_snoc, decide_True by reflexivity.
    injection Hw0 as -> -> -> -> ->. reflexivity.
Qed.

Lemma invariant_get_task worker_id utcnow timeout d :
  invariant self d ->
  invariant self (exec (get_task json_loads self worker_id utcnow timeout) d).
Proof.
  intros Hinv.
  destruct (lrange_all (pending_key self) d) as [|x l] eqn:Hp using rev_ind.
  { unfold exec. now rewrite (get_task_none _ _ _ _ _ _ Hp). }
  clear IHl. rename x into T, l into front.
  assert (T ∈ lrange_all (pending_key self) d) as Hin
    by (rewrite Hp; set_solver).
  destruct (in_pending d T Hinv Hin) as ([HT Hne] & Hw & n & Hrc).
  destruct (get_task_some json_loads self worker_id utcnow timeout d front T Hp HT Hne)
    as (_ & Hl & Hh).
  apply (invariant_update d _ T Hinv HT).
  - intros k Hk. rewrite Hh. now rewrite decide_False by exact Hk.
  - intros id Hid. unfold where_is, occurrences.
    rewrite !Hl. settle_keys.
    rewrite count_cons, decide_False by congruence.
    rewrite Hp, count_snoc, decide_False by congruence.
    now rewrite Nat.add_0_r.
  - exists "processing", n. unfold status_of. rewrite Hh, decide_True by reflexivity.
    split; [read_field|]. split.
    + unfold where_is, occurrences in *.
      rewrite !Hl. settle_keys.
      rewrite count_cons, decide_True by reflexivity.
      rewrite Hp, count_snoc, decide_True in Hw by reflexivity.
      injection Hw as Hw1 -> -> -> ->.
      replace (count T front) with 0%nat by lia. reflexivity.
    + read_field. exact Hrc.
Qed.

Lemma invariant_mark_completed task_id utcnow result d :
  invariant self d ->
  task_id ∈ lrange_all (processing_key self) d ->
  invariant self (exec (mark_completed json_dumps self task_id utcnow result) d).
Proof.
  intros Hinv Hin.
  destruct (in_processing d task_id Hinv Hin) as (HT & Hw & n & Hrc).
  apply (invariant_update d _ task_id Hinv HT).
  - intros k Hk. rewrite hgetall_mark_completed.
    now rewrite decide_False by exact Hk.
  - intros id Hid. unfold where_is, occurrences.
    rewrite !lrange_mark_completed. settle_keys.
    rewrite count_snoc, decide_False by congruence.
    rewrite count_remove_first_ne by exact Hid.
    now rewrite Nat.add_0_r.
  - exists "completed", n. unfold status_of.
    rewrite hgetall_mark_completed, decide_True by reflexivity.
    split; [|split].
    + unfold completed, with_result.
      destruct result as [r|]; [destruct (truthy r)|]; read_field.
    + unfold where_is, occurrences in *.
      rewrite !lrange_mark_completed. settle_keys.
      rewrite count_snoc, decide_True by reflexivity.
      pose proof (count_remove_first_eq _ _ Hin) as Hrm.
      injection Hw as -> Hw2 -> -> ->. rewrite Hw2 in Hrm.
      replace (count task_id (remove_first task_id
                 (lrange_all (processing_key self) d))) with 0%nat by lia.
      reflexivity.
    + unfold completed, with_result.
      destruct result as [r|]; [destruct (truthy r)|]; read_field; exact Hrc.
Qed.

Lemma invariant_mark_failed task_id error_message should_retry utcnow d :
  invariant self d ->
  task_id ∈ lrange_all (processing_key self) d ->
  invariant self
    (exec (mark_failed self task_id error_message should_retry utcnow) d).
Proof.
  intros Hinv Hin.
  destruct (in_processing d task_id Hinv Hin) as (HT & Hw & n & Hrc).
  assert (stored_retry_count (hgetall (task_key self task_id) d) = Return n) as Hn.
  { unfold stored_retry_count. rewrite Hrc. apply int_str_int. }
  destruct (mark_failed_returns self task_id error_message should_retry utcnow d n Hn)
    as (_ & Hl & Hh).
  pose proof (count_remove_first_eq _ _ Hin) as Hrm.
  apply (invariant_update d _ task_id Hinv HT).
  - intros k Hk. rewrite Hh. now rewrite decide_False by exact Hk.
  - intros id Hid. unfold where_is, occurrences. rewrite !Hl.
    destruct (retried self should_retry n); settle_keys;
      rewrite count_snoc, decide_False by congruence;
      rewrite count_remove_first_ne by exact Hid;
      now rewrite Nat.add_0_r.
  - exists (if retried self should_retry n then "failed" else "dead"), (n + 1).
    unfold status_of. rewrite Hh, decide_True by reflexivity.
    split; [read_field|]. split; [|read_field].
    unfold where_is, occurrences in *. rewrite !Hl.
    injection Hw as Hw1 Hw2 Hw3 Hw4 Hw5. rewrite Hw2 in Hrm.
    destruct (retried self should_retry n); settle_keys;
      rewrite count_snoc, decide_True by reflexivity;
      replace (count task_id (remove_first task_id
                 (lrange_all (processing_key self) d))) with 0%nat by lia;
      rewrite ?Hw1, ?Hw3, ?Hw4, ?Hw5; reflexivity.
Qed.

Lemma invariant_retry_dead_letter_task task_id d :
  invariant self d ->
  invariant self (exec (retry_dead_letter_task self task_id) d).
Proof.
  intros Hinv.
  destruct (decide (task_id ∈ lrange_all (dead_letter_key self) d)) as [Hin|Hnin].
  - destruct (retry_dead_letter_task_in self task_id d Hin) as [Hl Hh].
    destruct (in_dead_letter d task_id Hinv Hin) as [HT Hw].
    pose proof (count_remove_first_eq _ _ Hin) as Hrm.
    apply (invariant_update d _ task_id Hinv HT).
    + intros k Hk. rewrite Hh. now rewrite decide_False by exact Hk.
    + intros id Hid. unfold where_is, occurrences. rewrite !Hl. settle_keys.
      rewrite count_snoc, decide_False by congruence.
      rewrite count_remove_first_ne by exact Hid.
      now rewrite Nat.add_0_r.
    + exists "pending", 0. unfold status_of. rewrite Hh, decide_True by reflexivity.
      split; [read_field|]. split; [|read_field].
      unfold where_is, occurrences in *. rewrite !Hl. settle_keys.
      rewrite count_snoc, decide_True by reflexivity.
      injection Hw as -> -> -> -> Hw5. rewrite Hw5 in Hrm.
      replace (count task_id (remove_first task_id
                 (lrange_all (dead_letter_key self) d))) with 0%nat by lia.
      reflexivity.
  - destruct (retry_dead_letter_task_notin self task_id d Hnin) as [Hl Hh].
    now apply (invariant_ext d).
Qed.

(** Every call of the protocol keeps the invariant; so it holds of every
    state the queue reaches. *)
Lemma invariant_step (d d' : db) :
  step json_dumps json_loads self d d' -> invariant self d -> invariant self d'.
Proof.
  intros Hstep Hinv. destruct Hstep.
  - now apply invariant_add_task.
  - now apply invariant_get_task.
  - now apply invariant_mark_completed.
  - now apply invariant_mark_failed.
  - now apply invariant_retry_dead_letter_task.
Qed.

Lemma invariant_reachable (d : db) :
  reachable json_dumps json_loads self d -> invariant self d.
Proof.
  unfold reachable. revert d.
  apply (rtc_ind_r (invariant self) Redis.empty); [apply invariant_empty|].
  intros y z _ Hstep IH. now apply (invariant_step y z).
Qed.

End QueueInvariant.

(** ** The task queue: order of claims, repeated completion, retries *)

Section QueueClaims.
Import Py Redis RedisTaskQueueV2 QueueProtocol.

Variable json_dumps : pyval -> string.
Variable json_loads : string -> option pyval.
Variable self : t.

(** After two submissions, a claim takes the second one: [add_task] pushes
    at the tail of [pending] and [get_task] pops from the tail. *)
Lemma get_task_after_two_submissions ms1 ms2 u1 u2 data1 data2 worker_id utcnow
    timeout d :
  let id1 := "task-" +:+ str_int ms1 in
  let id2 := "task-" +:+ str_int ms2 in
  let d2 := exec (add_task json_dumps self ms2 u2 data2)
              (exec (add_task json_dumps self ms1 u1 data1) d) in
  lrange_all (pending_key self) d2 = (lrange_all (pending_key self) d ++ [id1; id2])%list
  /\ reply (get_task json_loads self worker_id utcnow timeout) d2 =
       Some (parse_field json_loads <$> hgetall (task_key self id2) d2)
  /\ lrange_all (processing_key self)
       (exec (get_task json_loads self worker_id utcnow timeout) d2) =
     id2 :: lrange_all (processing_key self) d
  /\ lrange_all (pending_key self)
       (exec (get_task json_loads self worker_id utcnow timeout) d2) =
     (lrange_all (pending_key self) d ++ [id1])%list.
Proof.
  cbv zeta.
  set (id1 := "task-" +:+ str_int ms1). set (id2 := "task-" +:+ str_int ms2).
  set (d2 := exec (add_task json_dumps self ms2 u2 data2) _).
  assert (lrange_all (pending_key self) d2
          = ((lrange_all (pending_key self) d ++ [id1]) ++ [id2])%list) as Hp.
  { subst d2. rewrite !lrange_add_task. now settle_keys. }
  assert (hgetall (task_key self id2) d2 <> ∅) as Hh.
  { subst d2. rewrite hgetall_add_task, decide_True by reflexivity.
    unfold submitted. apply insert_non_empty. }
  assert (id2 <> "") as Hid by discriminate.
  destruct (get_task_some json_loads self worker_id utcnow timeout d2 _ _ Hp Hid Hh)
    as (Hr & Hl & _).
  split; [now rewrite Hp, <- app_assoc|]. split; [exact Hr|].
  rewrite !Hl. settle_keys. split; [|reflexivity].
  subst d2. rewrite !lrange_add_task. now settle_keys.
Qed.

End QueueClaims.

(** C1, at the input on which the code departs from it: two tasks are
    submitted to an empty queue one millisecond apart.  The first claim
    returns the task submitted last, "task-2", and leaves the task submitted
    first in [pending]; the claim says the oldest submission is claimed
    first. *)
Theorem first_claim_returns_latest_submission :
  Redis.lrange_all (RedisTaskQueueV2.pending_key Sample.queue) Sample.two_submitted
    = ["task-1"; "task-2"]
  /\ (Redis.reply Sample.claim Sample.two_submitted ≫= (.!! "task_id"))
     = Some (Py.PStr "task-2")
  /\ Redis.lrange_all (RedisTaskQueueV2.processing_key Sample.queue)
       (Redis.exec Sample.claim Sample.two_submitted) = ["task-2"]
  /\ Redis.lrange_all (RedisTaskQueueV2.pending_key Sample.queue)
       (Redis.exec Sample.claim Sample.two_submitted) = ["task-1"].
Proof. repeat split; vm_compute; reflexivity. Qed.

(** C3, at the input on which the code departs from it.  "task-1" is
    claimed, "task-2" is submitted, then "task-1" fails for the first time
    ([max_retries] is 3).  [mark_failed] takes the id out of [processing],
    raises [retry_count] to 1, sets the status to "failed" and appends the
    id at the tail of [pending], all as the claim says; but the next claim
    pops that tail, so the retried task is claimed before "task-2", which
    was waiting when the retry was queued. *)
Theorem retried_task_is_claimed_before_waiting_task :
  Redis.lrange_all (RedisTaskQueueV2.processing_key Sample.queue)
    Sample.retry_behind_newer = []
  /\ Redis.hgetall (RedisTaskQueueV2.task_key Sample.queue "task-1")
       Sample.retry_behind_newer !! "retry_count" = Some "1"
  /\ QueueProtocol.status_of Sample.queue "task-1" Sample.retry_behind_newer
     = Some "failed"
  /\ Redis.lrange_all (RedisTaskQueueV2.pending_key Sample.queue)
       Sample.retry_behind_newer = ["task-2"; "task-1"]
  /\ (Redis.reply Sample.claim Sample.retry_behind_newer ≫= (.!! "task_id"))
     = Some (Py.PStr "task-1")
  /\ Redis.lrange_all (RedisTaskQueueV2.pending_key Sample.queue)
       (Redis.exec Sample.claim Sample.retry_behind_newer) = ["task-2"].
Proof. repeat split; vm_compute; reflexivity. Qed.

(** C2 as stated fails: after a task is submitted, claimed and completed,
    [completed] holds its id once; a second [mark_completed] for the same id
    makes it hold the id twice. *)
Lemma second_mark_completed_grows_completed :
  Redis.llen (RedisTaskQueueV2.completed_key Sample.queue) Sample.completed_once = 1
  /\ Redis.llen (RedisTaskQueueV2.completed_key Sample.queue)
       (Redis.exec (Sample.complete "task-1") Sample.completed_once) = 2.
Proof. split; vm_compute; reflexivity. Qed.

(** C2 as amended.  Once the first [mark_completed] has taken the id out of
    [processing], a second call for the same id leaves every list but
    [completed] and every hash but the task's as they are; in the task's
    hash it keeps [status] and writes [completed_at] (and [result] when a
    non-empty result is given); and it appends the id to [completed] once
    more. *)
Theorem mark_completed_again json_dumps self task_id utcnow1 result1 utcnow2
    result2 d :
  let d1 := Redis.exec
              (RedisTaskQueueV2.mark_completed json_dumps self task_id utcnow1 result1) d in
  let d2 := Redis.exec
              (RedisTaskQueueV2.mark_completed json_dumps self task_id utcnow2 result2) d1 in
  task_id ∉ Redis.lrange_all (RedisTaskQueueV2.processing_key self) d1 ->
  Redis.lrange_all (RedisTaskQueueV2.completed_key self) d2
    = (Redis.lrange_all (RedisTaskQueueV2.completed_key self) d1 ++ [task_id])%list
  /\ (forall k, k <> RedisTaskQueueV2.completed_key self ->
        Redis.lrange_all k d2 = Redis.lrange_all k d1)
  /\ Redis.hgetall (RedisTaskQueueV2.task_key self task_id) d2
     = QueueProtocol.with_result json_dumps result2
         (<["completed_at" := utcnow2]>
            (Redis.hgetall (RedisTaskQueueV2.task_key self task_id) d1))
  /\ QueueProtocol.status_of self task_id d2 = Some "completed"
  /\ (forall k, k <> RedisTaskQueueV2.task_key self task_id ->
        Redis.hgetall k d2 = Redis.hgetall k d1).
Proof.
  cbv zeta. intros Hnin.
  set (d1 := Redis.exec (RedisTaskQueueV2.mark_completed json_dumps self task_id
                           utcnow1 result1) d) in *.
  assert (Redis.hgetall (RedisTaskQueueV2.task_key self task_id) d1 !! "status"
          = Some "completed") as Hst.
  { subst d1. rewrite hgetall_mark_completed, decide_True by reflexivity.
    unfold QueueProtocol.completed, QueueProtocol.with_result.
    destruct result1 as [r|]; [destruct (Py.truthy r)|]; read_field. }
  split; [|split; [|split; [|split]]].
  - rewrite lrange_mark_completed. now settle_keys.
  - intros k Hk. rewrite lrange_mark_completed, decide_False by exact Hk.
    destruct (decide (k = RedisTaskQueueV2.processing_key self)) as [->|]; [|reflexivity].
    now apply remove_first_notin.
  - rewrite hgetall_mark_completed, decide_True by reflexivity.
    unfold QueueProtocol.completed. now rewrite (insert_id _ _ _ Hst).
  - unfold QueueProtocol.status_of.
    rewrite hgetall_mark_completed, decide_True by reflexivity.
    unfold QueueProtocol.completed, QueueProtocol.with_result.
    destruct result2 as [r|]; [destruct (Py.truthy r)|]; read_field.
  - intros k Hk. rewrite hgetall_mark_completed. now rewrite decide_False by exact Hk.
Qed.

(** The amended C2 on the sample queue, after one completion of "task-1". *)
Lemma mark_completed_again_witness :
  ("task-1" ∉ Redis.lrange_all (RedisTaskQueueV2.processing_key Sample.queue)
                Sample.completed_once)
  /\ Redis.lrange_all (RedisTaskQueueV2.completed_key Sample.queue)
       (Redis.exec (Sample.complete "task-1") Sample.completed_once)
     = (Redis.lrange_all (RedisTaskQueueV2.completed_key Sample.queue)
          Sample.completed_once ++ ["task-1"])%list.
Proof.
  assert ("task-1" ∉ Redis.lrange_all
            (RedisTaskQueueV2.processing_key Sample.queue) Sample.completed_once) as H.
  { vm_compute. apply not_elem_of_nil. }
  split; [exact H|].
  exact (proj1 (mark_completed_again Sample.json_dumps Sample.queue "task-1"
                  "2024-05-01T10:00:02" None "2024-05-01T10:00:02" None
                  (Redis.exec Sample.claim (Redis.exec (Sample.submit 1) Redis.empty))
                  H)).
Defined.

(** The sample task that failed once: its state is one the queue reaches. *)
Lemma failed_once_reachable :
  QueueProtocol.reachable Sample.json_dumps Sample.json_loads Sample.queue
    Sample.failed_once.
Proof.
  unfold QueueProtocol.reachable, Sample.failed_once.
  eapply rtc_l; [apply (QueueProtocol.step_add_task _ _ _ 1 "2024-05-01T10:00:00" []);
                 reflexivity|].
  eapply rtc_l; [apply (QueueProtocol.step_get_task _ _ _ "worker-1"
                          "2024-05-01T10:00:01" 5)|].
  eapply rtc_l; [|apply rtc_refl].
  apply (QueueProtocol.step_mark_failed _ _ _ "task-1" "boom" true
           "2024-05-01T10:00:02").
  vm_compute. apply list_elem_of_here.
Qed.

(** C4 as stated fails: a task that failed once and is to be retried has
    the status "failed"; its id is in [pending], and the [failed] list is
    empty. *)
Lemma failed_task_is_in_pending :
  QueueProtocol.reachable Sample.json_dumps Sample.json_loads Sample.queue
    Sample.failed_once
  /\ QueueProtocol.status_of Sample.queue "task-1" Sample.failed_once = Some "failed"
  /\ Redis.lrange_all (RedisTaskQueueV2.failed_key Sample.queue) Sample.failed_once = []
  /\ Redis.lrange_all (RedisTaskQueueV2.pending_key Sample.queue) Sample.failed_once
     = ["task-1"].
Proof.
  split; [apply failed_once_reachable|repeat split; vm_compute; reflexivity].
Qed.

(** C4 as amended.  In every state the queue reaches, a task with a status
    has one of the five statuses and its id occurs exactly once in the five
    lists: in [pending] when the status is "pending" or "failed", in
    [processing], [completed] or [dead_letter] when the status is
    "processing", "completed" or "dead".  The [failed] list holds no id. *)
Theorem task_is_in_the_list_of_its_status json_dumps json_loads self d task_id
    status :
  QueueProtocol.reachable json_dumps json_loads self d ->
  QueueProtocol.status_of self task_id d = Some status ->
  status ∈ ["pending"; "processing"; "completed"; "failed"; "dead"]
  /\ QueueProtocol.place_of status = Some (QueueProtocol.where_is self task_id d)
  /\ Redis.lrange_all (RedisTaskQueueV2.failed_key self) d = [].
Proof.
  intros Hreach Hst.
  pose proof (invariant_reachable json_dumps json_loads self d Hreach) as Hinv.
  pose proof (QueueProtocol.inv_place _ _ Hinv task_id status Hst) as Hpl.
  split; [|split; [exact Hpl|]].
  - destruct (place_of_cases _ _ Hpl) as [[_ [->| ->]]|[[_ ->]|[[_ ->]|[_ ->]]]];
      set_solver.
  - destruct (Redis.lrange_all (RedisTaskQueueV2.failed_key self) d) as [|x l] eqn:Hf;
      [reflexivity|exfalso].
    assert (QueueProtocol.listed self x d) as Hl.
    { unfold QueueProtocol.listed, QueueProtocol.where_is, QueueProtocol.occurrences.
      rewrite Hf, count_cons, decide_True by reflexivity. intros [= _ _ _ E _]. }
    destruct (QueueProtocol.inv_listed _ _ Hinv x Hl) as [st Hx].
    pose proof (QueueProtocol.inv_place _ _ Hinv x st Hx) as Hp.
    unfold QueueProtocol.where_is, QueueProtocol.occurrences in Hp.
    rewrite Hf, count_cons, decide_True in Hp by reflexivity.
    destruct (place_of_cases _ _ Hp) as [[E _]|[[E _]|[[E _]|[E _]]]];
      injection E; intros; discriminate.
Qed.

(** The amended C4 on the task that failed once. *)
Lemma task_is_in_the_list_of_its_status_witness :
  QueueProtocol.status_of Sample.queue "task-1" Sample.failed_once = Some "failed"
  /\ QueueProtocol.place_of "failed"
     = Some (QueueProtocol.where_is Sample.queue "task-1" Sample.failed_once)
  /\ Redis.lrange_all (RedisTaskQueueV2.failed_key Sample.queue) Sample.failed_once
     = [].
Proof.
  assert (QueueProtocol.status_of Sample.queue "task-1" Sample.failed_once
          = Some "failed") as H by (vm_compute; reflexivity).
  split; [exact H|].
  exact (proj2
    (task_is_in_the_list_of_its_status Sample.json_dumps Sample.json_loads
       Sample.queue Sample.failed_once "task-1" "failed"
       failed_once_reachable H)).
Defined.

(** C6.  [add_task] makes the id from the millisecond reading of the clock
    alone.  Two submissions within one millisecond get the same id: the
    second writes its fields over the hash of the first, whose data and
    time of creation are gone, no other hash is written, and the one id
    stands twice in [pending].  Of two submissions one is lost, and the
    other is handed out twice. *)
Theorem add_task_in_the_same_millisecond_overwrites json_dumps self clock_ms
    utcnow1 utcnow2 data1 data2 d :
  let first := RedisTaskQueueV2.add_task json_dumps self clock_ms utcnow1 data1 in
  let second := RedisTaskQueueV2.add_task json_dumps self clock_ms utcnow2 data2 in
  let d2 := Redis.exec second (Redis.exec first d) in
  let task_id := Redis.reply first d in
  Redis.reply second (Redis.exec first d) = task_id
  /\ Redis.lrange_all (RedisTaskQueueV2.pending_key self) d2
     = (Redis.lrange_all (RedisTaskQueueV2.pending_key self) d
        ++ [task_id; task_id])%list
  /\ Redis.hgetall (RedisTaskQueueV2.task_key self task_id) d2 !! "data"
     = Some (json_dumps (Py.PDict data2))
  /\ Redis.hgetall (RedisTaskQueueV2.task_key self task_id) d2 !! "created_at"
     = Some utcnow2
  /\ (forall key, key <> RedisTaskQueueV2.task_key self task_id ->
        Redis.hgetall key d2 = Redis.hgetall key d).
Proof.
  cbv zeta. rewrite !reply_add_task.
  split; [reflexivity|]. split; [|split; [|split]].
  - rewrite !lrange_add_task. settle_keys. now rewrite <- app_assoc.
  - rewrite hgetall_add_task, decide_True by reflexivity. read_field.
  - rewrite hgetall_add_task, decide_True by reflexivity. read_field.
  - intros key Hkey. rewrite !hgetall_add_task.
    now rewrite !decide_False by exact Hkey.
Qed.

(** ** The worker registry *)

Section RegistryFacts.
Import Py Redis WorkerRegistry.

Variable str_float : number -> string.

Lemma send_heartbeat_unfold self worker_id now d :
  send_heartbeat str_float self worker_id now d =
  (true,
   Db (lists d)
      (<[worker_key worker_id :=
           <["last_heartbeat" := str_time str_float now]>
             (hgetall (worker_key worker_id) d)]>
         (hashes d))).
Proof. reflexivity. Qed.

End RegistryFacts.

(** C5 as stated fails: for a worker without a record the field did not
    exist before the call, and [send_heartbeat] returns [True]. *)
Lemma send_heartbeat_returns_true_without_field :
  Redis.hgetall (WorkerRegistry.worker_key "worker-1") Redis.empty !! "last_heartbeat"
    = None
  /\ Redis.reply
       (WorkerRegistry.send_heartbeat Sample.str_float WorkerRegistry.default_registry
          "worker-1" 1714557600)
       Redis.empty = true.
Proof. split; reflexivity. Qed.

(** C5 as amended.  [send_heartbeat] sets the [last_heartbeat] field of the
    worker's hash to the reading of the clock and changes nothing else: the
    other fields of that hash, the other hashes and the lists stay as they
    are.  It returns [True], whether or not the field existed. *)
Theorem send_heartbeat_writes_one_field str_float self worker_id now d :
  let d' := Redis.exec (WorkerRegistry.send_heartbeat str_float self worker_id now) d in
  Redis.hashes d'
    = <[WorkerRegistry.worker_key worker_id :=
          <["last_heartbeat" := WorkerRegistry.str_time str_float now]>
            (Redis.hgetall (WorkerRegistry.worker_key worker_id) d)]> (Redis.hashes d)
  /\ Redis.hgetall (WorkerRegistry.worker_key worker_id) d'
     = <["last_heartbeat" := WorkerRegistry.str_time str_float now]>
         (Redis.hgetall (WorkerRegistry.worker_key worker_id) d)
  /\ Redis.lists d' = Redis.lists d
  /\ Redis.reply (WorkerRegistry.send_heartbeat str_float self worker_id now) d = true.
Proof.
  cbv zeta. unfold Redis.exec, Redis.reply. rewrite send_heartbeat_unfold.
  cbn [fst snd Redis.lists Redis.hashes].
  split; [|split; [|split]]; try reflexivity.
  unfold Redis.hgetall at 1. cbn [Redis.hashes]. now rewrite lookup_insert_eq.
Qed.

Section RegistryScan.
Import Py Redis WorkerRegistry.

Variable float_of_str : string -> option number.
Variable float_sub : number -> number -> number.
Variable round2 : number -> number.
Variable self : t.
Variable current_time : number.
Variable d : db.

Local Abbreviation scan_workers :=
  (WorkerRegistry.scan_workers float_of_str float_sub round2).
Local Abbreviation last_heartbeat_of :=
  (WorkerRegistry.last_heartbeat_of float_of_str).

(** Every stored heartbeat reads as a float. *)
Hypothesis heartbeats_numeric :
  forall key s, hgetall key d !! "last_heartbeat" = Some s ->
                exists t, float float_of_str s = Return t.

Lemma last_heartbeat_returns (key : string) :
  exists t, last_heartbeat_of (hgetall key d) = Return t.
Proof.
  unfold WorkerRegistry.last_heartbeat_of.
  destruct (hgetall key d !! "last_heartbeat") as [s|] eqn:Hs;
    [now apply (heartbeats_numeric key)|now eexists].
Qed.

(** A scan returns, keeps what it had collected and collects every hash
    that passes its test: for [get_active_workers] the heartbeat is recent,
    for [get_dead_workers] it is overdue. *)
Lemma scan_workers_collects (alive : bool) (worker_keys : list string) :
  forall acc, exists workers,
    scan_workers self alive current_time worker_keys d acc = Return workers
    /\ (forall w, w ∈ acc -> w ∈ workers)
    /\ (forall key t,
          key ∈ worker_keys ->
          hgetall key d <> ∅ ->
          last_heartbeat_of (hgetall key d) = Return t ->
          (if alive then recent self (float_sub current_time t)
           else overdue self (float_sub current_time t)) = true ->
          annotated round2 (hgetall key d) (float_sub current_time t) alive
            ∈ workers).
Proof.
  induction worker_keys as [|key rest IH]; intros acc; cbn [WorkerRegistry.scan_workers].
  - exists acc. split; [reflexivity|]. split; [auto|].
    intros key t H. now apply elem_of_nil in H.
  - destruct (bool_decide (hgetall key d = ∅)) eqn:Hempty.
    + apply bool_decide_eq_true_1 in Hempty.
      destruct (IH acc) as (ws & Hws & Hacc & Hnew).
      exists ws. split; [exact Hws|]. split; [exact Hacc|].
      intros key' t Hin Hne. apply elem_of_cons in Hin as [->|Hin];
        [contradiction | now apply Hnew].
    + destruct (last_heartbeat_returns key) as [t Ht]. rewrite Ht.
      destruct (if alive then recent self (float_sub current_time t)
                else overdue self (float_sub current_time t)) eqn:Htest.
      * destruct (IH (acc ++ [annotated round2 (hgetall key d)
                                (float_sub current_time t) alive])%list)
          as (ws & Hws & Hacc & Hnew).
        exists ws. split; [exact Hws|]. split.
        -- intros w Hw. apply Hacc, elem_of_app. now left.
        -- intros key' t' Hin Hne Ht' Hpass.
           apply elem_of_cons in Hin as [->|Hin]; [|now apply Hnew].
           rewrite Ht in Ht'. injection Ht' as <-.
           apply Hacc, elem_of_app. right. apply list_elem_of_here.
      * destruct (IH acc) as (ws & Hws & Hacc & Hnew).
        exists ws. split; [exact Hws|]. split; [exact Hacc|].
        intros key' t' Hin Hne Ht' Hpass.
        apply elem_of_cons in Hin as [->|Hin]; [|now apply Hnew].
        rewrite Ht in Ht'. injection Ht' as <-. congruence.
Qed.

End RegistryScan.

Lemma prefix_append (p s : string) : String.prefix p (p +:+ s) = true.
Proof.
  induction p as [|a p IH]; simpl.
  - now destruct s.
  - destruct (ascii_dec a a) as [_|Hne]; [exact IH | now destruct Hne].
Qed.

(** The key of a worker is among the keys the registry scans. *)
Lemma worker_key_scanned (worker_id : string) (h : gmap string string)
    (d : Redis.db) :
  Redis.hashes d !! WorkerRegistry.worker_key worker_id = Some h ->
  WorkerRegistry.worker_key worker_id
    ∈ Redis.keys_prefix (WorkerRegistry.registry_key +:+ ":") d.
Proof.
  intros H. unfold Redis.keys_prefix.
  apply list_elem_of_filter. split.
  { change (WorkerRegistry.worker_key worker_id)
      with ((WorkerRegistry.registry_key +:+ ":") +:+ worker_id).
    apply prefix_append. }
  apply elem_of_app. left.
  apply list_elem_of_fmap. exists (WorkerRegistry.worker_key worker_id, h).
  split; [reflexivity|]. now apply elem_of_map_to_list.
Qed.

(** C10.  For a worker id without a record, [send_heartbeat] returns [True]
    and leaves a hash whose only field is [last_heartbeat].  A call of
    [get_active_workers] for which the time since that heartbeat is less
    than [heartbeat_timeout] returns (when the heartbeats stored for the
    other records read as floats, so that the call does not raise) a list
    with the dictionary of this record: its entries are the heartbeat as it
    was written, the rounded time since it and [is_alive], and it has no
    [worker_id], [registered_at] or [status].  The heartbeat is read back as
    the float that was written. *)
Theorem heartbeat_of_unknown_worker_creates_active_record str_float float_of_str
    float_sub round2 self worker_id now current_time d :
  Redis.hgetall (WorkerRegistry.worker_key worker_id) d = ∅ ->
  WorkerRegistry.float float_of_str (WorkerRegistry.str_time str_float now)
    = Py.Return now ->
  (forall key s, Redis.hgetall key d !! "last_heartbeat" = Some s ->
                 exists t, WorkerRegistry.float float_of_str s = Py.Return t) ->
  Py.num_lt (float_sub current_time now)
    (Py.Fin (inject_Z (WorkerRegistry.heartbeat_timeout self))) = true ->
  let d' := Redis.exec (WorkerRegistry.send_heartbeat str_float self worker_id now) d in
  Redis.reply (WorkerRegistry.send_heartbeat str_float self worker_id now) d = true
  /\ Redis.hgetall (WorkerRegistry.worker_key worker_id) d'
     = {["last_heartbeat" := WorkerRegistry.str_time str_float now]}
  /\ exists workers phantom,
       WorkerRegistry.get_active_workers float_of_str float_sub round2 self
         current_time d' = Py.Return workers
       /\ phantom ∈ workers
       /\ phantom
          = <["is_alive" := Py.PBool true]>
              (<["time_since_heartbeat" :=
                   Py.PNum (round2 (float_sub current_time now))]>
                 {["last_heartbeat" :=
                     Py.PStr (WorkerRegistry.str_time str_float now)]})
       /\ phantom !! "worker_id" = None
       /\ phantom !! "registered_at" = None
       /\ phantom !! "status" = None.
Proof.
  intros Hnew Hread Hnum Hrecent. cbv zeta.
  set (record := {["last_heartbeat" := WorkerRegistry.str_time str_float now]}
                 : gmap string string).
  set (d' := Redis.exec (WorkerRegistry.send_heartbeat str_float self worker_id now) d).
  assert (Redis.hashes d' = <[WorkerRegistry.worker_key worker_id := record]>
                              (Redis.hashes d)) as Hd'.
  { subst d'. unfold Redis.exec. rewrite send_heartbeat_unfold. cbn [snd Redis.hashes].
    now rewrite Hnew. }
  assert (Redis.hgetall (WorkerRegistry.worker_key worker_id) d' = record) as Hrec.
  { unfold Redis.hgetall. now rewrite Hd', lookup_insert_eq. }
  split; [reflexivity|]. split; [exact Hrec|].
  assert (forall key s, Redis.hgetall key d' !! "last_heartbeat" = Some s ->
                        exists t, WorkerRegistry.float float_of_str s = Py.Return t)
    as Hnum'.
  { intros key s. unfold Redis.hgetall at 1. rewrite Hd'.
    destruct (decide (key = WorkerRegistry.worker_key worker_id)) as [->|Hne].
    - rewrite lookup_insert_eq. cbn [from_option id]. subst record.
      rewrite lookup_singleton_eq. intros [= <-]. now exists now.
    - rewrite lookup_insert_ne by congruence. apply Hnum. }
  destruct (scan_workers_collects float_of_str float_sub round2 self current_time d'
              Hnum' true
              (Redis.keys_prefix (WorkerRegistry.registry_key +:+ ":") d') [])
    as (workers & Hws & _ & Hin).
  exists workers.
  exists (WorkerRegistry.annotated round2 record (float_sub current_time now) true).
  split; [exact Hws|]. split; [|split].
  - rewrite <- Hrec. apply Hin.
    + apply (worker_key_scanned worker_id record). now rewrite Hd', lookup_insert_eq.
    + rewrite Hrec. subst record. apply insert_non_empty.
    + rewrite Hrec. unfold WorkerRegistry.last_heartbeat_of. subst record.
      now rewrite lookup_singleton_eq.
    + exact Hrecent.
  - unfold WorkerRegistry.annotated. subst record.
    now rewrite map_fmap_singleton.
  - unfold WorkerRegistry.annotated. subst record.
    rewrite !lookup_insert_ne by discriminate.
    rewrite !lookup_fmap, !lookup_singleton_ne by discriminate. auto.
Qed.

(** C10 on a registry that holds the registered "worker-1": a heartbeat of
    the unknown "ghost" at second 100.25, and the active workers ten seconds
    later. *)
Lemma heartbeat_of_unknown_worker_witness :
  exists workers phantom,
    WorkerRegistry.get_active_workers Sample.float_of_str Sample.float_sub
      Sample.round2 WorkerRegistry.default_registry (11025 # 100) Sample.with_ghost
    = Py.Return workers
    /\ phantom ∈ workers
    /\ phantom !! "last_heartbeat" = Some (Py.PStr "100.25")
    /\ phantom !! "worker_id" = None.
Proof.
  destruct (heartbeat_of_unknown_worker_creates_active_record Sample.str_float
              Sample.float_of_str Sample.float_sub Sample.round2
              WorkerRegistry.default_registry "ghost" (10025 # 100) (11025 # 100)
              Sample.one_worker)
    as (_ & _ & workers & phantom & Hws & Hin & Hphantom & Hid & _).
  - reflexivity.
  - vm_compute. reflexivity.
  - intros key s. unfold Sample.one_worker, Sample.register,
      WorkerRegistry.register_worker.
    cbn [fold_right fst snd].
    rewrite !exec_bind, exec_ret, !hgetall_hset.
    destruct (decide (key = WorkerRegistry.worker_key "worker-1")) as [_|_].
    + rewrite lookup_insert_ne, lookup_insert_eq by discriminate.
      intros [= <-]. eexists. vm_compute. reflexivity.
    + intros H. discriminate H.
  - vm_compute. reflexivity.
  - exists workers, phantom. split; [exact Hws|]. split; [exact Hin|].
    split; [|exact Hid]. rewrite Hphantom.
    rewrite !lookup_insert_ne by discriminate. now rewrite lookup_singleton_eq.
Defined.


(** ** The filter pipeline *)

Section PipelineFacts.
Import Py Filters FilterPipeline Composition.

Variable Image : Type.
Variable gaussian_blur : number -> Image -> outcome Image.
Variable enhance_brightness : number -> Image -> outcome Image.
Variable find_edges : Image -> outcome Image.
Variable convert_L : Image -> outcome Image.
Variable save_step : string -> nat -> string -> Image -> option exn.
Variable self : FilterPipeline.t Image.
Variable output_dir : option string.

Local Abbreviation loop :=
  (FilterPipeline.loop Image gaussian_blur enhance_brightness find_edges
     convert_L save_step self output_dir).
Local Abbreviation apply_filter :=
  (FilterPipeline.apply_filter Image gaussian_blur enhance_brightness find_edges
     convert_L).
Local Abbreviation record_failure := (FilterPipeline.record_failure Image).
Local Abbreviation record_success := (FilterPipeline.record_success Image).

(** Split the body of the loop into the ways a step can go. *)
Ltac step_cases f l :=
  cbn [FilterPipeline.loop];
  destruct (apply_filter f (result_image l)) as [image|e] eqn:Happly;
  [ destruct (saving Image self output_dir) as [dir|] eqn:Hsaving;
    [ destruct (save_step dir _ (class_name f) image) as [e|] eqn:Hsave;
      [ destruct (stop_on_error self) eqn:Hstop | ]
    | ]
  | destruct (stop_on_error self) eqn:Hstop ].

Lemma with_status_snoc (s : status) (l : list filter_stat) (e : filter_stat) :
  with_status s (l ++ [e]) =
  (with_status s l ++ if decide (step_status e = s) then [e] else [])%list.
Proof.
  unfold with_status. rewrite filter_app, filter_cons, filter_nil.
  now destruct (decide (step_status e = s)).
Qed.

Lemma counts_agree_success i n image l :
  counts_agree l -> counts_agree (record_success i n image l).
Proof.
  intros [Hs Hf]. split; cbn [successful_count failed_count filter_stats
                              FilterPipeline.record_success];
    rewrite with_status_snoc, length_app; cbn [step_status];
    destruct (decide _) as [E|E]; try discriminate E; try (now destruct E);
    cbn; lia.
Qed.

Lemma counts_agree_failure i n e l :
  counts_agree l -> counts_agree (record_failure i n e l).
Proof.
  intros [Hs Hf]. split; cbn [successful_count failed_count filter_stats
                              FilterPipeline.record_failure];
    rewrite with_status_snoc, length_app; cbn [step_status];
    destruct (decide _) as [E|E]; try discriminate E; try (now destruct E);
    cbn; lia.
Qed.

Lemma loop_counts_agree rest : forall i l,
  counts_agree l -> counts_agree (loop i rest l).
Proof.
  induction rest as [|f rest IH]; intros i l Hl; [exact Hl|].
  step_cases f l;
    auto using counts_agree_success, counts_agree_failure.
Qed.

(** The loop, by the ways a step can go.  [P i rest image entries final]
    speaks of a run of the loop from index [i] over the filters [rest] on the
    working image [image]: [entries] is what it appends to the statistics
    and [final] the working image it ends with. *)
Lemma loop_cases
    (P : nat -> list (BaseFilter Image) -> Image -> list filter_stat -> Image -> Prop) :
  (forall i image, P i [] image [] image) ->
  (forall i f rest image e,
     apply_filter f image = Raise e -> stop_on_error self = true ->
     P i (f :: rest) image [failed_entry i f e] image) ->
  (forall i f rest image e entries final,
     apply_filter f image = Raise e -> stop_on_error self = false ->
     P (S i) rest image entries final ->
     P i (f :: rest) image (failed_entry i f e :: entries) final) ->
  (forall i f rest image image' entries final,
     apply_filter f image = Return image' ->
     P (S i) rest image' entries final ->
     P i (f :: rest) image (success_entry i f :: entries) final) ->
  (forall i f rest image image' e,
     apply_filter f image = Return image' -> stop_on_error self = true ->
     (exists dir, saving Image self output_dir = Some dir
                  /\ save_step dir i (class_name f) image' = Some e) ->
     P i (f :: rest) image [success_entry i f; failed_entry i f e] image') ->
  (forall i f rest image image' e entries final,
     apply_filter f image = Return image' -> stop_on_error self = false ->
     (exists dir, saving Image self output_dir = Some dir
                  /\ save_step dir i (class_name f) image' = Some e) ->
     P (S i) rest image' entries final ->
     P i (f :: rest) image (success_entry i f :: failed_entry i f e :: entries) final) ->
  forall rest i l,
    exists entries,
      filter_stats (loop i rest l) = (filter_stats l ++ entries)%list
      /\ P i rest (result_image l) entries (result_image (loop i rest l)).
Proof.
  intros Hnil Hfail_stop Hfail_go Hok Hsave_stop Hsave_go.
  induction rest as [|f rest IH]; intros i l.
  { exists []. cbn. rewrite app_nil_r. auto. }
  step_cases f l.
  - exists [success_entry i f; failed_entry i f e].
    split; [|apply Hsave_stop; eauto].
    cbn. now rewrite <- app_assoc.
  - destruct (IH (S i) (record_failure i (class_name f) e
                          (record_success i (class_name f) image l)))
      as (entries & Hst & HP).
    exists (success_entry i f :: failed_entry i f e :: entries).
    split; [|apply (Hsave_go _ _ _ _ image); eauto].
    rewrite Hst. cbn. now rewrite <- !app_assoc.
  - destruct (IH (S i) (record_success i (class_name f) image l))
      as (entries & Hst & HP).
    exists (success_entry i f :: entries). split; [|now apply (Hok _ _ _ _ image)].
    rewrite Hst. cbn. now rewrite <- app_assoc.
  - destruct (IH (S i) (record_success i (class_name f) image l))
      as (entries & Hst & HP).
    exists (success_entry i f :: entries). split; [|now apply (Hok _ _ _ _ image)].
    rewrite Hst. cbn. now rewrite <- app_assoc.
  - exists [failed_entry i f e]. split; [reflexivity|now apply Hfail_stop].
  - destruct (IH (S i) (record_failure i (class_name f) e l))
      as (entries & Hst & HP).
    exists (failed_entry i f e :: entries). split; [|now apply Hfail_go].
    rewrite Hst. cbn. now rewrite <- app_assoc.
Qed.










(** No intermediate image is saved, or no save raises. *)
Local Abbreviation saves_succeed :=
  (forall dir i n image,
     saving Image self output_dir = Some dir -> save_step dir i n image = None).

Lemma no_save_fails dir i n image e :
  saves_succeed ->
  ~ (saving Image self output_dir = Some dir /\ save_step dir i n image = Some e).
Proof. intros Hs [H1 H2]. rewrite (Hs _ _ _ _ H1) in H2. discriminate H2. Qed.

(** When no save raises and every filter succeeds, the loop is the
    composition of the filters. *)
Lemma loop_all_succeed_any :
  saves_succeed ->
  forall rest i l,
  exists entries,
    filter_stats (loop i rest l) = (filter_stats l ++ entries)%list
    /\ forall w,
         compose Image gaussian_blur enhance_brightness find_edges convert_L
           rest (result_image l) = Return w ->
         entries = success_entries i rest /\ result_image (loop i rest l) = w.
Proof.
  intros Hsaving.
  apply (loop_cases (fun i rest image entries final =>
      forall w,
        compose Image gaussian_blur enhance_brightness find_edges convert_L
          rest image = Return w ->
        entries = success_entries i rest /\ final = w)).
  - intros i image w H. cbn in H. injection H as <-. auto.
  - intros i f rest image e Hraise _ w H. cbn in H.
    unfold FilterPipeline.apply_filter in Hraise. rewrite Hraise in H.
    discriminate H.
  - intros i f rest image e entries final Hraise _ _ w H. cbn in H.
    unfold FilterPipeline.apply_filter in Hraise. rewrite Hraise in H.
    discriminate H.
  - intros i f rest image image' entries final Hok IH w H. cbn in H.
    unfold FilterPipeline.apply_filter in Hok. rewrite Hok in H.
    destruct (IH _ H) as [-> ->]. auto.
  - intros i f rest image image' e _ _ (dir & H).
    now apply (no_save_fails _ _ _ _ _ Hsaving) in H.
  - intros i f rest image image' e entries final _ _ (dir & H).
    now apply (no_save_fails _ _ _ _ _ Hsaving) in H.
Qed.

Lemma loop_all_succeed rest i l w :
  saves_succeed ->
  compose Image gaussian_blur enhance_brightness find_edges convert_L
    rest (result_image l) = Return w ->
  filter_stats (loop i rest l) = (filter_stats l ++ success_entries i rest)%list
  /\ result_image (loop i rest l) = w.
Proof.
  intros Hsaving Hcomp.
  destruct (loop_all_succeed_any Hsaving rest i l) as (entries & Hst & H).
  destruct (H w Hcomp) as [-> Hw]. auto.
Qed.



Lemma with_status_success_entries i (fs : list (BaseFilter Image)) :
  with_status success (success_entries i fs) = success_entries i fs.
Proof.
  revert i. induction fs as [|f fs IH]; intros i; [reflexivity|].
  unfold with_status in *. cbn [success_entries]. rewrite filter_cons.
  rewrite decide_True by reflexivity. now rewrite IH.
Qed.

Lemma length_success_entries i (fs : list (BaseFilter Image)) :
  length (success_entries i fs) = length fs.
Proof.
  revert i. induction fs as [|f fs IH]; intros i; cbn; [reflexivity|].
  now rewrite IH.
Qed.

(** The state [apply] starts its loop in. *)
Local Abbreviation start image :=
  {| result_image := image; filter_stats := [];
     successful_count := 0; failed_count := 0 |}.

Lemma apply_unfold image :
  FilterPipeline.apply Image gaussian_blur enhance_brightness find_edges convert_L
    save_step self image output_dir
  = let l := loop 0 (filters self) (start image) in
    ((if Nat.eqb (successful_count l) 0 then None else Some (result_image l)),
     {| stat_filters := filter_stats l;
        stat_successful := successful_count l;
        stat_failed := failed_count l;
        total_filters := length (filters self) |}).
Proof.
  unfold FilterPipeline.apply. cbv zeta.
  now destruct (Nat.eqb (successful_count _) 0).
Qed.


End PipelineFacts.


(** ** Construction of filters *)

(** C8 as stated fails: a brightness filter with factor 0 is constructed,
    and 0 is not greater than 0; and a blur filter whose radius is the
    float [nan] is constructed, and [nan >= 0] is false. *)
Lemma brightness_factor_zero_is_accepted :
  snd (Filters.BrightnessFilter_init (Image := Sample.Image) (Py.PNum 0))
    = Py.Return (Filters.Brightness 0)
  /\ ~ (0 < 0)%Q
  /\ Filters.BlurFilter_init (Image := Sample.Image) (Py.PNum Py.NaN)
     = Py.Return (Filters.Blur Py.NaN)
  /\ Py.num_le 0 Py.NaN = false.
Proof. split; [reflexivity|]. split; [apply Qlt_irrefl|]. split; reflexivity. Qed.

Section NumberOrder.
Import Py.

(** A number is not less than another when it is at least the other or
    one of them is [nan]. *)
Lemma num_lt_false_iff (a b : number) :
  num_lt a b = false <-> num_le b a = true \/ a = NaN \/ b = NaN.
Proof.
  destruct a as [x| | |], b as [y| | |]; cbn;
    try (split; [auto|]; intros [H|[H|H]]; (reflexivity || discriminate H)).
  - rewrite negb_false_iff. split; [auto|].
    intros [H|[H|H]]; [exact H|discriminate H|discriminate H].
Qed.

(** Above 5 is not below 0. *)
Lemma num_lt_5_not_negative (a : number) :
  num_lt 5 a = true -> num_lt a 0 = false.
Proof.
  destruct a as [x| | |]; cbn; try (reflexivity || discriminate).
  rewrite negb_true_iff, negb_false_iff, <- not_true_iff_false, !Qle_bool_iff.
  intros H. apply Qnot_le_lt in H.
  apply Qlt_le_weak, (Qlt_trans _ 5); [reflexivity|exact H].
Qed.

End NumberOrder.

Lemma brightness_accepts (Image : Type) (factor : Py.number) :
  Py.num_lt factor 0 = false ->
  Filters.BrightnessFilter_init (Image := Image) (Py.PNum factor)
  = ((if Py.num_lt 5 factor then [Filters.Warning_high_factor factor] else []),
     Py.Return (Filters.Brightness factor)).
Proof.
  intros H. unfold Filters.BrightnessFilter_init. cbn [Py.as_number].
  now rewrite H.
Qed.

Lemma brightness_rejects (Image : Type) (factor : Py.number) :
  Py.num_lt factor 0 = true ->
  Filters.BrightnessFilter_init (Image := Image) (Py.PNum factor)
  = ([], Py.Raise (Py.Exn Py.ValueError (Py.Msg_factor factor))).
Proof.
  intros H. unfold Filters.BrightnessFilter_init. cbn [Py.as_number].
  now rewrite H.
Qed.

Lemma blur_accepts (Image : Type) (radius : Py.number) :
  Py.num_lt radius 0 = false ->
  Filters.BlurFilter_init (Image := Image) (Py.PNum radius)
  = Py.Return (Filters.Blur radius).
Proof.
  intros H. unfold Filters.BlurFilter_init. cbn [Py.as_number].
  now rewrite H.
Qed.

Lemma blur_rejects (Image : Type) (radius : Py.number) :
  Py.num_lt radius 0 = true ->
  Filters.BlurFilter_init (Image := Image) (Py.PNum radius)
  = Py.Raise (Py.Exn Py.ValueError (Py.Msg_radius radius)).
Proof.
  intros H. unfold Filters.BlurFilter_init. cbn [Py.as_number].
  now rewrite H.
Qed.

(** C8 as amended.  The guards of the two constructors are [factor < 0]
    and [radius < 0].  A brightness filter is constructed exactly when the
    factor is not less than 0, which is when it is at least 0 or is the
    float [nan], and [ValueError] is raised exactly when it is less than 0;
    the warning is printed exactly when the factor exceeds 5.  A blur
    filter is constructed exactly when the radius is not less than 0, and
    [ValueError] is raised exactly when it is less than 0.  Without
    arguments the factor is 1.5 and the radius is 2. *)
Theorem filter_construction_validates (Image : Type) (factor radius : Py.number) :
  let bright := Filters.BrightnessFilter_init (Image := Image) (Py.PNum factor) in
  let blur := Filters.BlurFilter_init (Image := Image) (Py.PNum radius) in
  (snd bright = Py.Return (Filters.Brightness factor)
   <-> Py.num_le 0 factor = true \/ factor = Py.NaN)
  /\ (snd bright = Py.Raise (Py.Exn Py.ValueError (Py.Msg_factor factor))
      <-> Py.num_lt factor 0 = true)
  /\ (fst bright = [Filters.Warning_high_factor factor]
      <-> Py.num_lt 5 factor = true)
  /\ (blur = Py.Return (Filters.Blur radius)
      <-> Py.num_le 0 radius = true \/ radius = Py.NaN)
  /\ (blur = Py.Raise (Py.Exn Py.ValueError (Py.Msg_radius radius))
      <-> Py.num_lt radius 0 = true)
  /\ FilterFactory.BrightnessFilter Image [] = Py.Return (Filters.Brightness (3 # 2))
  /\ FilterFactory.BlurFilter Image [] = Py.Return (Filters.Blur 2).
Proof.
  cbv zeta.
  assert (forall a : Py.number,
            Py.num_lt a 0 = false <-> Py.num_le 0 a = true \/ a = Py.NaN) as Hnot.
  { intros a. rewrite num_lt_false_iff. split; [|tauto].
    intros [H|[H|H]]; [auto|auto|discriminate H]. }
  split; [|split; [|split; [|split; [|split; [|split; reflexivity]]]]].
  - rewrite <- Hnot. destruct (Py.num_lt factor 0) eqn:E.
    + rewrite (brightness_rejects _ _ E). cbn. split; discriminate.
    + rewrite (brightness_accepts _ _ E). cbn. tauto.
  - destruct (Py.num_lt factor 0) eqn:E.
    + rewrite (brightness_rejects _ _ E). cbn. tauto.
    + rewrite (brightness_accepts _ _ E). cbn. split; discriminate.
  - destruct (Py.num_lt factor 0) eqn:E.
    + rewrite (brightness_rejects _ _ E). cbn. split; [discriminate|].
      intros H. apply num_lt_5_not_negative in H. congruence.
    + rewrite (brightness_accepts _ _ E). cbn [fst].
      destruct (Py.num_lt 5 factor); split; easy.
  - rewrite <- Hnot. destruct (Py.num_lt radius 0) eqn:E.
    + rewrite (blur_rejects _ _ E). split; discriminate.
    + rewrite (blur_accepts _ _ E). tauto.
  - destruct (Py.num_lt radius 0) eqn:E.
    + rewrite (blur_rejects _ _ E). tauto.
    + rewrite (blur_accepts _ _ E). split; discriminate.
Qed.

(** ** The filter factory *)

Section FactoryFacts.
Import Py Filters FilterFactory Composition.

Variable Image : Type.
Variable gaussian_blur : number -> Image -> outcome Image.
Variable enhance_brightness : number -> Image -> outcome Image.
Variable find_edges : Image -> outcome Image.
Variable convert_L : Image -> outcome Image.
Variable save_step : string -> nat -> string -> Image -> option exn.
Variable registry : list (string * filter_class Image).

(** [create_from_config] on a descriptor with a string [type] is [create]
    on that type and the other entries of the descriptor. *)
Lemma create_from_config_create config filter_type :
  dict_get "type" config = Some (PStr filter_type) ->
  create_from_config Image registry config
  = create Image registry filter_type (filter (fun kv => kv.1 <> "type") config).
Proof. unfold create_from_config. now intros ->. Qed.

(** The loop of [create_pipeline] collects the filters of the descriptors
    when each of them is created. *)
Lemma create_filters_all configs : forall fs i acc,
  Forall2 (fun config f => create_from_config Image registry config = Return f)
    configs fs ->
  create_filters Image registry i configs acc = Return (acc ++ fs)%list.
Proof.
  induction configs as [|config configs IH]; intros fs i acc H.
  - apply Forall2_nil_inv_l in H as ->. cbn. now rewrite app_nil_r.
  - apply Forall2_cons_inv_l in H as (f & fs' & Hf & Hfs & ->).
    cbn. rewrite Hf, (IH fs' (S i) _ Hfs). now rewrite <- app_assoc.
Qed.

End FactoryFacts.

(** C9 as stated fails on two inputs.  For the empty list of descriptors
    there is no pipeline to apply: [create_pipeline] raises [ValueError],
    while applying no filter at all returns the image.  And when a filter
    raises after another one has succeeded, the composition of the [apply]
    calls raises, while the pipeline returns the image of the steps before
    the failure. *)
Lemma create_pipeline_differs_from_composition :
  (FilterFactory.create_pipeline Sample.Image
     (FilterFactory._FILTER_REGISTRY Sample.Image) [] true false
   = Py.Raise (Py.Exn Py.ValueError Py.Msg_empty_pipeline)
   /\ Composition.compose Sample.Image Sample.gaussian_blur
        Sample.enhance_brightness Sample.find_edges Sample.convert_L [] 7
      = Py.Return 7)
  /\ (exists pipeline,
        FilterFactory.create_pipeline Sample.Image Sample.registry_with_failing
          Sample.descriptors_with_failing true false = Py.Return pipeline
        /\ FilterPipeline.filters pipeline = [Filters.Grayscale; Sample.Failing]
        /\ fst (FilterPipeline.apply Sample.Image Sample.gaussian_blur
                  Sample.enhance_brightness Sample.find_edges Sample.convert_L
                  Sample.save_step pipeline 7 None) = Some 7
        /\ Composition.compose Sample.Image Sample.gaussian_blur
             Sample.enhance_brightness Sample.find_edges Sample.convert_L
             [Filters.Grayscale; Sample.Failing] 7
           = Py.Raise (Py.Exn Py.LibraryError (Py.Msg "cannot filter"))).
Proof.
  split; [split; reflexivity|].
  eexists. split; [reflexivity|]. repeat split.
Qed.

(** C9 as amended.  For a list of descriptors that is not empty and whose
    descriptors are all valid ([create] returns a filter for each), and for
    an image on which applying these filters one after the other returns an
    image, [create_pipeline] with [stop_on_error=true] returns the pipeline
    of these filters, and its [apply] returns that same image. *)
Theorem create_pipeline_applies_the_composition (Image : Type)
    (gaussian_blur enhance_brightness : Py.number -> Image -> Py.outcome Image)
    (find_edges convert_L : Image -> Py.outcome Image)
    (save_step : string -> nat -> string -> Image -> option Py.exn)
    (registry : list (string * FilterFactory.filter_class Image))
    (configs : list (FilterFactory.dict)) (fs : list (Filters.BaseFilter Image))
    (image w : Image) (output_dir : option string) :
  configs <> [] ->
  Forall2
    (fun config f =>
       exists filter_type,
         FilterFactory.dict_get "type" config = Some (Py.PStr filter_type)
         /\ FilterFactory.create Image registry filter_type
              (filter (fun kv => kv.1 <> "type") config) = Py.Return f)
    configs fs ->
  Composition.compose Image gaussian_blur enhance_brightness find_edges convert_L
    fs image = Py.Return w ->
  exists pipeline,
    FilterFactory.create_pipeline Image registry configs true false
      = Py.Return pipeline
    /\ FilterPipeline.filters pipeline = fs
    /\ fst (FilterPipeline.apply Image gaussian_blur enhance_brightness find_edges
              convert_L save_step pipeline image output_dir) = Some w.
Proof.
  intros Hne Hvalid Hcomp.
  assert (Forall2 (fun config f =>
            FilterFactory.create_from_config Image registry config = Py.Return f)
            configs fs) as Hall.
  { eapply Forall2_impl; [exact Hvalid|]. cbn.
    intros config f (ty & Hty & Hf).
    now rewrite (create_from_config_create _ _ _ _ Hty). }
  assert (fs <> []) as Hfs.
  { intros ->. apply Forall2_nil_inv_r in Hall. contradiction. }
  exists {| FilterPipeline.filters := fs;
            FilterPipeline.stop_on_error := true;
            FilterPipeline.save_intermediate := false |}.
  split; [|split; [reflexivity|]].
  - unfold FilterFactory.create_pipeline.
    rewrite (create_filters_all _ _ _ _ 0%nat [] Hall). cbn [app].
    unfold FilterPipeline.init. now destruct fs.
  - rewrite apply_unfold. cbv zeta. cbn [fst FilterPipeline.filters].
    set (self := {| FilterPipeline.filters := fs |}).
    set (start := {| FilterPipeline.result_image := image |}).
    assert (forall dir i n img,
              FilterPipeline.saving Image self output_dir = Some dir ->
              save_step dir i n img = None) as Hsaving
      by (unfold FilterPipeline.saving; now destruct output_dir).
    destruct (loop_all_succeed Image gaussian_blur enhance_brightness find_edges
                convert_L save_step self output_dir fs 0 start w Hsaving Hcomp)
      as [Hst Hw].
    assert (Composition.counts_agree
              (FilterPipeline.loop Image gaussian_blur enhance_brightness
                 find_edges convert_L save_step self output_dir 0 fs start))
      as [Hs _] by (apply loop_counts_agree; split; reflexivity).
    rewrite Hs, Hst. cbn [app FilterPipeline.filter_stats start].
    rewrite with_status_success_entries, length_success_entries, Hw.
    destruct fs; [contradiction|reflexivity].
Qed.

(** The amended C9 on the descriptors grayscale and blur with radius 3. *)
Lemma create_pipeline_applies_the_composition_witness :
  exists pipeline,
    FilterFactory.create_pipeline Sample.Image
      (FilterFactory._FILTER_REGISTRY Sample.Image) Sample.descriptors true false
      = Py.Return pipeline
    /\ FilterPipeline.filters pipeline = [Filters.Grayscale; Filters.Blur 3]
    /\ fst (FilterPipeline.apply Sample.Image Sample.gaussian_blur
              Sample.enhance_brightness Sample.find_edges Sample.convert_L
              Sample.save_step pipeline 7 None) = Some 7.
Proof.
  refine (create_pipeline_applies_the_composition Sample.Image Sample.gaussian_blur
            Sample.enhance_brightness Sample.find_edges Sample.convert_L
            Sample.save_step (FilterFactory._FILTER_REGISTRY Sample.Image)
            Sample.descriptors [Filters.Grayscale; Filters.Blur 3] 7 7 None _ _ _).
  - discriminate.
  - constructor; [|constructor; [|constructor]].
    + exists "grayscale". split; reflexivity.
    + exists "blur". split; reflexivity.
  - reflexivity.
Defined.
(** ** The task queue: claims, the dead letter queue and the retry limit *)

Section QueueLife.
Import Py Redis RedisTaskQueueV2 QueueProtocol.

Variable json_dumps : pyval -> string.
Variable json_loads : string -> option pyval.
Variable self : t.

(** One round of [claim_and_fail] on the task at the tail of [pending]: the
    lists are as before when the task is retried. *)
Lemma claim_and_fail_round worker_id utcnow timeout error_message d front T n :
  lrange_all (pending_key self) d = (front ++ [T])%list ->
  T <> "" ->
  hgetall (task_key self T) d !! "retry_count" = Some (str_int n) ->
  let d' := exec (mark_failed self T error_message true utcnow)
              (exec (get_task json_loads self worker_id utcnow timeout) d) in
  hgetall (task_key self T) d' !! "retry_count" = Some (str_int (n + 1))
  /\ hgetall (task_key self T) d' !! "status"
     = Some (if (n + 1 <? max_retries self)%Z then "failed" else "dead")
  /\ (forall k, lrange_all k d' =
        if (n + 1 <? max_retries self)%Z then lrange_all k d
        else if decide (k = pending_key self) then front
        else if decide (k = dead_letter_key self) then (lrange_all k d ++ [T])%list
        else lrange_all k d).
Proof.
  intros Hp HT Hrc. cbv zeta.
  assert (hgetall (task_key self T) d <> ∅) as Hne.
  { intros E. rewrite E in Hrc. discriminate Hrc. }
  destruct (get_task_some json_loads self worker_id utcnow timeout d front T Hp HT Hne)
    as (_ & Hl1 & Hh1).
  set (d1 := exec (get_task json_loads self worker_id utcnow timeout) d) in *.
  assert (stored_retry_count (hgetall (task_key self T) d1) = Return n) as Hn.
  { unfold stored_retry_count. rewrite Hh1, decide_True by reflexivity.
    unfold claimed. rewrite !lookup_insert_ne by discriminate.
    rewrite Hrc. apply int_str_int. }
  destruct (mark_failed_returns self T error_message true utcnow d1 n Hn)
    as (_ & Hl2 & Hh2).
  unfold retried in Hl2, Hh2. cbn [andb] in Hl2, Hh2.
  split; [|split].
  - rewrite Hh2, decide_True by reflexivity. unfold failed_hash.
    rewrite lookup_insert_ne by discriminate.
    rewrite lookup_insert_ne by discriminate.
    rewrite lookup_insert_ne by discriminate.
    now rewrite lookup_insert_eq.
  - rewrite Hh2, decide_True by reflexivity. unfold failed_hash.
    now rewrite lookup_insert_eq.
  - intros k. rewrite Hl2, !Hl1. settle_keys.
    destruct (n + 1 <? max_retries self)%Z.
    + destruct (decide (k = processing_key self)) as [->|Hk1].
      * settle_keys. apply remove_first_head.
      * destruct (decide (k = pending_key self)) as [->|Hk2]; [|reflexivity].
        settle_keys. now rewrite Hp.
    + destruct (decide (k = processing_key self)) as [->|Hk1].
      * settle_keys. apply remove_first_head.
      * destruct (decide (k = dead_letter_key self)) as [->|Hk2].
        -- now settle_keys.
        -- reflexivity.
Qed.

(** While the retry limit is not reached, the rounds of [claim_and_fail]
    leave the lists as they are and count the failures. *)
Lemma claim_and_fail_retried worker_id utcnow timeout error_message front T
    (rounds : nat) : forall d n,
  lrange_all (pending_key self) d = (front ++ [T])%list ->
  T <> "" ->
  hgetall (task_key self T) d !! "retry_count" = Some (str_int n) ->
  n + Z.of_nat rounds < max_retries self ->
  let d' := exec (claim_and_fail json_loads self worker_id utcnow timeout T
                    error_message rounds) d in
  hgetall (task_key self T) d' !! "retry_count" = Some (str_int (n + Z.of_nat rounds))
  /\ (forall k, lrange_all k d' = lrange_all k d).
Proof.
  induction rounds as [|r IH]; intros d n Hp HT Hrc Hlt; cbv zeta.
  - cbn [claim_and_fail]. rewrite exec_ret, Z.add_0_r. auto.
  - cbn [claim_and_fail]. rewrite !exec_bind.
    destruct (claim_and_fail_round worker_id utcnow timeout error_message d front T n
                Hp HT Hrc) as (Hrc1 & _ & Hl1).
    set (d1 := exec (mark_failed self T error_message true utcnow) _) in *.
    assert ((n + 1 <? max_retries self)%Z = true) as Hlt1 by (apply Z.ltb_lt; lia).
    rewrite Hlt1 in Hl1.
    assert (lrange_all (pending_key self) d1 = (front ++ [T])%list) as Hp1
      by now rewrite Hl1.
    destruct (IH d1 (n + 1) Hp1 HT Hrc1 ltac:(lia)) as [Hrc2 Hl2].
    split.
    + rewrite Hrc2. do 2 f_equal. lia.
    + intros k. now rewrite Hl2, Hl1.
Qed.

End QueueLife.

(** X1.  In a state the queue reaches, [get_task] returns [None] only when
    [pending] is empty, and then it changes nothing; otherwise it returns
    the hash of the id at the tail of [pending] as it was stored, takes
    that id off [pending] and puts it at the head of [processing]. *)
Theorem get_task_returns_the_tail_of_pending json_dumps json_loads self
    worker_id utcnow timeout d :
  QueueProtocol.reachable json_dumps json_loads self d ->
  let d' := Redis.exec (RedisTaskQueueV2.get_task json_loads self worker_id utcnow
                          timeout) d in
  match Redis.reply (RedisTaskQueueV2.get_task json_loads self worker_id utcnow
                       timeout) d with
  | None =>
      Redis.lrange_all (RedisTaskQueueV2.pending_key self) d = [] /\ d' = d
  | Some task =>
      exists front task_id,
        Redis.lrange_all (RedisTaskQueueV2.pending_key self) d
          = (front ++ [task_id])%list
        /\ task = RedisTaskQueueV2.parse_field json_loads
                    <$> Redis.hgetall (RedisTaskQueueV2.task_key self task_id) d
        /\ Redis.lrange_all (RedisTaskQueueV2.pending_key self) d' = front
        /\ Redis.lrange_all (RedisTaskQueueV2.processing_key self) d'
           = task_id :: Redis.lrange_all (RedisTaskQueueV2.processing_key self) d
  end.
Proof.
  intros Hreach. cbv zeta.
  pose proof (invariant_reachable json_dumps json_loads self d Hreach) as Hinv.
  destruct (Redis.lrange_all (RedisTaskQueueV2.pending_key self) d)
    as [|x l] eqn:Hp using rev_ind.
  { unfold Redis.reply, Redis.exec.
    rewrite (get_task_none json_loads self worker_id utcnow timeout d Hp).
    cbn [fst snd]. auto. }
  clear IHl.
  assert (x ∈ Redis.lrange_all (RedisTaskQueueV2.pending_key self) d) as Hin
    by (rewrite Hp; set_solver).
  destruct (in_pending self d x Hinv Hin) as ([Hx Hne] & _).
  destruct (get_task_some json_loads self worker_id utcnow timeout d l x Hp Hx Hne)
    as (Hr & Hl & _).
  rewrite Hr. exists l, x. split; [reflexivity|]. split; [reflexivity|].
  rewrite !Hl. settle_keys. auto.
Qed.

Lemma get_task_returns_the_tail_of_pending_witness :
  QueueProtocol.reachable Sample.json_dumps Sample.json_loads Sample.queue
    Sample.two_submitted
  /\ Redis.lrange_all (RedisTaskQueueV2.pending_key Sample.queue)
       (Redis.exec Sample.claim Sample.two_submitted) = ["task-1"].
Proof.
  assert (QueueProtocol.reachable Sample.json_dumps Sample.json_loads Sample.queue
            Sample.two_submitted) as Hreach.
  { unfold QueueProtocol.reachable, Sample.two_submitted.
    eapply rtc_l; [apply (QueueProtocol.step_add_task _ _ _ 1); reflexivity|].
    eapply rtc_l; [apply (QueueProtocol.step_add_task _ _ _ 2); reflexivity|].
    apply rtc_refl. }
  split; [exact Hreach|].
  pose proof (get_task_returns_the_tail_of_pending Sample.json_dumps
                Sample.json_loads Sample.queue "worker-1" "2024-05-01T10:00:01" 5
                Sample.two_submitted Hreach) as H.
  cbv zeta in H.
  destruct (Redis.reply _ _) as [task|] in H.
  - destruct H as (front & task_id & Hp & _ & Hf & _).
    unfold Sample.claim. rewrite Hf.
    vm_compute in Hp.
    change ["task-1"; "task-2"] with (["task-1"] ++ ["task-2"])%list in Hp.
    apply app_inj_tail in Hp. now destruct Hp as [<- _].
  - destruct H as [Hp _]. vm_compute in Hp. discriminate Hp.
Defined.

(** X2.  A task taken from the dead letter queue by
    [retry_dead_letter_task] is the next one [get_task] hands out, with its
    retry count back at 0 and the status "pending". *)
Theorem retried_dead_letter_task_is_claimed_next json_loads self task_id
    worker_id utcnow timeout d :
  task_id ∈ Redis.lrange_all (RedisTaskQueueV2.dead_letter_key self) d ->
  task_id <> "" ->
  let d1 := Redis.exec (RedisTaskQueueV2.retry_dead_letter_task self task_id) d in
  let d2 := Redis.exec (RedisTaskQueueV2.get_task json_loads self worker_id utcnow
                          timeout) d1 in
  Redis.reply (RedisTaskQueueV2.get_task json_loads self worker_id utcnow timeout) d1
  = Some (RedisTaskQueueV2.parse_field json_loads
            <$> <["status" := "pending"]>
                  (<["retry_count" := Py.str_int 0]>
                     (Redis.hgetall (RedisTaskQueueV2.task_key self task_id) d)))
  /\ Redis.lrange_all (RedisTaskQueueV2.dead_letter_key self) d2
     = Redis.remove_first task_id
         (Redis.lrange_all (RedisTaskQueueV2.dead_letter_key self) d)
  /\ Redis.lrange_all (RedisTaskQueueV2.pending_key self) d2
     = Redis.lrange_all (RedisTaskQueueV2.pending_key self) d
  /\ Redis.lrange_all (RedisTaskQueueV2.processing_key self) d2
     = task_id :: Redis.lrange_all (RedisTaskQueueV2.processing_key self) d.
Proof.
  intros Hin Hid. cbv zeta.
  destruct (retry_dead_letter_task_in self task_id d Hin) as [Hl Hh].
  set (d1 := Redis.exec (RedisTaskQueueV2.retry_dead_letter_task self task_id) d) in *.
  assert (Redis.lrange_all (RedisTaskQueueV2.pending_key self) d1
          = (Redis.lrange_all (RedisTaskQueueV2.pending_key self) d ++ [task_id])%list)
    as Hp by (rewrite Hl; now settle_keys).
  assert (Redis.hgetall (RedisTaskQueueV2.task_key self task_id) d1 <> ∅) as Hne.
  { rewrite Hh, decide_True by reflexivity. apply insert_non_empty. }
  destruct (get_task_some json_loads self worker_id utcnow timeout d1 _ task_id Hp Hid
              Hne) as (Hr & Hl2 & _).
  split.
  { rewrite Hr, Hh. now rewrite decide_True by reflexivity. }
  rewrite !Hl2, !Hl. now settle_keys.
Qed.

Lemma retried_dead_letter_task_is_claimed_next_witness :
  Redis.lrange_all (RedisTaskQueueV2.processing_key Sample.queue)
    (Redis.exec Sample.claim
       (Redis.exec (RedisTaskQueueV2.retry_dead_letter_task Sample.queue "task-1")
          Sample.dead_once))
  = ["task-1"].
Proof.
  assert ("task-1" ∈ Redis.lrange_all (RedisTaskQueueV2.dead_letter_key Sample.queue)
                       Sample.dead_once) as Hin by (vm_compute; set_solver).
  destruct (retried_dead_letter_task_is_claimed_next Sample.json_loads Sample.queue
              "task-1" "worker-1" "2024-05-01T10:00:01" 5 Sample.dead_once Hin
              ltac:(discriminate)) as (_ & _ & _ & Hr).
  exact Hr.
Defined.

(** X3.  [retry_dead_letter_task] on an id that is not in the dead letter
    queue changes no list and no hash: a task that is pending, in process
    or completed cannot be reset by it. *)
Theorem retry_dead_letter_task_ignores_other_tasks self task_id d :
  task_id ∉ Redis.lrange_all (RedisTaskQueueV2.dead_letter_key self) d ->
  let d' := Redis.exec (RedisTaskQueueV2.retry_dead_letter_task self task_id) d in
  (forall k, Redis.lrange_all k d' = Redis.lrange_all k d)
  /\ (forall k, Redis.hgetall k d' = Redis.hgetall k d).
Proof. exact (retry_dead_letter_task_notin self task_id d). Qed.

Lemma retry_dead_letter_task_ignores_other_tasks_witness :
  Redis.hgetall (RedisTaskQueueV2.task_key Sample.queue "task-1")
    (Redis.exec (RedisTaskQueueV2.retry_dead_letter_task Sample.queue "task-1")
       Sample.completed_once)
  = Redis.hgetall (RedisTaskQueueV2.task_key Sample.queue "task-1")
      Sample.completed_once.
Proof.
  apply (retry_dead_letter_task_ignores_other_tasks Sample.queue "task-1"
           Sample.completed_once).
  vm_compute. set_solver.
Defined.

Section QueueRetryLimit.
Import Py Redis RedisTaskQueueV2 QueueProtocol.

Variable json_loads : string -> option pyval.
Variable self : t.

(** The round at which the retry limit is reached sends the task to the
    dead letter queue. *)
Lemma claim_and_fail_dead worker_id utcnow timeout error_message front T
    (rounds : nat) : forall d n,
  lrange_all (pending_key self) d = (front ++ [T])%list ->
  T <> "" ->
  hgetall (task_key self T) d !! "retry_count" = Some (str_int n) ->
  (0 < rounds)%nat ->
  n + Z.of_nat rounds = max_retries self ->
  let d' := exec (claim_and_fail json_loads self worker_id utcnow timeout T
                    error_message rounds) d in
  hgetall (task_key self T) d' !! "retry_count" = Some (str_int (max_retries self))
  /\ hgetall (task_key self T) d' !! "status" = Some "dead"
  /\ (forall k, lrange_all k d' =
        if decide (k = pending_key self) then front
        else if decide (k = dead_letter_key self) then (lrange_all k d ++ [T])%list
        else lrange_all k d).
Proof.
  induction rounds as [|r IH]; intros d n Hp HT Hrc Hpos Hsum; [lia|]. cbv zeta.
  cbn [claim_and_fail]. rewrite !exec_bind.
  destruct (claim_and_fail_round json_loads self worker_id utcnow timeout error_message
              d front T n Hp HT Hrc) as (Hrc1 & Hst1 & Hl1).
  set (d1 := exec (mark_failed self T error_message true utcnow) _) in *.
  destruct r as [|r].
  - cbn [claim_and_fail]. rewrite exec_ret.
    assert ((n + 1 <? max_retries self)%Z = false) as Hge by (apply Z.ltb_ge; lia).
    rewrite Hge in Hst1, Hl1. replace (max_retries self) with (n + 1) by lia.
    auto.
  - assert ((n + 1 <? max_retries self)%Z = true) as Hlt by (apply Z.ltb_lt; lia).
    rewrite Hlt in Hl1.
    assert (lrange_all (pending_key self) d1 = (front ++ [T])%list) as Hp1
      by now rewrite Hl1.
    destruct (IH d1 (n + 1) Hp1 HT Hrc1 ltac:(lia) ltac:(lia)) as (Hrc2 & Hst2 & Hl2).
    split; [exact Hrc2|]. split; [exact Hst2|].
    intros k. now rewrite Hl2, Hl1.
Qed.

End QueueRetryLimit.

(** X4.  A task that fails every time it is claimed is handed out
    [max_retries] times: while fewer failures than that are reported it
    stays at the tail of [pending] and no list changes, and the failure
    that brings the count to [max_retries] moves it to the dead letter
    queue with status "dead". *)
Theorem task_is_dead_after_max_retries_failures json_loads self worker_id utcnow
    timeout error_message d front task_id :
  Redis.lrange_all (RedisTaskQueueV2.pending_key self) d = (front ++ [task_id])%list ->
  task_id <> "" ->
  Redis.hgetall (RedisTaskQueueV2.task_key self task_id) d !! "retry_count"
    = Some (Py.str_int 0) ->
  1 <= RedisTaskQueueV2.max_retries self ->
  let after rounds :=
    Redis.exec (QueueProtocol.claim_and_fail json_loads self worker_id utcnow timeout
                  task_id error_message rounds) d in
  (forall rounds k,
     Z.of_nat rounds < RedisTaskQueueV2.max_retries self ->
     Redis.lrange_all k (after rounds) = Redis.lrange_all k d)
  /\ (let d' := after (Z.to_nat (RedisTaskQueueV2.max_retries self)) in
      Redis.lrange_all (RedisTaskQueueV2.pending_key self) d' = front
      /\ Redis.lrange_all (RedisTaskQueueV2.dead_letter_key self) d'
         = (Redis.lrange_all (RedisTaskQueueV2.dead_letter_key self) d
            ++ [task_id])%list
      /\ QueueProtocol.status_of self task_id d' = Some "dead"
      /\ Redis.hgetall (RedisTaskQueueV2.task_key self task_id) d' !! "retry_count"
         = Some (Py.str_int (RedisTaskQueueV2.max_retries self))).
Proof.
  intros Hp Hid Hrc Hmax. cbv zeta. split.
  - intros rounds k Hlt.
    now destruct (claim_and_fail_retried json_loads self worker_id utcnow timeout
                    error_message front task_id rounds d 0 Hp Hid Hrc ltac:(lia))
      as [_ ->].
  - destruct (claim_and_fail_dead json_loads self worker_id utcnow timeout error_message
                front task_id (Z.to_nat (RedisTaskQueueV2.max_retries self)) d 0
                Hp Hid Hrc ltac:(lia) ltac:(lia)) as (H1 & H2 & H3).
    rewrite !H3. settle_keys. auto.
Qed.

Lemma task_is_dead_after_max_retries_failures_witness :
  Redis.lrange_all (RedisTaskQueueV2.dead_letter_key Sample.queue)
    (Redis.exec (QueueProtocol.claim_and_fail Sample.json_loads Sample.queue
                   "worker-1" "2024-05-01T10:00:01" 5 "task-2" "boom" 3)
       Sample.two_submitted)
  = ["task-2"].
Proof.
  assert (Redis.lrange_all (RedisTaskQueueV2.pending_key Sample.queue)
            Sample.two_submitted = (["task-1"] ++ ["task-2"])%list) as Hp
    by (vm_compute; reflexivity).
  destruct (task_is_dead_after_max_retries_failures Sample.json_loads Sample.queue
              "worker-1" "2024-05-01T10:00:01" 5 "boom" Sample.two_submitted
              ["task-1"] "task-2" Hp ltac:(discriminate) ltac:(vm_compute; reflexivity)
              ltac:(vm_compute; discriminate)) as [_ (_ & Hd & _)].
  exact Hd.
Defined.

(** ** The task queue: no task is lost *)

Section QueueKeepsTasks.
Import Py Redis RedisTaskQueueV2 QueueProtocol.

Variable json_dumps : pyval -> string.
Variable json_loads : string -> option pyval.
Variable self : t.

(** No call takes the [status] field from a hash. *)
Lemma step_keeps_status (d d' : db) (task_id : string) :
  invariant self d ->
  step json_dumps json_loads self d d' ->
  is_Some (status_of self task_id d) -> is_Some (status_of self task_id d').
Proof.
  intros Hinv Hstep Hst. unfold status_of in *. destruct Hstep.
  - rewrite hgetall_add_task.
    destruct (decide (_ = _)) as [_|_]; [|exact Hst].
    unfold submitted. eexists. read_field.
  - destruct (lrange_all (pending_key self) d) as [|T front] eqn:Hp using rev_ind.
    { unfold exec. now rewrite (get_task_none _ _ _ _ _ _ Hp). }
    clear IHfront.
    assert (T ∈ lrange_all (pending_key self) d) as Hin by (rewrite Hp; set_solver).
    destruct (in_pending self d T Hinv Hin) as ([HT Hne] & _).
    destruct (get_task_some json_loads self worker_id utcnow timeout d front T Hp HT Hne)
      as (_ & _ & Hh).
    rewrite Hh. destruct (decide (_ = _)) as [_|_]; [|exact Hst].
    unfold claimed. eexists. read_field.
  - rewrite hgetall_mark_completed.
    destruct (decide (_ = _)) as [_|_]; [|exact Hst].
    unfold completed, with_result.
    destruct result as [r|]; [destruct (truthy r)|]; eexists; read_field.
  - destruct (in_processing self d task_id0 Hinv H) as (_ & _ & n & Hrc).
    assert (stored_retry_count (hgetall (task_key self task_id0) d) = Return n) as Hn.
    { unfold stored_retry_count. rewrite Hrc. apply int_str_int. }
    destruct (mark_failed_returns self task_id0 error_message should_retry utcnow d n Hn)
      as (_ & _ & Hh).
    rewrite Hh. destruct (decide (_ = _)) as [_|_]; [|exact Hst].
    unfold failed_hash. eexists. read_field.
  - destruct (decide (task_id0 ∈ lrange_all (dead_letter_key self) d)) as [Hin|Hnin].
    + destruct (retry_dead_letter_task_in self task_id0 d Hin) as [_ Hh].
      rewrite Hh. destruct (decide (_ = _)) as [_|_]; [|exact Hst].
      eexists. read_field.
    + destruct (retry_dead_letter_task_notin self task_id0 d Hnin) as [_ Hh].
      now rewrite Hh.
Qed.

(** A task with a status is in one of the lists. *)
Lemma status_listed (d : db) (task_id : string) :
  invariant self d -> is_Some (status_of self task_id d) -> listed self task_id d.
Proof.
  intros [I1 _ _ _] [st Hst]. specialize (I1 task_id st Hst).
  unfold listed.
  destruct (place_of_cases _ _ I1) as [[-> _]|[[-> _]|[[-> _]|[-> _]]]];
    discriminate.
Qed.

End QueueKeepsTasks.

(** X5.  No task is lost: an id that is in one of the five lists in a state
    the queue reaches is in one of them, and still has its status, after
    any further calls of [add_task], [get_task], [mark_completed],
    [mark_failed] and [retry_dead_letter_task]. *)
Theorem no_task_leaves_the_lists json_dumps json_loads self d d' task_id :
  QueueProtocol.reachable json_dumps json_loads self d ->
  rtc (QueueProtocol.step json_dumps json_loads self) d d' ->
  QueueProtocol.listed self task_id d ->
  QueueProtocol.listed self task_id d'
  /\ is_Some (QueueProtocol.status_of self task_id d').
Proof.
  intros Hreach Hrtc Hl.
  pose proof (invariant_reachable json_dumps json_loads self d Hreach) as Hinv.
  assert (QueueProtocol.invariant self d'
          /\ is_Some (QueueProtocol.status_of self task_id d')) as [Hinv' Hst].
  { induction Hrtc as [d|d d1 d2 Hstep _ IH].
    - split; [exact Hinv|]. now apply (QueueProtocol.inv_listed _ _ Hinv).
    - assert (QueueProtocol.reachable json_dumps json_loads self d1) as Hreach1.
      { unfold QueueProtocol.reachable in *. eapply rtc_r; eassumption. }
      pose proof (invariant_reachable json_dumps json_loads self d1 Hreach1) as Hinv1.
      apply IH; [exact Hreach1| |exact Hinv1].
      apply (status_listed self d1 task_id Hinv1).
      apply (step_keeps_status json_dumps json_loads self d d1 task_id Hinv Hstep).
      now apply (QueueProtocol.inv_listed _ _ Hinv). }
  split; [|exact Hst]. now apply status_listed.
Qed.

Lemma no_task_leaves_the_lists_witness :
  QueueProtocol.listed Sample.queue "task-1" Sample.failed_once.
Proof.
  assert (QueueProtocol.reachable Sample.json_dumps Sample.json_loads Sample.queue
            (Redis.exec Sample.claim (Redis.exec (Sample.submit 1) Redis.empty)))
    as Hreach.
  { unfold QueueProtocol.reachable.
    eapply rtc_l; [apply (QueueProtocol.step_add_task _ _ _ 1); reflexivity|].
    eapply rtc_l; [apply QueueProtocol.step_get_task|]. apply rtc_refl. }
  refine (proj1 (no_task_leaves_the_lists Sample.json_dumps Sample.json_loads
                   Sample.queue _ Sample.failed_once "task-1" Hreach _ _)).
  - apply rtc_once. unfold Sample.failed_once, Sample.fail.
    apply QueueProtocol.step_mark_failed. vm_compute. set_solver.
  - vm_compute. discriminate.
Defined.

(** ** Deleting keys *)

Section RedisDelete.
Import Redis.

Lemma lrange_del (k k' : string) (d : db) :
  lrange_all k (exec (del k') d) = if decide (k = k') then [] else lrange_all k d.
Proof.
  unfold exec, del, lrange_all; simpl. destruct (decide (k = k')) as [->|Hne].
  - now rewrite lookup_delete_eq.
  - now rewrite lookup_delete_ne by congruence.
Qed.

Lemma hgetall_del (k k' : string) (d : db) :
  hgetall k (exec (del k') d) = if decide (k = k') then ∅ else hgetall k d.
Proof.
  unfold exec, del, hgetall; simpl. destruct (decide (k = k')) as [->|Hne].
  - now rewrite lookup_delete_eq.
  - now rewrite lookup_delete_ne by congruence.
Qed.

Lemma lrange_del_many (k : string) (keys : list string) (d : db) :
  lrange_all k (exec (del_many keys) d)
  = if decide (k ∈ keys) then [] else lrange_all k d.
Proof.
  revert d. induction keys as [|k' keys IH]; intros d; cbn [del_many].
  - rewrite exec_ret. now rewrite decide_False by apply not_elem_of_nil.
  - rewrite !exec_bind, exec_ret, IH, lrange_del.
    destruct (decide (k ∈ keys)) as [Hin|Hnin].
    + now rewrite decide_True by (now apply list_elem_of_further).
    + destruct (decide (k = k')) as [->|Hne].
      * now rewrite decide_True by apply list_elem_of_here.
      * now rewrite decide_False by (rewrite not_elem_of_cons; auto).
Qed.

Lemma hgetall_del_many (k : string) (keys : list string) (d : db) :
  hgetall k (exec (del_many keys) d)
  = if decide (k ∈ keys) then ∅ else hgetall k d.
Proof.
  revert d. induction keys as [|k' keys IH]; intros d; cbn [del_many].
  - rewrite exec_ret. now rewrite decide_False by apply not_elem_of_nil.
  - rewrite !exec_bind, exec_ret, IH, hgetall_del.
    destruct (decide (k ∈ keys)) as [Hin|Hnin].
    + now rewrite decide_True by (now apply list_elem_of_further).
    + destruct (decide (k = k')) as [->|Hne].
      * now rewrite decide_True by apply list_elem_of_here.
      * now rewrite decide_False by (rewrite not_elem_of_cons; auto).
Qed.

(** KEYS finds the keys that hold a hash or a list that is not empty. *)
Lemma elem_of_keys_prefix (p k : string) (d : db) :
  k ∈ keys_prefix p d <->
  String.prefix p k = true /\ (is_Some (hashes d !! k) \/ lrange_all k d <> []).
Proof.
  unfold keys_prefix, lrange_all.
  rewrite list_elem_of_filter, elem_of_app, !list_elem_of_fmap.
  split.
  - intros [Hp [[[k1 h] [-> Hin]]|[[k1 l] [-> Hin]]]]; (split; [exact Hp|]).
    + left. apply elem_of_map_to_list in Hin. simpl. now rewrite Hin.
    + right. apply elem_of_map_to_list, map_lookup_filter_Some in Hin.
      destruct Hin as [Hl Hne]. simpl in *. now rewrite Hl.
  - intros [Hp [[h Hh]|Hl]]; (split; [exact Hp|]).
    + left. exists (k, h). split; [reflexivity|]. now apply elem_of_map_to_list.
    + right. destruct (lists d !! k) as [l|] eqn:E; [|now destruct Hl].
      exists (k, l). split; [reflexivity|].
      apply elem_of_map_to_list, map_lookup_filter_Some. auto.
Qed.

(** A key that KEYS does not find holds nothing. *)
Lemma not_in_keys_prefix (p k : string) (d : db) :
  String.prefix p k = true -> k ∉ keys_prefix p d ->
  lrange_all k d = [] /\ hgetall k d = ∅.
Proof.
  intros Hp Hnin. rewrite elem_of_keys_prefix in Hnin.
  split.
  - destruct (lrange_all k d) as [|x l] eqn:E; [reflexivity|].
    exfalso. apply Hnin. split; [exact Hp|]. right. discriminate.
  - unfold hgetall. destruct (hashes d !! k) as [h|] eqn:E; [|reflexivity].
    exfalso. apply Hnin. split; [exact Hp|]. left. now exists h.
Qed.

(** The deletion of the keys found, when there are any. *)
Lemma lrange_del_found (k : string) (keys : list string) (d : db) :
  lrange_all k (exec (match keys with [] => ret 0 | _ => del_many keys end) d)
  = if decide (k ∈ keys) then [] else lrange_all k d.
Proof.
  destruct keys as [|k' keys]; [|apply lrange_del_many].
  rewrite exec_ret. now rewrite decide_False by apply not_elem_of_nil.
Qed.

Lemma hgetall_del_found (k : string) (keys : list string) (d : db) :
  hgetall k (exec (match keys with [] => ret 0 | _ => del_many keys end) d)
  = if decide (k ∈ keys) then ∅ else hgetall k d.
Proof.
  destruct keys as [|k' keys]; [|apply hgetall_del_many].
  rewrite exec_ret. now rewrite decide_False by apply not_elem_of_nil.
Qed.

End RedisDelete.

(** ** The task queue: [clear] *)

Section QueueClear.
Import Py Redis RedisTaskQueueV2 QueueProtocol.

Variable self : t.

Local Abbreviation list_keys :=
  [pending_key self; processing_key self; completed_key self;
   failed_key self; dead_letter_key self].

(** [clear], command by command. *)
Lemma clear_unfold (d : db) :
  let d0 := exec (del_many list_keys) d in
  exec (clear self) d
  = exec (match keys_prefix "result:" d0 with
          | [] => ret 0 | _ => del_many (keys_prefix "result:" d0) end)
      (exec (match keys_prefix "task:" d0 with
             | [] => ret 0 | _ => del_many (keys_prefix "task:" d0) end) d0).
Proof.
  cbv zeta. unfold clear. rewrite exec_bind.
  set (d0 := exec (del_many list_keys) d).
  unfold exec at 1. cbv beta zeta.
  match goal with |- snd (?c d0) = _ => change (snd (c d0)) with (exec c d0) end.
  now rewrite !exec_bind, exec_ret.
Qed.

Lemma lrange_clear (k : string) (d : db) :
  lrange_all k (exec (clear self) d)
  = if decide (k ∈ list_keys) then []
    else if String.prefix "task:" k || String.prefix "result:" k then []
    else lrange_all k d.
Proof.
  rewrite clear_unfold. cbv zeta.
  set (d0 := exec (del_many list_keys) d).
  rewrite lrange_del_found, lrange_del_found.
  assert (lrange_all k d0 = if decide (k ∈ list_keys) then [] else lrange_all k d)
    as H0 by apply lrange_del_many.
  destruct (decide (k ∈ keys_prefix "result:" d0)) as [Hr|Hr].
  { apply elem_of_keys_prefix in Hr as [-> _]. rewrite orb_true_r.
    now destruct (decide (k ∈ list_keys)). }
  destruct (decide (k ∈ keys_prefix "task:" d0)) as [Ht|Ht].
  { apply elem_of_keys_prefix in Ht as [-> _]. cbn [orb].
    now destruct (decide (k ∈ list_keys)). }
  rewrite H0. destruct (decide (k ∈ list_keys)) as [_|Hk]; [reflexivity|].
  destruct (String.prefix "task:" k) eqn:Pt.
  { destruct (not_in_keys_prefix "task:" k d0 Pt Ht) as [E _].
    now rewrite H0 in E. }
  destruct (String.prefix "result:" k) eqn:Pr; [|reflexivity].
  destruct (not_in_keys_prefix "result:" k d0 Pr Hr) as [E _].
  now rewrite H0 in E.
Qed.

Lemma hgetall_clear (k : string) (d : db) :
  hgetall k (exec (clear self) d)
  = if decide (k ∈ list_keys) then ∅
    else if String.prefix "task:" k || String.prefix "result:" k then ∅
    else hgetall k d.
Proof.
  rewrite clear_unfold. cbv zeta.
  set (d0 := exec (del_many list_keys) d).
  rewrite hgetall_del_found, hgetall_del_found.
  assert (hgetall k d0 = if decide (k ∈ list_keys) then ∅ else hgetall k d)
    as H0 by apply hgetall_del_many.
  destruct (decide (k ∈ keys_prefix "result:" d0)) as [Hr|Hr].
  { apply elem_of_keys_prefix in Hr as [-> _]. rewrite orb_true_r.
    now destruct (decide (k ∈ list_keys)). }
  destruct (decide (k ∈ keys_prefix "task:" d0)) as [Ht|Ht].
  { apply elem_of_keys_prefix in Ht as [-> _]. cbn [orb].
    now destruct (decide (k ∈ list_keys)). }
  rewrite H0. destruct (decide (k ∈ list_keys)) as [_|Hk]; [reflexivity|].
  destruct (String.prefix "task:" k) eqn:Pt.
  { destruct (not_in_keys_prefix "task:" k d0 Pt Ht) as [_ E].
    now rewrite H0 in E. }
  destruct (String.prefix "result:" k) eqn:Pr; [|reflexivity].
  destruct (not_in_keys_prefix "result:" k d0 Pr Hr) as [_ E].
  now rewrite H0 in E.
Qed.

(** The key of a task hash is none of the five list keys. *)
Lemma task_key_not_list_key (task_id : string) : task_key self task_id ∉ list_keys.
Proof.
  unfold task_key, pending_key, processing_key, completed_key, failed_key,
    dead_letter_key.
  rewrite !not_elem_of_cons.
  repeat split; try apply not_elem_of_nil;
    intros H; apply (inj (String.app _)) in H; discriminate H.
Qed.

(** A string that starts with another character than [c] has no prefix
    that starts with [c]. *)
Lemma prefix_first (c : ascii) (p s : string) :
  String.get 0 s <> Some c -> String.prefix (String c p) s = false.
Proof.
  destruct s as [|c' s]; [reflexivity|]. cbn.
  intros H. destruct (ascii_dec c c') as [->|_]; [now destruct H|reflexivity].
Qed.

End QueueClear.

(** X6.  [clear] empties the five lists, but the patterns it searches,
    "task:*" and "result:*", do not carry the name of the queue: for a
    queue whose name does not begin with "t" or "r", as the default name,
    every task hash is still stored after [clear], so that [get_stats]
    shows an empty queue while the tasks keep their status. *)
Theorem clear_leaves_the_task_hashes self d task_id :
  String.get 0 (RedisTaskQueueV2.queue_name self) <> Some "t"%char ->
  String.get 0 (RedisTaskQueueV2.queue_name self) <> Some "r"%char ->
  let d' := Redis.exec (RedisTaskQueueV2.clear self) d in
  Redis.hgetall (RedisTaskQueueV2.task_key self task_id) d'
  = Redis.hgetall (RedisTaskQueueV2.task_key self task_id) d
  /\ RedisTaskQueueV2.get_stats self d'
     = {| RedisTaskQueueV2.stat_pending := 0;
          RedisTaskQueueV2.stat_processing := 0;
          RedisTaskQueueV2.stat_completed := 0;
          RedisTaskQueueV2.stat_failed := 0;
          RedisTaskQueueV2.stat_dead_letter := 0 |}.
Proof.
  intros Ht Hr. cbv zeta. split.
  - rewrite hgetall_clear.
    rewrite decide_False by apply task_key_not_list_key.
    assert (forall c, String.get 0 (RedisTaskQueueV2.queue_name self) <> Some c ->
                      c <> ":"%char ->
                      String.get 0 (RedisTaskQueueV2.task_key self task_id) <> Some c)
      as Hfirst.
    { intros c Hc Hcolon. unfold RedisTaskQueueV2.task_key.
      destruct (RedisTaskQueueV2.queue_name self) as [|c' q]; cbn in *.
      - intros [= <-]. now apply Hcolon.
      - exact Hc. }
    rewrite (prefix_first "t" "ask:") by (apply Hfirst; [exact Ht|discriminate]).
    now rewrite (prefix_first "r" "esult:") by (apply Hfirst; [exact Hr|discriminate]).
  - unfold RedisTaskQueueV2.get_stats, Redis.llen. rewrite !lrange_clear.
    rewrite !decide_True; [reflexivity|..];
      repeat first [apply list_elem_of_here | apply list_elem_of_further].
Qed.

Lemma clear_leaves_the_task_hashes_witness :
  QueueProtocol.status_of Sample.queue "task-1"
    (Redis.exec (RedisTaskQueueV2.clear Sample.queue) Sample.completed_once)
  = Some "completed".
Proof.
  unfold QueueProtocol.status_of.
  rewrite (proj1 (clear_leaves_the_task_hashes Sample.queue Sample.completed_once
                    "task-1" ltac:(discriminate) ltac:(discriminate))).
  vm_compute. reflexivity.
Defined.

(** ** The task queue: [recover_stuck_tasks] *)

Section QueueRecover.
Import Py Redis RedisTaskQueueV2 QueueProtocol.

Variable json_dumps : pyval -> string.
Variable json_loads : string -> option pyval.
Variable datetime : Type.
Variable fromisoformat : string -> option datetime.
Variable total_seconds : string -> datetime -> option Q.
Variable timeout_message : Q -> string.
Variable utcnow : nat -> string.
Variable self : t.

Local Abbreviation recover_loop :=
  (RedisTaskQueueV2.recover_loop datetime fromisoformat total_seconds
     timeout_message utcnow self).

Lemma elem_of_remove_first_ne (v x : string) (l : list string) :
  x ∈ l -> x <> v -> x ∈ remove_first v l.
Proof.
  induction l as [|y l IH]; simpl; [easy|].
  rewrite elem_of_cons. intros [->|Hin] Hne.
  - destruct (String.eqb_spec y v) as [->|_]; [congruence|apply list_elem_of_here].
  - destruct (String.eqb_spec y v) as [_|_]; [exact Hin|].
    apply list_elem_of_further. now apply IH.
Qed.

Lemma recover_loop_sweeps (task_ids : list string) :
  forall reading recovered d,
  reachable json_dumps json_loads self d ->
  NoDup task_ids ->
  (forall task_id, task_id ∈ task_ids ->
                   task_id ∈ lrange_all (processing_key self) d) ->
  let d' := exec (recover_loop task_ids reading recovered) d in
  reachable json_dumps json_loads self d'
  /\ exists n, reply (recover_loop task_ids reading recovered) d
               = Return (recovered + Z.of_nat n)
               /\ (n <= length task_ids)%nat
               /\ swept self d d' n.
Proof.
  induction task_ids as [|T rest IH]; intros reading recovered d Hreach Hnd Hin;
    cbv zeta.
  { cbn [RedisTaskQueueV2.recover_loop]. rewrite exec_ret, reply_ret.
    split; [exact Hreach|]. exists 0%nat. rewrite Z.add_0_r.
    split; [reflexivity|]. split; [reflexivity|].
    unfold swept. repeat split; first [reflexivity | lia]. }
  apply NoDup_cons in Hnd as [HT Hnd].
  assert (forall reading recovered,
            let d' := exec (recover_loop rest reading recovered) d in
            reachable json_dumps json_loads self d'
            /\ exists n, reply (recover_loop rest reading recovered) d
                         = Return (recovered + Z.of_nat n)
                         /\ (n <= length (T :: rest))%nat
                         /\ swept self d d' n) as Hskip.
  { intros r c. cbv zeta.
    assert (forall id, id ∈ rest -> id ∈ lrange_all (processing_key self) d) as Hin0
      by (intros id Hid; apply Hin; now apply list_elem_of_further).
    destruct (IH r c d Hreach Hnd Hin0) as (Hr & n & Ho & Hn & Hs).
    split; [exact Hr|]. exists n. cbn [length].
      split; [exact Ho|]. split; [lia|exact Hs]. }
  unfold exec, reply. cbn [RedisTaskQueueV2.recover_loop].
  destruct (bool_decide (hgetall (task_key self T) d = ∅)); [apply Hskip|].
  destruct (hgetall (task_key self T) d !! "started_at") as [s|]; [|apply Hskip].
  destruct (String.eqb s ""); [apply Hskip|].
  destruct (fromisoformat s) as [started_at|]; [|apply Hskip].
  destruct (total_seconds (utcnow reading) started_at) as [elapsed|]; [|apply Hskip].
  destruct (num_lt (inject_Z (processing_timeout self)) elapsed); [|apply Hskip].
  (* the task is stuck: [mark_failed] is called *)
  pose proof (invariant_reachable json_dumps json_loads self d Hreach) as Hinv.
  assert (T ∈ lrange_all (processing_key self) d) as HinT
    by (apply Hin; apply list_elem_of_here).
  destruct (in_processing self d T Hinv HinT) as (_ & _ & n0 & Hrc).
  assert (stored_retry_count (hgetall (task_key self T) d) = Return n0) as Hn0.
  { unfold stored_retry_count. rewrite Hrc. apply int_str_int. }
  destruct (mark_failed_returns self T (timeout_message elapsed) true
              (utcnow (S reading)) d n0 Hn0) as (Hreply & Hl & _).
  unfold bind.
  destruct (mark_failed self T (timeout_message elapsed) true (utcnow (S reading)) d)
    as [o d1] eqn:E.
  unfold reply in Hreply. unfold exec in Hl. rewrite E in Hreply, Hl.
  cbn [fst snd] in Hreply, Hl. subst o.
  assert (reachable json_dumps json_loads self d1) as Hreach1.
  { unfold reachable in *. eapply rtc_r; [exact Hreach|].
    replace d1 with (exec (mark_failed self T (timeout_message elapsed) true
                             (utcnow (S reading))) d)
      by (unfold exec; now rewrite E).
    now apply step_mark_failed. }
  assert (forall id, id ∈ rest -> id ∈ lrange_all (processing_key self) d1) as Hin1.
  { intros id Hid. rewrite Hl, decide_True by reflexivity.
    apply elem_of_remove_first_ne.
    - apply Hin. now apply list_elem_of_further.
    - intros ->. now apply HT. }
  destruct (IH (S (S reading)) (recovered + 1) d1 Hreach1 Hnd Hin1)
    as (Hr & n & Ho & Hn & Hs1 & Hs2 & Hs3 & Hs4).
  unfold exec, reply in Hr, Ho, Hs1, Hs2, Hs3, Hs4.
  split; [exact Hr|]. exists (S n).
  split; [rewrite Ho; f_equal; lia|]. split; [cbn [length]; lia|].
  pose proof (remove_first_length_in _ _ HinT) as Hlen.
  unfold swept, exec.
  rewrite Hs1, Hs2. clear Hs1 Hs2.
  rewrite (Hl (completed_key self)), (Hl (failed_key self)).
  rewrite (Hl (processing_key self)) in Hs3.
  rewrite (Hl (pending_key self)), (Hl (dead_letter_key self)) in Hs4.
  revert Hs3 Hs4.
  destruct (retried self true n0); settle_keys; rewrite ?length_app; cbn [length];
    intros; repeat split; first [reflexivity | lia].
Qed.

(** A sweep over tasks none of which has been in process for longer than
    the timeout does nothing. *)
Lemma recover_loop_none_stuck (d : db) (task_ids : list string) :
  (forall task_id s started_at reading elapsed,
     task_id ∈ task_ids ->
     hgetall (task_key self task_id) d !! "started_at" = Some s ->
     fromisoformat s = Some started_at ->
     total_seconds (utcnow reading) started_at = Some elapsed ->
     (elapsed <= inject_Z (processing_timeout self))%Q) ->
  forall reading recovered,
    recover_loop task_ids reading recovered d = (Return recovered, d).
Proof.
  induction task_ids as [|T rest IH]; intros Hfresh reading recovered;
    [reflexivity|].
  assert (forall reading recovered,
            recover_loop rest reading recovered d = (Return recovered, d)) as IH'.
  { apply IH. intros id s st r e Hid. apply Hfresh. now apply list_elem_of_further. }
  cbn [RedisTaskQueueV2.recover_loop].
  destruct (bool_decide (hgetall (task_key self T) d = ∅)); [apply IH'|].
  destruct (hgetall (task_key self T) d !! "started_at") as [s|] eqn:Es; [|apply IH'].
  destruct (String.eqb s ""); [apply IH'|].
  destruct (fromisoformat s) as [started_at|] eqn:Ef; [|apply IH'].
  destruct (total_seconds (utcnow reading) started_at) as [elapsed|] eqn:E;
    [|apply IH'].
  apply (Hfresh T s started_at reading elapsed (list_elem_of_here _ _) Es Ef),
    num_lt_false in E.
  rewrite E. apply IH'.
Qed.

(** In a state the queue reaches, no id is twice in [processing]. *)
Lemma processing_NoDup (d : db) :
  invariant self d -> NoDup (lrange_all (processing_key self) d).
Proof.
  intros Hinv.
  assert (forall x, x ∈ lrange_all (processing_key self) d ->
                    count x (lrange_all (processing_key self) d) = 1%nat) as Hone.
  { intros x Hx. destruct (in_processing self d x Hinv Hx) as (_ & Hw & _).
    unfold where_is, occurrences in Hw. now injection Hw. }
  induction (lrange_all (processing_key self) d) as [|x l IH]; [constructor|].
  pose proof (Hone x (list_elem_of_here _ _)) as Hx.
  rewrite count_cons, decide_True in Hx by reflexivity.
  apply NoDup_cons. split.
  - rewrite count_pos. lia.
  - apply IH. intros y Hy.
    pose proof (Hone y (list_elem_of_further _ _ _ Hy)) as Hy1.
    rewrite count_cons in Hy1. apply count_pos in Hy.
    destruct (decide (x = y)); lia.
Qed.

End QueueRecover.

(** X7.  In a state the queue reaches, [recover_stuck_tasks] returns the
    number of tasks it took out of [processing]; each of them is now in
    [pending] or in the dead letter queue, no other list changes and no id
    is lost, and the state it leaves is again one the queue reaches by its
    own calls.  It never raises. *)
Theorem recover_stuck_tasks_moves_stuck_tasks json_dumps json_loads
    (datetime : Type) fromisoformat total_seconds timeout_message utcnow self d :
  QueueProtocol.reachable json_dumps json_loads self d ->
  let sweep := RedisTaskQueueV2.recover_stuck_tasks datetime fromisoformat
                 total_seconds timeout_message utcnow self in
  QueueProtocol.reachable json_dumps json_loads self (Redis.exec sweep d)
  /\ exists n : nat,
       Redis.reply sweep d = Py.Return (Z.of_nat n)
       /\ QueueProtocol.swept self d (Redis.exec sweep d) n.
Proof.
  intros Hreach. cbv zeta.
  pose proof (invariant_reachable json_dumps json_loads self d Hreach) as Hinv.
  destruct (recover_loop_sweeps json_dumps json_loads datetime fromisoformat
              total_seconds timeout_message utcnow self
              (Redis.lrange_all (RedisTaskQueueV2.processing_key self) d) 0 0 d Hreach
              (processing_NoDup self d Hinv) (fun _ H => H))
    as (Hr & n & Ho & _ & Hs).
  split; [exact Hr|]. exists n. split; [exact Ho|exact Hs].
Qed.

Lemma claimed_once_reachable :
  QueueProtocol.reachable Sample.json_dumps Sample.json_loads Sample.queue
    Sample.claimed_once.
Proof.
  unfold QueueProtocol.reachable, Sample.claimed_once.
  eapply rtc_l; [apply (QueueProtocol.step_add_task _ _ _ 1); reflexivity|].
  eapply rtc_l; [apply QueueProtocol.step_get_task|]. apply rtc_refl.
Qed.

Lemma recover_stuck_tasks_moves_stuck_tasks_witness :
  QueueProtocol.reachable Sample.json_dumps Sample.json_loads Sample.queue
    (Redis.exec (Sample.sweep "2024-05-01T10:06:00") Sample.claimed_once)
  /\ Redis.reply (Sample.sweep "2024-05-01T10:06:00") Sample.claimed_once
     = Py.Return 1
  /\ Redis.lrange_all (RedisTaskQueueV2.pending_key Sample.queue)
       (Redis.exec (Sample.sweep "2024-05-01T10:06:00") Sample.claimed_once)
     = ["task-1"].
Proof.
  split; [|split; vm_compute; reflexivity].
  apply (recover_stuck_tasks_moves_stuck_tasks Sample.json_dumps Sample.json_loads Z
           Sample.seconds_of Sample.total_seconds Sample.timeout_message
           (fun _ => "2024-05-01T10:06:00") Sample.queue Sample.claimed_once).
  apply claimed_once_reachable.
Defined.

(** X8.  A task is stuck only when it has been in process for strictly
    longer than [processing_timeout]: when no task in [processing] has, at
    any reading of the clock, [recover_stuck_tasks] returns 0 and leaves
    the broker as it is, in every state. *)
Theorem recover_stuck_tasks_leaves_fresh_tasks (datetime : Type) fromisoformat
    total_seconds timeout_message utcnow self d :
  (forall task_id s started_at reading elapsed,
     task_id ∈ Redis.lrange_all (RedisTaskQueueV2.processing_key self) d ->
     Redis.hgetall (RedisTaskQueueV2.task_key self task_id) d !! "started_at" = Some s ->
     fromisoformat s = Some started_at ->
     total_seconds (utcnow reading) started_at = Some elapsed ->
     (elapsed <= inject_Z (RedisTaskQueueV2.processing_timeout self))%Q) ->
  RedisTaskQueueV2.recover_stuck_tasks datetime fromisoformat total_seconds
    timeout_message utcnow self d
  = (Py.Return 0, d).
Proof.
  intros Hfresh. unfold RedisTaskQueueV2.recover_stuck_tasks.
  now apply recover_loop_none_stuck.
Qed.

Lemma recover_stuck_tasks_leaves_fresh_tasks_witness :
  Sample.sweep "2024-05-01T10:05:01" Sample.claimed_once
  = (Py.Return 0, Sample.claimed_once).
Proof.
  apply (recover_stuck_tasks_leaves_fresh_tasks Z Sample.seconds_of
           Sample.total_seconds Sample.timeout_message
           (fun _ => "2024-05-01T10:05:01") Sample.queue Sample.claimed_once).
  intros task_id s started_at reading elapsed Hin Hs Hf He.
  assert (task_id = "task-1") as ->.
  { vm_compute in Hin. apply list_elem_of_singleton in Hin. exact Hin. }
  vm_compute in Hs. injection Hs as <-.
  vm_compute in Hf. injection Hf as <-.
  vm_compute in He. injection He as <-.
  vm_compute. discriminate.
Defined.

(** ** The worker registry: health of a worker, removal, statistics *)

Section RegistryRecords.
Import Py Redis WorkerRegistry.

Variable float_of_str : string -> option number.
Variable float_sub : number -> number -> number.
Variable round2 : number -> number.
Variable self : t.

Local Abbreviation scan_workers :=
  (WorkerRegistry.scan_workers float_of_str float_sub round2).
Local Abbreviation last_heartbeat_of :=
  (WorkerRegistry.last_heartbeat_of float_of_str).
Local Abbreviation annotated := (WorkerRegistry.annotated round2).

Lemma worker_key_inj (a b : string) : worker_key a = worker_key b -> a = b.
Proof.
  unfold worker_key. intros H.
  apply (inj (String.app _)) in H. now apply (inj (String.app _)) in H.
Qed.

Lemma prefix_split (p s : string) :
  String.prefix p s = true -> exists r, s = p +:+ r.
Proof.
  revert s. induction p as [|a p IH]; intros s.
  - intros _. now exists s.
  - destruct s as [|b s]; simpl; [discriminate|].
    destruct (ascii_dec a b) as [->|_]; [|discriminate].
    intros H. destruct (IH s H) as [r ->]. now exists r.
Qed.

(** The keys the registry scans are keys of workers. *)
Lemma scanned_worker_key (key : string) (d : db) :
  key ∈ keys_prefix (registry_key +:+ ":") d -> exists w, key = worker_key w.
Proof.
  intros H. apply elem_of_keys_prefix in H as [H _].
  apply prefix_split in H as [r ->]. now exists r.
Qed.

Lemma annotated_worker_id (h : gmap string string) (ts : number) (b : bool) :
  annotated h ts b !! "worker_id" = PStr <$> h !! "worker_id".
Proof.
  unfold WorkerRegistry.annotated. rewrite !lookup_insert_ne by discriminate. apply lookup_fmap.
Qed.

(** A scan collects annotated hashes of the keys it goes through. *)
Lemma scan_workers_elements (alive : bool) (current_time : number) (d : db)
    (worker_keys : list string) :
  forall acc workers,
    scan_workers self alive current_time worker_keys d acc = Return workers ->
    forall w, w ∈ workers ->
      w ∈ acc \/ exists key ts, key ∈ worker_keys /\ hgetall key d <> ∅
                                /\ w = annotated (hgetall key d) ts alive.
Proof.
  induction worker_keys as [|key rest IH]; intros acc workers;
    cbn [WorkerRegistry.scan_workers].
  - intros [= <-] w Hw. now left.
  - assert (forall acc', scan_workers self alive current_time rest d acc' = Return workers ->
              (forall w, w ∈ acc' ->
                 w ∈ acc \/ exists key' ts, key' ∈ key :: rest /\ hgetall key' d <> ∅
                                            /\ w = annotated (hgetall key' d) ts alive) ->
              forall w, w ∈ workers ->
                 w ∈ acc \/ exists key' ts, key' ∈ key :: rest /\ hgetall key' d <> ∅
                                            /\ w = annotated (hgetall key' d) ts alive)
      as Hrest.
    { intros acc' Hs Hacc w Hw.
      destruct (IH acc' workers Hs w Hw) as [Hin|(key' & ts & Hin & Hne & ->)].
      - now apply Hacc.
      - right. exists key', ts. split; [now apply list_elem_of_further|auto]. }
    destruct (bool_decide (hgetall key d = ∅)) eqn:Hempty.
    { intros Hs. apply (Hrest acc Hs). now left. }
    apply bool_decide_eq_false_1 in Hempty.
    destruct (last_heartbeat_of (hgetall key d)) as [t|e]; [|discriminate].
    destruct (if alive then _ else _).
    + intros Hs. apply (Hrest _ Hs). intros w Hw.
      apply elem_of_app in Hw as [Hw|Hw]; [now left|].
      apply list_elem_of_singleton in Hw as ->. right.
      exists key, (float_sub current_time t). split; [apply list_elem_of_here|auto].
    + intros Hs. apply (Hrest acc Hs). now left.
Qed.

(** A time since the heartbeat is recent, or overdue, or is [nan], and
    only one of the three. *)
Lemma recent_or_overdue (ts : number) :
  (recent self ts = true /\ overdue self ts = false /\ is_nan ts = false)
  \/ (recent self ts = false /\ overdue self ts = true /\ is_nan ts = false)
  \/ (recent self ts = false /\ overdue self ts = false /\ is_nan ts = true).
Proof.
  unfold recent, overdue. destruct ts as [q| | |]; cbn; auto.
  destruct (Qle_bool _ q); cbn; auto.
Qed.

(** Each scan collects a record at most once. *)
Lemma scan_workers_length (alive : bool) (current_time : number) (d : db)
    (worker_keys : list string) :
  forall acc workers,
    scan_workers self alive current_time worker_keys d acc = Return workers ->
    (length workers
     <= length acc + length (filter (fun key => hgetall key d <> ∅) worker_keys))%nat.
Proof.
  induction worker_keys as [|key rest IH]; intros acc workers;
    cbn [WorkerRegistry.scan_workers].
  - intros [= <-]. rewrite filter_nil. simpl. lia.
  - rewrite filter_cons.
    destruct (bool_decide (hgetall key d = ∅)) eqn:Hempty.
    { apply bool_decide_eq_true_1 in Hempty.
      rewrite decide_False by (intros H; now apply H). apply IH. }
    apply bool_decide_eq_false_1 in Hempty.
    rewrite decide_True by exact Hempty.
    destruct (last_heartbeat_of (hgetall key d)) as [t|e]; [|discriminate].
    destruct (if alive then _ else _); intros Hs; specialize (IH _ _ Hs);
      rewrite ?length_app in IH; cbn [length] in *; lia.
Qed.

(** The scans of [get_active_workers] and of [get_dead_workers], made at
    the same time, share out between them the records whose time since
    the heartbeat is a number; a record for which it is [nan] is in
    neither. *)
Lemma scan_workers_partition (current_time : number) (d : db)
    (worker_keys : list string) :
  forall acc_a acc_d active dead,
    scan_workers self true current_time worker_keys d acc_a = Return active ->
    scan_workers self false current_time worker_keys d acc_d = Return dead ->
    (length active + length dead
     + length (filter (fun key =>
                 hgetall key d <> ∅
                 /\ Is_true match last_heartbeat_of (hgetall key d) with
                            | Return t => is_nan (float_sub current_time t)
                            | Raise _ => false
                            end)
               worker_keys)
     = length acc_a + length acc_d
       + length (filter (fun key => hgetall key d <> ∅) worker_keys))%nat.
Proof.
  induction worker_keys as [|key rest IH]; intros acc_a acc_d active dead;
    cbn [WorkerRegistry.scan_workers].
  - intros [= <-] [= <-]. rewrite !filter_nil. simpl. lia.
  - rewrite !filter_cons.
    destruct (bool_decide (hgetall key d = ∅)) eqn:Hempty.
    { apply bool_decide_eq_true_1 in Hempty.
      destruct (decide (_ /\ _)) as [[Hne _]|_]; [now destruct Hne|].
      destruct (decide (_ <> _)) as [Hne|_]; [now destruct Hne|].
      apply IH. }
    apply bool_decide_eq_false_1 in Hempty.
    destruct (decide (hgetall key d <> ∅)) as [_|He]; [|now destruct He].
    destruct (last_heartbeat_of (hgetall key d)) as [t|e]; [|discriminate].
    destruct (recent_or_overdue (float_sub current_time t))
      as [(-> & -> & ->)|[(-> & -> & ->)|(-> & -> & ->)]];
      (destruct (decide (_ /\ _)) as [[_ Hnan]|Hnan];
       [try now destruct Hnan | try (destruct Hnan; now split)]);
      intros Ha Hd; specialize (IH _ _ _ _ Ha Hd);
      rewrite ?length_app in IH; cbn [length] in *; lia.
Qed.


(** [cleanup_dead_workers] removes only the records that the dictionaries
    it goes through name. *)
Lemma cleanup_loop_keeps (worker_id : string) (dead_workers : list (gmap string pyval)) :
  (forall w v, w ∈ dead_workers -> w !! "worker_id" = Some (PStr v) -> v <> worker_id) ->
  forall count d,
    hgetall (worker_key worker_id) (exec (cleanup_loop self dead_workers count) d)
    = hgetall (worker_key worker_id) d.
Proof.
  induction dead_workers as [|w rest IH]; intros Hother count d; [reflexivity|].
  assert (forall count d,
            hgetall (worker_key worker_id) (exec (cleanup_loop self rest count) d)
            = hgetall (worker_key worker_id) d) as IH'.
  { apply IH. intros w' v Hin. apply Hother. now apply list_elem_of_further. }
  cbn [cleanup_loop].
  destruct (w !! "worker_id") as [[| | |v| |]|] eqn:E; try apply IH'.
  destruct (negb (String.eqb v "")); [|apply IH'].
  rewrite exec_bind, IH'. unfold unregister_worker.
  rewrite exec_bind, exec_ret, hgetall_del.
  rewrite decide_False; [reflexivity|].
  intros H. apply worker_key_inj in H.
  now apply (Hother w v (list_elem_of_here _ _) E).
Qed.

(** It removes the record of every dictionary that has a [worker_id]. *)
Lemma cleanup_loop_removes (worker_id : string) (dead_workers : list (gmap string pyval)) :
  worker_id <> "" ->
  (exists w, w ∈ dead_workers /\ w !! "worker_id" = Some (PStr worker_id)) ->
  forall count d,
    hgetall (worker_key worker_id) (exec (cleanup_loop self dead_workers count) d) = ∅.
Proof.
  intros Hid.
  assert (forall l count d,
            hgetall (worker_key worker_id) d = ∅ ->
            hgetall (worker_key worker_id) (exec (cleanup_loop self l count) d) = ∅)
    as Hgone.
  { induction l as [|w l IH]; intros count d Hd; [exact Hd|].
    cbn [cleanup_loop].
    destruct (w !! "worker_id") as [[| | |v| |]|]; try now apply IH.
    destruct (negb (String.eqb v "")); [|now apply IH].
    rewrite exec_bind. apply IH. unfold unregister_worker.
    rewrite exec_bind, exec_ret, hgetall_del. now destruct (decide _). }
  induction dead_workers as [|w rest IH]; intros (w0 & Hin & Hw0) count d.
  { now apply elem_of_nil in Hin. }
  cbn [cleanup_loop].
  apply elem_of_cons in Hin as [<-|Hin].
  - rewrite Hw0. destruct (String.eqb_spec worker_id "") as [->|_]; [congruence|].
    cbn [negb]. rewrite exec_bind. apply Hgone. unfold unregister_worker.
    rewrite exec_bind, exec_ret, hgetall_del. now rewrite decide_True by reflexivity.
  - assert (forall count d,
              hgetall (worker_key worker_id) (exec (cleanup_loop self rest count) d) = ∅)
      as IH' by (apply IH; now exists w0).
    destruct (w !! "worker_id") as [[| | |v| |]|]; try apply IH'.
    destruct (negb (String.eqb v "")); [|apply IH'].
    rewrite exec_bind. apply IH'.
Qed.

End RegistryRecords.
(** The records of the sample registries. *)
Lemma hgetall_one_worker (key : string) :
  key <> WorkerRegistry.worker_key "worker-1" ->
  Redis.hgetall key Sample.one_worker = ∅.
Proof.
  intros Hne. unfold Sample.one_worker, Sample.register,
    WorkerRegistry.register_worker.
  cbn [fold_right fst snd].
  rewrite !exec_bind, exec_ret, !hgetall_hset.
  rewrite !decide_False by exact Hne.
  unfold Redis.hgetall, Redis.empty. cbn [Redis.hashes]. now rewrite lookup_empty.
Qed.

Lemma hgetall_with_ghost (key : string) :
  key <> WorkerRegistry.worker_key "worker-1" ->
  key <> WorkerRegistry.worker_key "ghost" ->
  Redis.hgetall key Sample.with_ghost = ∅.
Proof.
  intros Hne1 Hne2. unfold Sample.with_ghost, Sample.heartbeat,
    WorkerRegistry.send_heartbeat.
  rewrite exec_bind, exec_ret, hgetall_hset.
  rewrite decide_False by exact Hne2. now apply hgetall_one_worker.
Qed.


(** X9.  A heartbeat keeps a worker alive for [heartbeat_timeout] seconds.
    After a heartbeat sent at [now], whose text reads back as the float
    that was written, [get_worker_info] called at [current_time] returns
    the worker's record with two more entries: [time_since_heartbeat] is
    the time since the heartbeat rounded to two decimals, and [is_alive] is
    decided on the time before it is rounded: it is true exactly when that
    time is less than the timeout. *)
Theorem heartbeat_keeps_worker_alive_until_timeout str_float float_of_str float_sub
    round2 self worker_id now current_time d :
  WorkerRegistry.float float_of_str (WorkerRegistry.str_time str_float now)
    = Py.Return now ->
  let d' := Redis.exec (WorkerRegistry.send_heartbeat str_float self worker_id now) d in
  let time_since_heartbeat := float_sub current_time now in
  WorkerRegistry.get_worker_info float_of_str float_sub round2 self worker_id
    current_time d'
  = Py.Return
      (Some (<["is_alive" :=
                 Py.PBool (Py.num_lt time_since_heartbeat
                             (Py.Fin (inject_Z (WorkerRegistry.heartbeat_timeout self))))]>
               (<["time_since_heartbeat" := Py.PNum (round2 time_since_heartbeat)]>
                  (Py.PStr <$>
                     <["last_heartbeat" := WorkerRegistry.str_time str_float now]>
                       (Redis.hgetall (WorkerRegistry.worker_key worker_id) d))))).
Proof.
  intros Hread. cbv zeta. unfold WorkerRegistry.get_worker_info.
  assert (Redis.hgetall (WorkerRegistry.worker_key worker_id)
            (Redis.exec (WorkerRegistry.send_heartbeat str_float self worker_id now) d)
          = <["last_heartbeat" := WorkerRegistry.str_time str_float now]>
              (Redis.hgetall (WorkerRegistry.worker_key worker_id) d)) as ->.
  { unfold Redis.exec. rewrite send_heartbeat_unfold. cbn [snd].
    unfold Redis.hgetall at 1. cbn [Redis.hashes]. now rewrite lookup_insert_eq. }
  rewrite bool_decide_eq_false_2 by apply insert_non_empty.
  unfold WorkerRegistry.last_heartbeat_of.
  rewrite lookup_insert_eq, Hread. reflexivity.
Qed.

(** A heartbeat at second 95.25 and a look at second 125.24609375: the
    time since the heartbeat, 29.99609375, is less than the timeout of 30
    seconds, so the worker is alive, and the record shows 30.0 seconds. *)
Lemma heartbeat_keeps_worker_alive_until_timeout_witness :
  exists record,
    WorkerRegistry.get_worker_info Sample.float_of_str Sample.float_sub Sample.round2
      WorkerRegistry.default_registry "worker-1" (32063 # 256)
      (Redis.exec (Sample.heartbeat "worker-1" (9525 # 100)) Sample.one_worker)
    = Py.Return (Some record)
    /\ record !! "is_alive" = Some (Py.PBool true)
    /\ record !! "time_since_heartbeat" = Some (Py.PNum (3000 # 100)).
Proof.
  eexists. split.
  - apply (heartbeat_keeps_worker_alive_until_timeout Sample.str_float
             Sample.float_of_str Sample.float_sub Sample.round2
             WorkerRegistry.default_registry "worker-1" (9525 # 100) (32063 # 256)
             Sample.one_worker).
    vm_compute. reflexivity.
  - split; vm_compute; reflexivity.
Defined.

(** X10.  [unregister_worker] forgets the worker and no other: afterwards
    [get_worker_info] returns [None] for it, the records of the other
    workers are as before, and the call returns [True] when the worker had
    a record and [False] when nothing was stored under its key. *)
Theorem unregister_worker_forgets_the_worker float_of_str float_sub round2 self
    worker_id current_time d :
  let d' := Redis.exec (WorkerRegistry.unregister_worker self worker_id) d in
  WorkerRegistry.get_worker_info float_of_str float_sub round2 self worker_id
    current_time d' = Py.Return None
  /\ (forall other, other <> worker_id ->
        Redis.hgetall (WorkerRegistry.worker_key other) d'
        = Redis.hgetall (WorkerRegistry.worker_key other) d)
  /\ (Redis.hgetall (WorkerRegistry.worker_key worker_id) d <> ∅ ->
      Redis.reply (WorkerRegistry.unregister_worker self worker_id) d = true)
  /\ (Redis.hashes d !! WorkerRegistry.worker_key worker_id = None ->
      Redis.lrange_all (WorkerRegistry.worker_key worker_id) d = [] ->
      Redis.reply (WorkerRegistry.unregister_worker self worker_id) d = false).
Proof.
  cbv zeta. unfold WorkerRegistry.unregister_worker.
  rewrite exec_bind, exec_ret, reply_bind, reply_ret.
  split; [|split; [|split]].
  - unfold WorkerRegistry.get_worker_info.
    rewrite hgetall_del, decide_True by reflexivity.
    now rewrite bool_decide_eq_true_2 by reflexivity.
  - intros other Hne. rewrite hgetall_del.
    rewrite decide_False; [reflexivity|].
    intros H. now apply worker_key_inj in H.
  - intros Hne. unfold Redis.reply, Redis.del, Redis.hgetall in *. cbn [fst].
    destruct (Redis.hashes d !! WorkerRegistry.worker_key worker_id);
      [|now destruct Hne].
    destruct (bool_decide _); reflexivity.
  - intros Hh Hl. unfold Redis.reply, Redis.del. cbn [fst].
    rewrite Hh, Hl. reflexivity.
Qed.

(** X11.  [get_stats] scans the registry twice.  When every stored
    heartbeat reads as a float it returns, [total_registered] is the sum of
    [active] and [dead], and no record is counted more than twice.  When
    the two scans read the same time, a record is counted once, unless the
    time since its heartbeat is [nan] (a heartbeat stored as "nan"): it is
    then neither active nor dead and is not counted; so the total is the
    number of records when no time since a heartbeat is [nan]. *)
Theorem get_stats_counts_every_record float_of_str float_sub round2 self
    time_active time_dead d :
  (forall key s, Redis.hgetall key d !! "last_heartbeat" = Some s ->
                 exists t, WorkerRegistry.float float_of_str s = Py.Return t) ->
  let worker_keys := Redis.keys_prefix (WorkerRegistry.registry_key +:+ ":") d in
  let records := length (filter (fun key => Redis.hgetall key d <> ∅) worker_keys) in
  let unordered :=
    length (filter (fun key =>
                      Redis.hgetall key d <> ∅
                      /\ Is_true
                           match WorkerRegistry.last_heartbeat_of float_of_str
                                   (Redis.hgetall key d) with
                           | Py.Return t => Py.is_nan (float_sub time_active t)
                           | Py.Raise _ => false
                           end)
              worker_keys) in
  exists st,
    WorkerRegistry.get_stats float_of_str float_sub round2 self time_active time_dead d
    = Py.Return st
    /\ WorkerRegistry.total_registered st
       = (WorkerRegistry.active st + WorkerRegistry.dead st)%nat
    /\ WorkerRegistry.heartbeat_timeout_seconds st = WorkerRegistry.heartbeat_timeout self
    /\ (WorkerRegistry.active st <= records)%nat
    /\ (WorkerRegistry.dead st <= records)%nat
    /\ (time_active = time_dead ->
        (WorkerRegistry.total_registered st + unordered)%nat = records).
Proof.
  intros Hnum. cbv zeta. unfold WorkerRegistry.get_stats.
  destruct (scan_workers_collects float_of_str float_sub round2 self time_active d
              Hnum true (Redis.keys_prefix (WorkerRegistry.registry_key +:+ ":") d) [])
    as (wa & Ea & _).
  destruct (scan_workers_collects float_of_str float_sub round2 self time_dead d
              Hnum false (Redis.keys_prefix (WorkerRegistry.registry_key +:+ ":") d) [])
    as (wd & Ed & _).
  unfold WorkerRegistry.get_active_workers, WorkerRegistry.get_dead_workers.
  rewrite Ea, Ed. eexists. split; [reflexivity|]. cbn.
  split; [reflexivity|]. split; [reflexivity|].
  pose proof (scan_workers_length float_of_str float_sub round2 self _ _ _ _ _ _ Ea) as Ha.
  pose proof (scan_workers_length float_of_str float_sub round2 self _ _ _ _ _ _ Ed) as Hd.
  cbn [length] in Ha, Hd.
  split; [lia|]. split; [lia|].
  intros <-.
  pose proof (scan_workers_partition float_of_str float_sub round2 self time_active d
                _ _ _ _ _ Ea Ed) as H.
  cbn [length] in H. lia.
Qed.

(** The registry with one worker, at second 110.25: one record, counted
    once. *)
Lemma get_stats_counts_every_record_witness :
  exists st,
    WorkerRegistry.get_stats Sample.float_of_str Sample.float_sub Sample.round2
      WorkerRegistry.default_registry (11025 # 100) (11025 # 100) Sample.one_worker
    = Py.Return st
    /\ WorkerRegistry.total_registered st = 1%nat.
Proof.
  destruct (get_stats_counts_every_record Sample.float_of_str Sample.float_sub
              Sample.round2 WorkerRegistry.default_registry (11025 # 100) (11025 # 100)
              Sample.one_worker) as (st & Hst & _).
  { intros key s.
    destruct (decide (key = WorkerRegistry.worker_key "worker-1")) as [->|Hne].
    - vm_compute. intros [= <-]. now eexists.
    - rewrite hgetall_one_worker by exact Hne. discriminate. }
  exists st. split; [exact Hst|].
  vm_compute in Hst. injection Hst as <-. reflexivity.
Defined.

(** X12.  [cleanup_dead_workers] removes the records that have a
    [worker_id] field only.  In a registry where a record that has the
    field is stored under the key of the worker it names, a record without
    the field, as the one a heartbeat of an unregistered worker leaves, is
    still there after the call, however old its heartbeat. *)
Theorem cleanup_dead_workers_keeps_unnamed_records float_of_str float_sub round2 self
    current_time worker_id d :
  (forall w v, Redis.hgetall (WorkerRegistry.worker_key w) d !! "worker_id" = Some v ->
               v = w) ->
  Redis.hgetall (WorkerRegistry.worker_key worker_id) d !! "worker_id" = None ->
  Redis.hgetall (WorkerRegistry.worker_key worker_id)
    (Redis.exec (WorkerRegistry.cleanup_dead_workers float_of_str float_sub round2
                   self current_time) d)
  = Redis.hgetall (WorkerRegistry.worker_key worker_id) d.
Proof.
  intros Hnamed Hnone. unfold Redis.exec, WorkerRegistry.cleanup_dead_workers.
  destruct (WorkerRegistry.get_dead_workers float_of_str float_sub round2 self
              current_time d) as [dead|e] eqn:Ed;
    [|reflexivity].
  assert (forall w v, w ∈ dead -> w !! "worker_id" = Some (Py.PStr v) ->
                      v <> worker_id) as Hother.
  2: { pose proof (cleanup_loop_keeps self worker_id dead Hother 0 d) as Hkeep.
       unfold Redis.exec in Hkeep.
       now destruct (WorkerRegistry.cleanup_loop self dead 0 d) as [count d']. }
  intros w v Hw Hv ->.
  unfold WorkerRegistry.get_dead_workers in Ed.
  destruct (scan_workers_elements float_of_str float_sub round2 self false
              current_time d _ _ _ Ed w Hw)
    as [Hnil|(key & ts & Hkey & _ & ->)]; [now apply elem_of_nil in Hnil|].
  destruct (scanned_worker_key key d Hkey) as [w' ->].
  rewrite annotated_worker_id in Hv.
  destruct (Redis.hgetall (WorkerRegistry.worker_key w') d !! "worker_id") as [v|] eqn:E;
    [|discriminate].
  injection Hv as ->. pose proof (Hnamed _ _ E) as <-.
  rewrite Hnone in E. discriminate E.
Qed.

(** X13.  [cleanup_dead_workers] removes a registered worker whose last
    heartbeat is [heartbeat_timeout] seconds old or older: when every
    stored heartbeat reads as a float the call returns a count, and the
    record of the worker is gone. *)
Theorem cleanup_dead_workers_removes_dead_worker float_of_str float_sub round2 self
    current_time worker_id last_heartbeat d :
  (forall key s, Redis.hgetall key d !! "last_heartbeat" = Some s ->
                 exists t, WorkerRegistry.float float_of_str s = Py.Return t) ->
  worker_id <> "" ->
  Redis.hashes d !! WorkerRegistry.worker_key worker_id <> None ->
  Redis.hgetall (WorkerRegistry.worker_key worker_id) d !! "worker_id"
    = Some worker_id ->
  WorkerRegistry.last_heartbeat_of float_of_str
    (Redis.hgetall (WorkerRegistry.worker_key worker_id) d) = Py.Return last_heartbeat ->
  Py.num_le (Py.Fin (inject_Z (WorkerRegistry.heartbeat_timeout self)))
    (float_sub current_time last_heartbeat) = true ->
  let cleanup :=
    WorkerRegistry.cleanup_dead_workers float_of_str float_sub round2 self current_time in
  (exists count, Redis.reply cleanup d = Py.Return count)
  /\ Redis.hgetall (WorkerRegistry.worker_key worker_id) (Redis.exec cleanup d) = ∅
  /\ WorkerRegistry.get_worker_info float_of_str float_sub round2 self worker_id
       current_time (Redis.exec cleanup d)
     = Py.Return None.
Proof.
  intros Hnum Hid Hstored Hname Hhb Hold. cbv zeta.
  destruct (scan_workers_collects float_of_str float_sub round2 self current_time d
              Hnum false (Redis.keys_prefix (WorkerRegistry.registry_key +:+ ":") d) [])
    as (dead & Hdead & _ & Hin).
  assert (exists w, w ∈ dead /\ w !! "worker_id" = Some (Py.PStr worker_id))
    as Hfound.
  { eexists. split.
    - apply (Hin (WorkerRegistry.worker_key worker_id) last_heartbeat).
      + destruct (Redis.hashes d !! WorkerRegistry.worker_key worker_id) as [h|] eqn:E;
          [|now destruct Hstored].
        now apply (worker_key_scanned worker_id h).
      + intros E. rewrite E in Hname. discriminate Hname.
      + exact Hhb.
      + exact Hold.
    - now rewrite annotated_worker_id, Hname. }
  pose proof (cleanup_loop_removes self worker_id dead Hid Hfound 0 d) as Hgone.
  unfold Redis.reply, Redis.exec, WorkerRegistry.cleanup_dead_workers in *.
  unfold WorkerRegistry.get_dead_workers. rewrite Hdead.
  destruct (WorkerRegistry.cleanup_loop self dead 0 d) as [count d'].
  cbn [fst snd] in *. split; [now exists count|]. split; [exact Hgone|].
  unfold WorkerRegistry.get_worker_info. rewrite Hgone.
  now rewrite bool_decide_eq_true_2 by reflexivity.
Qed.

Lemma cleanup_dead_workers_keeps_unnamed_records_witness :
  Redis.hgetall (WorkerRegistry.worker_key "ghost")
    (Redis.exec (WorkerRegistry.cleanup_dead_workers Sample.float_of_str
                   Sample.float_sub Sample.round2 WorkerRegistry.default_registry
                   1000%Q) Sample.with_ghost)
  = {["last_heartbeat" := "100.25"]}.
Proof.
  rewrite (cleanup_dead_workers_keeps_unnamed_records Sample.float_of_str
             Sample.float_sub Sample.round2 WorkerRegistry.default_registry
             1000%Q "ghost" Sample.with_ghost).
  - vm_compute. reflexivity.
  - intros w v.
    destruct (decide (w = "worker-1")) as [->|Hw1].
    { vm_compute. now intros [= <-]. }
    destruct (decide (w = "ghost")) as [->|Hw2].
    { vm_compute. discriminate. }
    rewrite hgetall_with_ghost; [discriminate|..];
      intros E; apply worker_key_inj in E; congruence.
  - vm_compute. reflexivity.
Defined.

(** The worker registered at second 95.25 is removed by a cleanup at
    second 1000. *)
Lemma cleanup_dead_workers_removes_dead_worker_witness :
  Redis.hgetall (WorkerRegistry.worker_key "worker-1")
    (Redis.exec (WorkerRegistry.cleanup_dead_workers Sample.float_of_str
                   Sample.float_sub Sample.round2 WorkerRegistry.default_registry
                   1000%Q) Sample.one_worker)
  = ∅.
Proof.
  apply (cleanup_dead_workers_removes_dead_worker Sample.float_of_str
           Sample.float_sub Sample.round2 WorkerRegistry.default_registry 1000%Q
           "worker-1" (9525 # 100) Sample.one_worker).
  - intros key s.
    destruct (decide (key = WorkerRegistry.worker_key "worker-1")) as [->|Hne].
    + vm_compute. intros [= <-]. now eexists.
    + rewrite hgetall_one_worker by exact Hne. discriminate.
  - discriminate.
  - vm_compute. discriminate.
  - vm_compute. reflexivity.
  - vm_compute. reflexivity.
  - vm_compute. reflexivity.
Defined.

Section RegistryClear.
Import Py Redis WorkerRegistry.

Lemma hashes_del_many (k : string) (keys : list string) (d : db) :
  hashes (exec (del_many keys) d) !! k
  = if decide (k ∈ keys) then None else hashes d !! k.
Proof.
  revert d. induction keys as [|k' keys IH]; intros d; cbn [del_many].
  - rewrite exec_ret. now rewrite decide_False by apply not_elem_of_nil.
  - rewrite !exec_bind, exec_ret, IH.
    destruct (decide (k ∈ keys)) as [Hin|Hnin].
    + now rewrite decide_True by (now apply list_elem_of_further).
    + unfold exec, del. cbn [snd hashes].
      destruct (decide (k = k')) as [->|Hne].
      * rewrite decide_True by apply list_elem_of_here. apply lookup_delete_eq.
      * rewrite decide_False by (rewrite not_elem_of_cons; auto).
        now rewrite lookup_delete_ne by congruence.
Qed.

(** Once the keys found under a prefix are deleted, KEYS finds none. *)
Lemma keys_prefix_del_many (p : string) (d : db) :
  keys_prefix p (exec (del_many (keys_prefix p d)) d) = [].
Proof.
  apply elem_of_nil_inv. intros k Hk.
  apply elem_of_keys_prefix in Hk as [Hp Hk].
  rewrite hashes_del_many, lrange_del_many in Hk.
  destruct (decide (k ∈ keys_prefix p d)) as [Hin|Hnin].
  - destruct Hk as [[h Hh]|Hl]; [discriminate Hh|now apply Hl].
  - apply Hnin. apply elem_of_keys_prefix. auto.
Qed.

Lemma keys_prefix_clear (self : t) (d : db) :
  keys_prefix (registry_key +:+ ":") (exec (clear self) d) = [].
Proof.
  unfold exec, clear.
  destruct (keys_prefix (registry_key +:+ ":") d) as [|k ks] eqn:E; [exact E|].
  rewrite <- E.
  change (keys_prefix (registry_key +:+ ":")
            (exec (bind (del_many (keys_prefix (registry_key +:+ ":") d))
                     (fun _ => ret tt)) d) = []).
  rewrite exec_bind, exec_ret. apply keys_prefix_del_many.
Qed.

End RegistryClear.

(** X14.  After [clear] the registry is empty: no worker is reported active
    or dead at any time, and the statistics count no record. *)
Theorem clear_empties_the_registry float_of_str float_sub round2 self time_active
    time_dead d :
  let d' := Redis.exec (WorkerRegistry.clear self) d in
  WorkerRegistry.get_active_workers float_of_str float_sub round2 self time_active d'
  = Py.Return []
  /\ WorkerRegistry.get_dead_workers float_of_str float_sub round2 self time_dead d'
     = Py.Return []
  /\ WorkerRegistry.get_stats float_of_str float_sub round2 self time_active time_dead d'
     = Py.Return {| WorkerRegistry.total_registered := 0;
                    WorkerRegistry.active := 0;
                    WorkerRegistry.dead := 0;
                    WorkerRegistry.heartbeat_timeout_seconds :=
                      WorkerRegistry.heartbeat_timeout self |}.
Proof.
  cbv zeta.
  unfold WorkerRegistry.get_stats, WorkerRegistry.get_active_workers,
    WorkerRegistry.get_dead_workers.
  rewrite keys_prefix_clear. cbn. auto.
Qed.

(** ** The filter pipeline: editing, counters, intermediate images *)

Section PipelineEditing.
Import Py Filters FilterPipeline Composition.

Variable Image : Type.
Variable gaussian_blur : number -> Image -> outcome Image.
Variable enhance_brightness : number -> Image -> outcome Image.
Variable find_edges : Image -> outcome Image.
Variable convert_L : Image -> outcome Image.
Variable save_step : string -> nat -> string -> Image -> option exn.

Local Abbreviation loop self output_dir :=
  (FilterPipeline.loop Image gaussian_blur enhance_brightness find_edges
     convert_L save_step self output_dir).
Local Abbreviation apply_filter :=
  (FilterPipeline.apply_filter Image gaussian_blur enhance_brightness find_edges
     convert_L).

(** An entry is successful or failed. *)
Lemma length_with_status (l : list filter_stat) :
  (length (with_status success l) + length (with_status failed l))%nat = length l.
Proof.
  unfold with_status. induction l as [|e l IH]; [reflexivity|].
  rewrite !filter_cons.
  destruct (decide (step_status e = success)) as [E1|E1];
    destruct (decide (step_status e = failed)) as [E2|E2]; cbn [length]; try lia.
  - congruence.
  - destruct (step_status e); congruence.
Qed.

(** The number of entries a run of the loop records. *)
Lemma loop_entries_bound self output_dir rest i l :
  exists entries,
    filter_stats (loop self output_dir i rest l) = (filter_stats l ++ entries)%list
    /\ (length entries <= 2 * length rest)%nat
    /\ ((forall dir i n img, saving Image self output_dir = Some dir ->
                             save_step dir i n img = None) ->
        (length entries <= length rest)%nat
        /\ (stop_on_error self = false -> length entries = length rest)).
Proof.
  destruct (loop_cases Image gaussian_blur enhance_brightness find_edges convert_L
              save_step self output_dir
              (fun i rest image entries final =>
                 (length entries <= 2 * length rest)%nat
                 /\ ((forall dir i n img, saving Image self output_dir = Some dir ->
                                          save_step dir i n img = None) ->
                     (length entries <= length rest)%nat
                     /\ (stop_on_error self = false -> length entries = length rest))))
    with (rest := rest) (i := i) (l := l) as (entries & Hst & HP).
  - intros. cbn. split; [lia|]. intros _. split; [lia|reflexivity].
  - intros j f r image e _ Hstop. cbn [length]. split; [lia|].
    intros _. split; [lia|]. congruence.
  - intros j f r image e entries final _ _ [H1 H2]. cbn [length]. split; [lia|].
    intros Hs. destruct (H2 Hs) as [H3 H4]. split; [lia|]. intros Hgo. now rewrite H4.
  - intros j f r image image' entries final _ [H1 H2]. cbn [length]. split; [lia|].
    intros Hs. destruct (H2 Hs) as [H3 H4]. split; [lia|]. intros Hgo. now rewrite H4.
  - intros j f r image image' e _ _ (dir & Hd & He). cbn [length]. split; [lia|].
    intros Hs. rewrite (Hs _ _ _ _ Hd) in He. discriminate He.
  - intros j f r image image' e entries final _ _ (dir & Hd & He) [H1 H2].
    cbn [length]. split; [lia|].
    intros Hs. rewrite (Hs _ _ _ _ Hd) in He. discriminate He.
  - exists entries. auto.
Qed.

(** When no saving of an intermediate image raises, the run is the same
    as without saving. *)
Lemma loop_without_saving self output_dir :
  (forall dir i n img, saving Image self output_dir = Some dir ->
                       save_step dir i n img = None) ->
  forall rest i l,
    loop self output_dir i rest l = loop self None i rest l.
Proof.
  intros Hs. induction rest as [|f rest IH]; intros i l; [reflexivity|].
  cbn [FilterPipeline.loop saving].
  destruct (apply_filter f (result_image l)) as [image|e].
  - destruct (saving Image self output_dir) as [dir|] eqn:Hd; [|apply IH].
    rewrite (Hs dir _ _ _ eq_refl). apply IH.
  - destruct (stop_on_error self); [reflexivity|apply IH].
Qed.

Lemma length_with_status_cons (s : status) (e : filter_stat) (l : list filter_stat) :
  length (with_status s (e :: l))
  = ((if decide (step_status e = s) then 1 else 0) + length (with_status s l))%nat.
Proof.
  unfold with_status. rewrite filter_cons. now destruct (decide _).
Qed.

(** What a run of the loop adds to the statistics and to the counters. *)
Lemma loop_extends self output_dir rest : forall i l,
  exists later,
    filter_stats (loop self output_dir i rest l) = (filter_stats l ++ later)%list
    /\ successful_count (loop self output_dir i rest l)
       = (successful_count l + length (with_status success later))%nat
    /\ failed_count (loop self output_dir i rest l)
       = (failed_count l + length (with_status failed later))%nat.
Proof.
  induction rest as [|f rest IH]; intros i l.
  { exists []. rewrite app_nil_r. cbn. repeat split; lia. }
  cbn [FilterPipeline.loop].
  destruct (apply_filter f (result_image l)) as [image|e];
    [destruct (saving Image self output_dir) as [dir|];
     [destruct (save_step dir i (class_name f) image) as [e|];
      [destruct (stop_on_error self)|]|]
    |destruct (stop_on_error self)].
  all: try match goal with
    | |- context [FilterPipeline.loop _ _ _ _ _ _ _ _ ?j _ ?l'] =>
        destruct (IH j l') as (later & H1 & H2 & H3); rewrite H1, H2, H3
    end.
  all: cbn [filter_stats successful_count failed_count
            FilterPipeline.record_success FilterPipeline.record_failure].
  all: rewrite <- ?app_assoc; cbn [app]; eexists; (split; [reflexivity|]).
  all: rewrite !length_with_status_cons; cbn;
    repeat (destruct (decide _)); try congruence; lia.
Qed.

(** The loop over two lists of filters is the loop over the second after
    the loop over the first, when the first is gone through to its end:
    without [stop_on_error], or when nothing fails in it. *)
Lemma loop_app self output_dir before rest : forall i l,
  stop_on_error self = false
  \/ failed_count (loop self output_dir i before l) = 0%nat ->
  loop self output_dir i (before ++ rest) l
  = loop self output_dir (i + length before) rest (loop self output_dir i before l).
Proof.
  induction before as [|f before IH]; intros i l Hgo.
  { cbn. now rewrite Nat.add_0_r. }
  assert (forall l', stop_on_error self = false
                     \/ failed_count (loop self output_dir (S i) before l') = 0%nat ->
            loop self output_dir (S i) (before ++ rest) l'
            = loop self output_dir (i + length (f :: before)) rest
                (loop self output_dir (S i) before l')) as IH'.
  { intros l' H. rewrite (IH (S i) l' H). cbn [length]. f_equal. lia. }
  assert (forall e l',
            stop_on_error self = false
            \/ failed_count (if stop_on_error self
                             then record_failure Image i (class_name f) e l'
                             else loop self output_dir (S i) before
                                    (record_failure Image i (class_name f) e l'))
               = 0%nat ->
            (if stop_on_error self
             then record_failure Image i (class_name f) e l'
             else loop self output_dir (S i) (before ++ rest)
                    (record_failure Image i (class_name f) e l'))
            = loop self output_dir (i + length (f :: before)) rest
                (if stop_on_error self
                 then record_failure Image i (class_name f) e l'
                 else loop self output_dir (S i) before
                        (record_failure Image i (class_name f) e l'))) as Hexcept.
  { intros e l' H. destruct (stop_on_error self) eqn:Hstop.
    - destruct H as [H|H]; [discriminate H|]. cbn in H. discriminate H.
    - apply IH'. now left. }
  revert Hgo. cbn [FilterPipeline.loop app].
  destruct (apply_filter f (result_image l)) as [image|e]; [|apply Hexcept].
  destruct (saving Image self output_dir) as [dir|]; [|apply IH'].
  destruct (save_step dir i (class_name f) image) as [e|]; [apply Hexcept|apply IH'].
Qed.

End PipelineEditing.

(** X15.  The two counters of [apply] add up to the number of entries of
    the statistics, which is at most twice the number of filters; when no
    saving of an intermediate image raises there is at most one entry for
    each filter, and exactly one when [stop_on_error] is off.  A step whose
    image cannot be saved is counted twice, as successful and as failed,
    wherever it is in the pipeline: when the loop reaches the filter [f]
    after the filters [before] (it does without [stop_on_error], and with
    it when nothing failed before), [f] returns and saving its image
    raises, then the step adds its successful entry and its failed entry,
    one after the other, and one to each counter; with [stop_on_error], or
    at the last filter, nothing follows them. *)
Theorem apply_counts_the_entries (Image : Type)
    (gaussian_blur enhance_brightness : Py.number -> Image -> Py.outcome Image)
    (find_edges convert_L : Image -> Py.outcome Image)
    (save_step : string -> nat -> string -> Image -> option Py.exn)
    (self : FilterPipeline.t Image) (image : Image) (output_dir : option string) :
  let stats := snd (FilterPipeline.apply Image gaussian_blur enhance_brightness
                      find_edges convert_L save_step self image output_dir) in
  let entries := length (FilterPipeline.stat_filters stats) in
  (FilterPipeline.stat_successful stats + FilterPipeline.stat_failed stats)%nat
  = entries
  /\ FilterPipeline.total_filters stats = FilterPipeline.len Image self
  /\ (entries <= 2 * FilterPipeline.total_filters stats)%nat
  /\ ((forall dir i n img,
         FilterPipeline.saving Image self output_dir = Some dir ->
         save_step dir i n img = None) ->
      (entries <= FilterPipeline.total_filters stats)%nat
      /\ (FilterPipeline.stop_on_error self = false ->
          entries = FilterPipeline.total_filters stats))
  /\ (forall before f after image' e dir,
        FilterPipeline.filters self = (before ++ f :: after)%list ->
        let reached :=
          FilterPipeline.loop Image gaussian_blur enhance_brightness find_edges
            convert_L save_step self output_dir 0 before
            {| FilterPipeline.result_image := image;
               FilterPipeline.filter_stats := [];
               FilterPipeline.successful_count := 0;
               FilterPipeline.failed_count := 0 |} in
        FilterPipeline.stop_on_error self = false
        \/ FilterPipeline.failed_count reached = 0%nat ->
        Filters.apply Image gaussian_blur enhance_brightness find_edges convert_L
          f (FilterPipeline.result_image reached) = Py.Return image' ->
        FilterPipeline.saving Image self output_dir = Some dir ->
        save_step dir (length before) (Filters.class_name f) image' = Some e ->
        exists later,
          FilterPipeline.stat_filters stats
          = (FilterPipeline.filter_stats reached
             ++ [Composition.success_entry (length before) f;
                 Composition.failed_entry (length before) f e]
             ++ later)%list
          /\ FilterPipeline.stat_successful stats
             = S (FilterPipeline.successful_count reached
                  + length (Composition.with_status FilterPipeline.success later))
          /\ FilterPipeline.stat_failed stats
             = S (FilterPipeline.failed_count reached
                  + length (Composition.with_status FilterPipeline.failed later))
          /\ (FilterPipeline.stop_on_error self = true \/ after = [] -> later = [])).
Proof.
  cbv zeta. rewrite apply_unfold. cbv zeta. cbn [snd].
  cbn [FilterPipeline.stat_filters FilterPipeline.stat_successful
         FilterPipeline.stat_failed FilterPipeline.total_filters].
  set (start := {| FilterPipeline.result_image := image;
                   FilterPipeline.filter_stats := [];
                   FilterPipeline.successful_count := 0;
                   FilterPipeline.failed_count := 0 |}).
  assert (Composition.counts_agree start) as Hstart by (split; reflexivity).
  destruct (loop_counts_agree Image gaussian_blur enhance_brightness find_edges
              convert_L save_step self output_dir (FilterPipeline.filters self) 0
              start Hstart) as [Hs Hf].
  destruct (loop_entries_bound Image gaussian_blur enhance_brightness find_edges
              convert_L save_step self output_dir (FilterPipeline.filters self) 0%nat
              start) as (entries & Hst & Hb2 & Hb1).
  split; [rewrite Hs, Hf; apply length_with_status|].
  split; [reflexivity|].
  split; [rewrite Hst; exact Hb2|]. split; [rewrite Hst; exact Hb1|].
  clear Hs Hf entries Hst Hb2 Hb1.
  intros before f after image' e dir Hfs Hgo Happly Hdir Hsave.
  rewrite Hfs, loop_app by exact Hgo.
  cbn [FilterPipeline.loop Nat.add].
  unfold FilterPipeline.apply_filter. rewrite Happly, Hdir, Hsave.
  set (reached := FilterPipeline.loop Image gaussian_blur enhance_brightness
                    find_edges convert_L save_step self output_dir 0 before start).
  destruct (FilterPipeline.stop_on_error self) eqn:Hstop.
  - exists []. cbn. rewrite <- app_assoc. cbn. repeat split; lia.
  - destruct (loop_extends Image gaussian_blur enhance_brightness find_edges
                convert_L save_step self output_dir after (S (length before))
                (FilterPipeline.record_failure Image (length before)
                   (Filters.class_name f) e
                   (FilterPipeline.record_success Image (length before)
                      (Filters.class_name f) image' reached)))
      as (later & H1 & H2 & H3).
    destruct after as [|g after].
    + exists []. cbn. rewrite <- app_assoc. cbn. repeat split; lia.
    + exists later. rewrite H1, H2, H3. cbn. rewrite <- !app_assoc. cbn.
      repeat split; try lia. intros [H|H]; discriminate H.
Qed.

(** Grayscale, then a brightness filter whose image cannot be written:
    the second step has two entries. *)
Lemma apply_counts_the_entries_witness :
  let e := Py.Exn Py.LibraryError (Py.Msg "cannot write") in
  let save_step (dir : string) (i : nat) (n : string) (img : Sample.Image) :=
    if Nat.eqb i 1 then Some e else None in
  let stats :=
    snd (FilterPipeline.apply Sample.Image Sample.gaussian_blur
           Sample.enhance_brightness Sample.find_edges Sample.convert_L save_step
           {| FilterPipeline.filters := [Filters.Grayscale; Filters.Brightness 2];
              FilterPipeline.stop_on_error := false;
              FilterPipeline.save_intermediate := true |} 100 (Some "out")) in
  FilterPipeline.stat_filters stats
  = [Composition.success_entry 0 (Filters.Grayscale (Image := Sample.Image));
     Composition.success_entry 1 (Filters.Brightness (Image := Sample.Image) 2);
     Composition.failed_entry 1 (Filters.Brightness (Image := Sample.Image) 2) e]
  /\ FilterPipeline.stat_successful stats = 2%nat
  /\ FilterPipeline.stat_failed stats = 1%nat.
Proof.
  cbv zeta.
  destruct (proj2 (proj2 (proj2 (proj2
              (apply_counts_the_entries Sample.Image Sample.gaussian_blur
                 Sample.enhance_brightness Sample.find_edges Sample.convert_L
                 (fun dir i n img =>
                    if Nat.eqb i 1
                    then Some (Py.Exn Py.LibraryError (Py.Msg "cannot write"))
                    else None)
                 {| FilterPipeline.filters := [Filters.Grayscale; Filters.Brightness 2];
                    FilterPipeline.stop_on_error := false;
                    FilterPipeline.save_intermediate := true |} 100 (Some "out")))))
              [Filters.Grayscale] (Filters.Brightness 2) [] 200
              (Py.Exn Py.LibraryError (Py.Msg "cannot write")) "out"
              eq_refl (or_introl eq_refl) eq_refl eq_refl eq_refl)
    as (later & H1 & H2 & H3 & Hlast).
  rewrite H1, H2, H3, (Hlast (or_intror eq_refl)).
  vm_compute. auto.
Defined.

(** X16.  Saving the intermediate images only observes the run: when no
    saving raises, [apply] returns the same image and the same statistics
    as without an output directory. *)
Theorem saving_intermediate_images_changes_nothing (Image : Type)
    (gaussian_blur enhance_brightness : Py.number -> Image -> Py.outcome Image)
    (find_edges convert_L : Image -> Py.outcome Image)
    (save_step : string -> nat -> string -> Image -> option Py.exn)
    (self : FilterPipeline.t Image) (image : Image) (output_dir : option string) :
  (forall dir i n img,
     FilterPipeline.saving Image self output_dir = Some dir ->
     save_step dir i n img = None) ->
  FilterPipeline.apply Image gaussian_blur enhance_brightness find_edges convert_L
    save_step self image output_dir
  = FilterPipeline.apply Image gaussian_blur enhance_brightness find_edges convert_L
      save_step self image None.
Proof.
  intros Hs. unfold FilterPipeline.apply.
  now rewrite (loop_without_saving Image gaussian_blur enhance_brightness find_edges
                 convert_L save_step self output_dir Hs).
Qed.

Lemma saving_intermediate_images_changes_nothing_witness :
  FilterPipeline.apply Sample.Image Sample.gaussian_blur Sample.enhance_brightness
    Sample.find_edges Sample.convert_L Sample.save_step
    {| FilterPipeline.filters := [Filters.Grayscale; Filters.Brightness 2];
       FilterPipeline.stop_on_error := false;
       FilterPipeline.save_intermediate := true |} 100 (Some "out")
  = (Some 200,
     {| FilterPipeline.stat_filters :=
          [Composition.success_entry 0 (Filters.Grayscale (Image := Sample.Image));
           Composition.success_entry 1 (Filters.Brightness (Image := Sample.Image) 2)];
        FilterPipeline.stat_successful := 2;
        FilterPipeline.stat_failed := 0;
        FilterPipeline.total_filters := 2 |}).
Proof.
  rewrite saving_intermediate_images_changes_nothing by reflexivity.
  vm_compute. reflexivity.
Defined.

(** X17.  [remove_filter] accepts the indices from 0 to the length less
    one, and no negative index: in that range it returns the filter at the
    index and leaves the other filters in their order, one fewer; outside
    it raises [IndexError] and leaves the pipeline as it is. *)
Theorem remove_filter_checks_the_index (Image : Type) (index : Z)
    (self : FilterPipeline.t Image) :
  (0 <= index < Z.of_nat (FilterPipeline.len Image self) ->
   exists removed,
     FilterPipeline.filters self !! Z.to_nat index = Some removed
     /\ fst (FilterPipeline.remove_filter Image index self)
        = FilterPipeline.Removed Image removed
     /\ FilterPipeline.get_filter_names Image
          (snd (FilterPipeline.remove_filter Image index self))
        = delete (Z.to_nat index) (FilterPipeline.get_filter_names Image self)
     /\ S (FilterPipeline.len Image (snd (FilterPipeline.remove_filter Image index self)))
        = FilterPipeline.len Image self)
  /\ (~ 0 <= index < Z.of_nat (FilterPipeline.len Image self) ->
      FilterPipeline.remove_filter Image index self
      = (FilterPipeline.IndexError Image index (FilterPipeline.len Image self), self)).
Proof.
  unfold FilterPipeline.remove_filter, FilterPipeline.len,
    FilterPipeline.get_filter_names.
  split.
  - intros [H0 H1].
    assert (Z.to_nat index < length (FilterPipeline.filters self))%nat as Hlt by lia.
    destruct (lookup_lt_is_Some_2 _ _ Hlt) as [f Hf].
    exists f. split; [exact Hf|].
    rewrite (proj2 (Z.leb_le 0 index) H0), (proj2 (Z.ltb_lt _ _) H1), Hf.
    cbn [andb fst snd FilterPipeline.filters].
    split; [reflexivity|]. split.
    + apply list_fmap_delete.
    + rewrite length_delete by (now exists f). lia.
  - intros Hout.
    destruct (0 <=? index)%Z eqn:E0; [|reflexivity].
    destruct (index <? Z.of_nat (length (FilterPipeline.filters self)))%Z eqn:E1;
      [|reflexivity].
    apply Z.leb_le in E0. apply Z.ltb_lt in E1. lia.
Qed.

(** X18.  [add_filter] puts the filter at the end, and [remove_filter] at
    the index of the last filter takes it back: the pipeline is as
    before. *)
Theorem add_filter_then_remove_filter (Image : Type) (f : Filters.BaseFilter Image)
    (self : FilterPipeline.t Image) :
  FilterPipeline.get_filter_names Image (FilterPipeline.add_filter Image f self)
  = (FilterPipeline.get_filter_names Image self ++ [Filters.class_name f])%list
  /\ FilterPipeline.remove_filter Image (Z.of_nat (FilterPipeline.len Image self))
       (FilterPipeline.add_filter Image f self)
     = (FilterPipeline.Removed Image f, self).
Proof.
  destruct self as [fs stop save].
  unfold FilterPipeline.get_filter_names, FilterPipeline.add_filter,
    FilterPipeline.remove_filter, FilterPipeline.len.
  cbn [FilterPipeline.filters FilterPipeline.stop_on_error
         FilterPipeline.save_intermediate].
  split; [now rewrite fmap_app|].
  rewrite length_app. cbn [length].
  rewrite (proj2 (Z.leb_le 0 _)) by lia.
  rewrite (proj2 (Z.ltb_lt _ _)) by lia.
  rewrite Nat2Z.id. cbn [andb].
  rewrite lookup_app_r, Nat.sub_diag by lia. cbn [lookup list_lookup].
  do 2 f_equal.
  induction fs as [|g fs IH]; [reflexivity|].
  change (g :: delete (length fs) (fs ++ [f])%list = g :: fs). now f_equal.
Qed.

(** X19.  The constructor refuses an empty list of filters, but
    [remove_filter] does not keep a filter back: removing the only filter
    of a pipeline leaves a pipeline without filters, on which [apply]
    returns [None] with empty statistics for every image. *)
Theorem remove_filter_can_empty_the_pipeline (Image : Type)
    (gaussian_blur enhance_brightness : Py.number -> Image -> Py.outcome Image)
    (find_edges convert_L : Image -> Py.outcome Image)
    (save_step : string -> nat -> string -> Image -> option Py.exn)
    (f : Filters.BaseFilter Image) (stop_on_error save_intermediate : bool)
    (image : Image) (output_dir : option string) :
  FilterPipeline.init (Image := Image) [] stop_on_error save_intermediate
  = Py.Raise (Py.Exn Py.ValueError Py.Msg_empty_pipeline)
  /\ exists pipeline,
       FilterPipeline.init [f] stop_on_error save_intermediate = Py.Return pipeline
       /\ fst (FilterPipeline.remove_filter Image 0 pipeline)
          = FilterPipeline.Removed Image f
       /\ FilterPipeline.len Image (snd (FilterPipeline.remove_filter Image 0 pipeline))
          = 0%nat
       /\ FilterPipeline.apply Image gaussian_blur enhance_brightness find_edges
            convert_L save_step (snd (FilterPipeline.remove_filter Image 0 pipeline))
            image output_dir
          = (None, {| FilterPipeline.stat_filters := [];
                      FilterPipeline.stat_successful := 0;
                      FilterPipeline.stat_failed := 0;
                      FilterPipeline.total_filters := 0 |}).
Proof.
  split; [reflexivity|]. eexists. split; [reflexivity|]. repeat split.
Qed.

(** ** The filter factory: names, registration, descriptors *)

Section FactoryNames.
Import Py Filters FilterFactory.

Variable Image : Type.

Lemma registry_get_dict_set (k name : string) (c : filter_class Image)
    (registry : list (string * filter_class Image)) :
  registry_get Image k (WorkerRegistry.dict_set name c registry)
  = if String.eqb name k then Some c else registry_get Image k registry.
Proof.
  induction registry as [|[k' c'] registry IH]; cbn.
  - reflexivity.
  - destruct (String.eqb_spec k' name) as [->|Hne]; cbn.
    + now destruct (String.eqb name k).
    + rewrite IH. destruct (String.eqb_spec k' k) as [->|_]; [|reflexivity].
      destruct (String.eqb_spec name k) as [->|_]; [congruence|reflexivity].
Qed.

Lemma registry_get_in (k : string) (registry : list (string * filter_class Image)) :
  k ∈ get_available_filters Image registry <->
  registry_get Image k registry <> None.
Proof.
  unfold get_available_filters.
  induction registry as [|[k' c'] registry IH]; cbn.
  - split; [intros H; now apply elem_of_nil in H|congruence].
  - rewrite elem_of_cons, IH.
    destruct (String.eqb_spec k' k) as [->|Hne].
    + split; [discriminate|auto].
    + split; [intros [->|H]; [congruence|exact H]|auto].
Qed.

Lemma dict_set_keys (name : string) (c : filter_class Image)
    (registry : list (string * filter_class Image)) :
  (WorkerRegistry.dict_set name c registry).*1
  = if decide (name ∈ registry.*1) then registry.*1
    else (registry.*1 ++ [name])%list.
Proof.
  induction registry as [|[k' c'] registry IH]; cbn.
  - now rewrite decide_False by apply not_elem_of_nil.
  - destruct (String.eqb_spec k' name) as [->|Hne]; cbn.
    + now rewrite decide_True by apply list_elem_of_here.
    + rewrite IH. destruct (decide (name ∈ registry.*1)) as [Hin|Hnin].
      * now rewrite decide_True by (now apply list_elem_of_further).
      * rewrite decide_False; [reflexivity|].
        rewrite not_elem_of_cons. split; [congruence|exact Hnin].
Qed.

(** The loop of [create_pipeline] stops at the first descriptor that
    cannot be created. *)
Lemma create_filters_first_failure registry pre :
  forall fs i acc bad post e,
    Forall2 (fun config f => create_from_config Image registry config = Return f)
      pre fs ->
    create_from_config Image registry bad = Raise e ->
    create_filters Image registry i (pre ++ bad :: post) acc
    = Raise (Exn ValueError
               (Msg_pipeline_item (i + length pre)
                  (default (PStr "unknown") (dict_get "type" bad)) (exn_str e))).
Proof.
  induction pre as [|config pre IH]; intros fs i acc bad post e Hpre Hbad.
  - cbn. rewrite Hbad. now rewrite Nat.add_0_r.
  - apply Forall2_cons_inv_l in Hpre as (f & fs' & Hf & Hfs & ->).
    cbn. rewrite Hf, (IH fs' (S i) _ bad post e Hfs Hbad).
    do 3 f_equal. lia.
Qed.

End FactoryNames.

(** X20.  [create] looks the filter type up without regard to case: two
    names that differ only in the case of their letters give the same
    filter when one of them gives a filter. *)
Theorem create_ignores_the_case_of_the_name (Image : Type)
    (registry : list (string * FilterFactory.filter_class Image))
    (name1 name2 : string) (kwargs : FilterFactory.dict) (f : Filters.BaseFilter Image) :
  Py.lower name1 = Py.lower name2 ->
  FilterFactory.create Image registry name1 kwargs = Py.Return f ->
  FilterFactory.create Image registry name2 kwargs = Py.Return f.
Proof.
  unfold FilterFactory.create. intros ->.
  destruct (FilterFactory.bound_twice kwargs); [discriminate|].
  destruct (FilterFactory.registry_get Image (Py.lower name2) registry) as [c|];
    [|discriminate].
  destruct (c kwargs) as [g|[[] m]]; try discriminate; auto.
Qed.

Lemma create_ignores_the_case_of_the_name_witness :
  FilterFactory.create Sample.Image (FilterFactory._FILTER_REGISTRY Sample.Image)
    "BLUR" [("radius", Py.PNum 3)]
  = Py.Return (Filters.Blur 3).
Proof.
  apply (create_ignores_the_case_of_the_name Sample.Image _ "Blur" "BLUR");
    reflexivity.
Defined.

(** X21.  [register_filter] accepts a subclass of [BaseFilter] only: for
    another class, and for an object that is no class, it raises
    [TypeError] and registers nothing.  It stores a subclass under the
    lower-case name (here for a name of ASCII characters; the lower case of
    other letters is not modelled).  Afterwards [create] with that name, in
    any case of its letters, calls the class with the keyword arguments and
    returns what it returns, a [TypeError] of the class coming out as the
    [TypeError] of [create]; a keyword named [self] or [filter_type] makes
    the call of [create] raise [TypeError] before the class is called.  The
    classes under the other names are as before, and the name is listed
    once among the available filters, at the end when it is new; a name in
    use, as "blur", is taken over by the new class. *)
Theorem register_filter_then_create (Image : Type)
    (registry : list (string * FilterFactory.filter_class Image))
    (name : string) (cls : FilterFactory.class_object Image) :
  forallb (fun a => Nat.ltb (nat_of_ascii a) 128) (list_ascii_of_string name) = true ->
  match cls with
  | FilterFactory.NotAClass _ =>
      FilterFactory.register_filter Image name cls registry
      = Py.Raise (Py.Exn Py.TypeError Py.Msg_not_a_class)
  | FilterFactory.OtherClass _ repr =>
      FilterFactory.register_filter Image name cls registry
      = Py.Raise (Py.Exn Py.TypeError (Py.Msg_not_subclass repr))
  | FilterFactory.Subclass _ c =>
      exists registry',
        FilterFactory.register_filter Image name cls registry = Py.Return registry'
        /\ (forall name' kwargs,
              Py.lower name' = Py.lower name ->
              FilterFactory.create Image registry' name' kwargs
              = match FilterFactory.bound_twice kwargs with
                | Some argument =>
                    Py.Raise (Py.Exn Py.TypeError
                                (Py.Msg_multiple_values "create" argument))
                | None =>
                    match c kwargs with
                    | Py.Raise (Py.Exn Py.TypeError e) =>
                        Py.Raise (Py.Exn Py.TypeError (Py.Msg_create name' kwargs e))
                    | o => o
                    end
                end)
        /\ (forall key, key <> Py.lower name ->
              FilterFactory.registry_get Image key registry'
              = FilterFactory.registry_get Image key registry)
        /\ FilterFactory.get_available_filters Image registry'
           = (if decide (Py.lower name
                           ∈ FilterFactory.get_available_filters Image registry)
              then FilterFactory.get_available_filters Image registry
              else (FilterFactory.get_available_filters Image registry
                    ++ [Py.lower name])%list)
  end.
Proof.
  intros _. destruct cls as [c|repr|]; [|reflexivity|reflexivity].
  eexists. split; [reflexivity|]. split; [|split].
  - intros name' kwargs Hname. unfold FilterFactory.create.
    rewrite Hname, registry_get_dict_set, String.eqb_refl. reflexivity.
  - intros key Hne. rewrite registry_get_dict_set.
    destruct (String.eqb_spec (Py.lower name) key) as [E|_];
      [congruence|reflexivity].
  - apply dict_set_keys.
Qed.

(** A class registered as "Rotate90" is the one [create] calls for
    "ROTATE90". *)
Lemma register_filter_then_create_witness :
  exists registry',
    FilterFactory.register_filter Sample.Image "Rotate90"
      (FilterFactory.Subclass Sample.Image (fun _ => Py.Return Sample.Failing))
      (FilterFactory._FILTER_REGISTRY Sample.Image)
    = Py.Return registry'
    /\ FilterFactory.create Sample.Image registry' "ROTATE90" []
       = Py.Return Sample.Failing
    /\ FilterFactory.get_available_filters Sample.Image registry'
       = ["blur"; "brightness"; "edges"; "grayscale"; "gray"; "rotate90"].
Proof.
  destruct (register_filter_then_create Sample.Image
              (FilterFactory._FILTER_REGISTRY Sample.Image) "Rotate90"
              (FilterFactory.Subclass Sample.Image (fun _ => Py.Return Sample.Failing))
              eq_refl)
    as (registry' & Hreg & Hcreate & _ & Hnames).
  exists registry'. split; [exact Hreg|]. split.
  - now rewrite (Hcreate "ROTATE90" [] eq_refl).
  - rewrite Hnames. vm_compute. reflexivity.
Defined.

(** X22.  [create_pipeline] reports the first descriptor that cannot be
    created: when the descriptors before it are valid, it raises
    [ValueError] with the index of that descriptor, its [type] (or
    "unknown") and the text of the exception, and builds no pipeline. *)
Theorem create_pipeline_reports_the_first_invalid_descriptor (Image : Type)
    (registry : list (string * FilterFactory.filter_class Image))
    (pre post : list FilterFactory.dict) (bad : FilterFactory.dict)
    (fs : list (Filters.BaseFilter Image)) (e : Py.exn)
    (stop_on_error save_intermediate : bool) :
  Forall2 (fun config f =>
             FilterFactory.create_from_config Image registry config = Py.Return f)
    pre fs ->
  FilterFactory.create_from_config Image registry bad = Py.Raise e ->
  FilterFactory.create_pipeline Image registry (pre ++ bad :: post) stop_on_error
    save_intermediate
  = Py.Raise
      (Py.Exn Py.ValueError
         (Py.Msg_pipeline_item (length pre)
            (default (Py.PStr "unknown") (FilterFactory.dict_get "type" bad))
            (Py.exn_str e))).
Proof.
  intros Hpre Hbad. unfold FilterFactory.create_pipeline.
  now rewrite (create_filters_first_failure Image registry pre fs 0 [] bad post e
                 Hpre Hbad).
Qed.

Lemma create_pipeline_reports_the_first_invalid_descriptor_witness :
  FilterFactory.create_pipeline Sample.Image
    (FilterFactory._FILTER_REGISTRY Sample.Image)
    ([[("type", Py.PStr "grayscale")]]
     ++ [("type", Py.PStr "blur"); ("radius", Py.PNum (-1))]
        :: [[("type", Py.PStr "edges")]])
    true false
  = Py.Raise
      (Py.Exn Py.ValueError
         (Py.Msg_pipeline_item 1 (Py.PStr "blur") (Py.Msg_radius (-1)))).
Proof.
  refine (create_pipeline_reports_the_first_invalid_descriptor Sample.Image
            (FilterFactory._FILTER_REGISTRY Sample.Image)
            [[("type", Py.PStr "grayscale")]] [[("type", Py.PStr "edges")]]
            [("type", Py.PStr "blur"); ("radius", Py.PNum (-1))]
            [Filters.Grayscale] (Py.Exn Py.ValueError (Py.Msg_radius (-1)))
            true false _ _).
  - repeat constructor.
  - reflexivity.
Defined.

(** X23.  The edges and grayscale filters take no parameters: with the
    classes of the package, [create] returns such a filter exactly when no
    keyword argument is passed, and raises [TypeError] otherwise. *)
Theorem filters_without_parameters_take_none (Image : Type)
    (name : string) (kwargs : FilterFactory.dict) :
  Py.lower name ∈ ["edges"; "grayscale"; "gray"] ->
  (kwargs = [] ->
   FilterFactory.create Image (FilterFactory._FILTER_REGISTRY Image) name kwargs
   = Py.Return (if String.eqb (Py.lower name) "edges"
                then Filters.Edges else Filters.Grayscale))
  /\ (kwargs <> [] ->
      exists m,
        FilterFactory.create Image (FilterFactory._FILTER_REGISTRY Image) name kwargs
        = Py.Raise (Py.Exn Py.TypeError m)).
Proof.
  intros Hname. unfold FilterFactory.create.
  assert (forall kw : FilterFactory.dict, kw <> [] ->
            exists k, FilterFactory.unexpected_kwarg [] kw = Some k) as Hkw.
  { intros [|[k v] kw] Hne; [now destruct Hne|]. now exists k. }
  rewrite !elem_of_cons in Hname.
  destruct Hname as [->|[->|[->|Hnil]]]; [| | |now apply elem_of_nil in Hnil];
    cbn [FilterFactory.registry_get FilterFactory._FILTER_REGISTRY String.eqb
           Ascii.eqb Bool.eqb]; (split; [intros ->; reflexivity|]);
    intros Hne; (destruct (FilterFactory.bound_twice kwargs);
                 [eexists; reflexivity|]);
    destruct (Hkw kwargs Hne) as [k Hk];
    unfold FilterFactory.EdgesFilter, FilterFactory.GrayscaleFilter;
    rewrite Hk; eexists; reflexivity.
Qed.

Lemma filters_without_parameters_take_none_witness :
  FilterFactory.create Sample.Image (FilterFactory._FILTER_REGISTRY Sample.Image)
    "Gray" []
  = Py.Return Filters.Grayscale.
Proof.
  apply (filters_without_parameters_take_none Sample.Image "Gray" []).
  - vm_compute. set_solver.
  - reflexivity.
Defined.

(** ** The batch processor *)

Section StringOrder.
Import BatchProcessor.

Lemma ascii_compare_N (a b : ascii) :
  Ascii.compare a b = N.compare (N_of_ascii a) (N_of_ascii b).
Proof. reflexivity. Qed.

Lemma string_compare_trans_le (s1 : string) : forall s2 s3,
  String.compare s1 s2 <> Gt -> String.compare s2 s3 <> Gt ->
  String.compare s1 s3 <> Gt.
Proof.
  induction s1 as [|c1 s1 IH]; intros [|c2 s2] [|c3 s3]; cbn; try congruence.
  rewrite !ascii_compare_N.
  destruct (N.compare_spec (N_of_ascii c1) (N_of_ascii c2)) as [E12|L12|G12];
    destruct (N.compare_spec (N_of_ascii c2) (N_of_ascii c3)) as [E23|L23|G23];
    try congruence; intros H12 H23.
  - rewrite E12, E23, N.compare_refl. now apply (IH s2 s3).
  - rewrite E12. now rewrite (proj2 (N.compare_lt_iff _ _) L23).
  - rewrite <- E23. now rewrite (proj2 (N.compare_lt_iff _ _) L12).
  - now rewrite (proj2 (N.compare_lt_iff _ _) (N.lt_trans _ _ _ L12 L23)).
Qed.

Lemma leb_not_Gt (a b : string) : String.leb a b = true <-> String.compare a b <> Gt.
Proof. unfold String.leb. destruct (String.compare a b); split; congruence. Qed.

#[local] Instance str_le_total : Total str_le.
Proof. intros a b. apply String.leb_total. Qed.

#[local] Instance str_le_trans : Transitive str_le.
Proof.
  intros a b c. unfold str_le. rewrite !leb_not_Gt. apply string_compare_trans_le.
Qed.

(** [sorted] gives the same strings, each as often, in ascending order. *)
Lemma sorted_spec (l : list string) :
  StronglySorted str_le (sorted l) /\ sorted l ≡ₚ l.
Proof.
  split; [apply StronglySorted_merge_sort; apply _|apply merge_sort_Permutation].
Qed.

End StringOrder.

Section BatchFacts.
Import Py Filters BatchProcessor.

Variable Image : Type.
Variable gaussian_blur : number -> Image -> outcome Image.
Variable enhance_brightness : number -> Image -> outcome Image.
Variable find_edges : Image -> outcome Image.
Variable convert_L : Image -> outcome Image.
Variable save_step : string -> nat -> string -> Image -> option exn.
Variable world : Type.
Variable listdir : string -> world -> outcome (list string).
Variable walk : string -> world -> list (string * list string).
Variable open_image : string -> world -> outcome Image.
Variable size : Image -> Z * Z.
Variable relpath : string -> string -> outcome string.
Variable makedirs_dirname : string -> world -> option exn * world.
Variable save : string -> Image -> world -> option exn * world.

Local Abbreviation process_image :=
  (BatchProcessor.process_image Image gaussian_blur enhance_brightness find_edges
     convert_L save_step world open_image size relpath makedirs_dirname save).
Local Abbreviation process_loop :=
  (BatchProcessor.process_loop Image gaussian_blur enhance_brightness find_edges
     convert_L save_step world open_image size relpath makedirs_dirname save).

Lemma elem_of_images_in (root : string) (files : list string) (p : string) :
  p ∈ images_in root files <->
  exists file, file ∈ files /\ is_image file = true /\ p = path_join root file.
Proof.
  unfold images_in. rewrite list_elem_of_fmap. split.
  - intros (file & -> & Hin). apply list_elem_of_filter in Hin as [Himg Hin].
    now exists file.
  - intros (file & Hin & Himg & ->). exists file. split; [reflexivity|].
    now apply list_elem_of_filter.
Qed.

(** The result of [process_image] is about the path it was given, and
    where it is a success the output path is the one the code computes. *)
Lemma process_image_result (self : t Image) (path : string) (w : world) :
  input_path (process_image self path w).1 = path
  /\ forall p out sz st,
       (process_image self path w).1 = Processed p out sz st ->
       exists relative_path,
         relpath path (input_dir self) = Return relative_path
         /\ out = if preserve_structure self
                  then path_join (output_dir self) relative_path
                  else path_join (output_dir self) (basename path).
Proof.
  unfold BatchProcessor.process_image.
  destruct (open_image path w) as [image|e]; [|split; [reflexivity|discriminate]].
  destruct (FilterPipeline.apply _ _ _ _ _ _ _ _ _) as [[result|] stats];
    [|split; [reflexivity|discriminate]].
  destruct (relpath path (input_dir self)) as [relative_path|e];
    [|split; [reflexivity|discriminate]].
  destruct (preserve_structure self).
  - destruct (makedirs_dirname _ w) as [[e|] w1]; [split; [reflexivity|discriminate]|].
    destruct (save _ result w1) as [[e|] w2]; [split; [reflexivity|discriminate]|].
    split; [reflexivity|]. intros p out sz st [= _ <- _ _]. now exists relative_path.
  - destruct (save _ result w) as [[e|] w2]; [split; [reflexivity|discriminate]|].
    split; [reflexivity|]. intros p out sz st [= _ <- _ _]. now exists relative_path.
Qed.

(** The loop of [process_all] appends one result for each image, in
    order, and counts the successes and the failures. *)
Lemma process_loop_results (self : t Image) (images : list string) :
  forall w results successful failed,
  exists new,
    (process_loop self images w results successful failed).1.1.1
      = (results ++ new)%list
    /\ input_path <$> new = images
    /\ (process_loop self images w results successful failed).1.1.2
       = (successful + length (filter (fun r => is_success r = true) new))%nat
    /\ (process_loop self images w results successful failed).1.2
       = (failed + length (filter (fun r => is_success r = false) new))%nat.
Proof.
  induction images as [|path images IH]; intros w results successful failed.
  { exists []. cbn. rewrite app_nil_r. repeat split; lia. }
  cbn [BatchProcessor.process_loop].
  pose proof (proj1 (process_image_result self path w)) as Hpath.
  destruct (process_image self path w) as [result w1]. cbn [fst] in Hpath.
  destruct (is_success result) eqn:Hs.
  - destruct (IH w1 (results ++ [result])%list (S successful) failed)
      as (new & H1 & H2 & H3 & H4).
    exists (result :: new). rewrite H1, H3, H4, <- app_assoc.
    split; [reflexivity|]. split; [cbn; now rewrite Hpath, H2|].
    rewrite !filter_cons, Hs.
    rewrite decide_True by reflexivity. rewrite decide_False by discriminate.
    cbn [length]. split; lia.
  - destruct (IH w1 (results ++ [result])%list successful (S failed))
      as (new & H1 & H2 & H3 & H4).
    exists (result :: new). rewrite H1, H3, H4, <- app_assoc.
    split; [reflexivity|]. split; [cbn; now rewrite Hpath, H2|].
    rewrite !filter_cons, Hs.
    rewrite decide_False by discriminate. rewrite decide_True by reflexivity.
    cbn [length]. split; lia.
Qed.

Lemma length_success_failure (l : list result) :
  (length (filter (fun r => is_success r = true) l)
   + length (filter (fun r => is_success r = false) l))%nat = length l.
Proof.
  induction l as [|r l IH]; [reflexivity|].
  rewrite !filter_cons. destruct (is_success r).
  - rewrite decide_True by reflexivity. rewrite decide_False by discriminate.
    cbn [length]. lia.
  - rewrite decide_False by discriminate. rewrite decide_True by reflexivity.
    cbn [length]. lia.
Qed.

End BatchFacts.

Section Paths.
Import BatchProcessor.

(** A name without a slash is its own base name. *)
Lemma basename_from_plain (file : string) : forall tail,
  (forall k, String.get k file <> Some "/"%char) ->
  basename_from tail file = tail.
Proof.
  induction file as [|c file IH]; intros tail Hplain; [reflexivity|].
  cbn [basename_from].
  destruct (Ascii.eqb_spec c "/") as [->|_].
  - now destruct (Hplain 0%nat).
  - apply IH. intros k. apply (Hplain (S k)).
Qed.

(** The base name of what follows a slash. *)
Lemma basename_from_slash (s r : string) : forall tail,
  basename_from tail (s +:+ String "/" r) = basename_from r r.
Proof.
  induction s as [|c s IH]; intros tail; simpl.
  - reflexivity.
  - destruct (Ascii.eqb c "/"); apply IH.
Qed.

Lemma endswith_slash (a : string) :
  endswith a "/" = true -> exists s, a = s +:+ "/".
Proof.
  unfold endswith. cbn [String.length].
  induction a as [|c a IH]; [discriminate|].
  destruct a as [|c' a].
  - cbn. destruct (Ascii.eqb_spec c "/") as [->|_]; [|discriminate].
    intros _. now exists "".
  - intros H. destruct IH as [s Hs].
    + cbn [String.length Nat.leb andb Nat.sub] in *.
      rewrite Nat.sub_0_r in *. exact H.
    + exists (String c s). rewrite Hs. reflexivity.
Qed.

Lemma append_String (s : string) (c : ascii) (r : string) :
  s +:+ String c r = (s +:+ String c "") +:+ r.
Proof.
  induction s as [|a s IH]; [reflexivity|].
  change (String a (s +:+ String c r) = String a ((s +:+ String c "") +:+ r)).
  now rewrite IH.
Qed.

(** The base name of a file joined to a directory is the file. *)
Lemma basename_path_join (root file : string) :
  (forall k, String.get k file <> Some "/"%char) ->
  basename (path_join root file) = file.
Proof.
  intros Hplain. unfold basename, path_join.
  assert (String.prefix "/" file = false) as ->.
  { destruct file as [|c file]; [reflexivity|].
    change (String.prefix "/" (String c file))
      with (if ascii_dec "/" c then String.prefix "" file else false).
    destruct (ascii_dec "/" c) as [<-|_]; [now destruct (Hplain 0%nat)|reflexivity]. }
  destruct (String.eqb_spec root "") as [->|Hne]; cbn [orb].
  { cbn. now apply basename_from_plain. }
  destruct (endswith root "/") eqn:E.
  - apply endswith_slash in E as [s ->].
    rewrite <- append_String, basename_from_slash. now apply basename_from_plain.
  - change ("/" +:+ file) with (String "/" file).
    rewrite basename_from_slash. now apply basename_from_plain.
Qed.

End Paths.

(** X24.  [find_images] returns, in ascending order, the paths of the
    files whose name ends, in any case of the letters, with one of the
    supported extensions: those of the input directory, or with
    [recursive] those of every directory of the walk, each joined to its
    directory.  No other path is returned. *)
Theorem find_images_finds_the_supported_files (Image world : Type)
    (listdir : string -> world -> Py.outcome (list string))
    (walk : string -> world -> list (string * list string))
    (self : BatchProcessor.t Image) (w : world) (images : list string) :
  BatchProcessor.find_images Image world listdir walk self w = Py.Return images ->
  StronglySorted BatchProcessor.str_le images
  /\ forall path,
       path ∈ images <->
       exists root files file,
         (if BatchProcessor.recursive self
          then (root, files) ∈ walk (BatchProcessor.input_dir self) w
          else root = BatchProcessor.input_dir self
               /\ listdir (BatchProcessor.input_dir self) w = Py.Return files)
         /\ file ∈ files
         /\ BatchProcessor.is_image file = true
         /\ path = BatchProcessor.path_join root file.
Proof.
  unfold BatchProcessor.find_images.
  destruct (BatchProcessor.recursive self).
  - intros [= <-]. split; [apply sorted_spec|].
    intros path. rewrite (proj2 (sorted_spec _)), list_elem_of_bind. split.
    + intros ([root files] & Hin & Hwalk). apply elem_of_images_in in Hin.
      destruct Hin as (file & Hfile & Himg & ->). now exists root, files, file.
    + intros (root & files & file & Hwalk & Hfile & Himg & ->).
      exists (root, files). split; [|exact Hwalk].
      apply elem_of_images_in. now exists file.
  - destruct (listdir (BatchProcessor.input_dir self) w) as [files|e]; [|discriminate].
    intros [= <-]. split; [apply sorted_spec|].
    intros path. rewrite (proj2 (sorted_spec _)), elem_of_images_in. split.
    + intros (file & Hfile & Himg & ->).
      now exists (BatchProcessor.input_dir self), files, file.
    + intros (root & files' & file & [-> [= <-]] & Hfile & Himg & ->). now exists file.
Qed.

Lemma find_images_finds_the_supported_files_witness :
  BatchProcessor.find_images Sample.Image unit Sample.listdir Sample.walk
    (Sample.batch true) tt
  = Py.Return ["in/a.jpg"; "in/b.PNG"; "in/sub/a.jpg"]
  /\ StronglySorted BatchProcessor.str_le ["in/a.jpg"; "in/b.PNG"; "in/sub/a.jpg"].
Proof.
  assert (BatchProcessor.find_images Sample.Image unit Sample.listdir Sample.walk
            (Sample.batch true) tt
          = Py.Return ["in/a.jpg"; "in/b.PNG"; "in/sub/a.jpg"]) as H
    by (vm_compute; reflexivity).
  split; [exact H|].
  exact (proj1 (find_images_finds_the_supported_files Sample.Image unit Sample.listdir
                  Sample.walk (Sample.batch true) tt _ H)).
Defined.

(** X25.  [process_all] processes every image that [find_images] found,
    once and in that order, whatever happens to the single images: the
    report has one result for each path, [total] is their number,
    [successful] and [failed] count the results of each status and add up
    to [total], and the report has an [error] entry exactly when no image
    was found. *)
Theorem process_all_reports_every_image (Image : Type)
    (gaussian_blur enhance_brightness : Py.number -> Image -> Py.outcome Image)
    (find_edges convert_L : Image -> Py.outcome Image)
    (save_step : string -> nat -> string -> Image -> option Py.exn)
    (world : Type)
    (listdir : string -> world -> Py.outcome (list string))
    (walk : string -> world -> list (string * list string))
    (open_image : string -> world -> Py.outcome Image)
    (size : Image -> Z * Z)
    (relpath : string -> string -> Py.outcome string)
    (makedirs_dirname : string -> world -> option Py.exn * world)
    (save : string -> Image -> world -> option Py.exn * world)
    (self : BatchProcessor.t Image) (w : world) (images : list string) :
  BatchProcessor.find_images Image world listdir walk self w = Py.Return images ->
  exists report,
    fst (BatchProcessor.process_all Image gaussian_blur enhance_brightness find_edges
           convert_L save_step world listdir walk open_image size relpath
           makedirs_dirname save self w) = Py.Return report
    /\ BatchProcessor.input_path <$> BatchProcessor.results report = images
    /\ BatchProcessor.total report = length images
    /\ BatchProcessor.successful report
       = length (filter (fun r => BatchProcessor.is_success r = true)
                   (BatchProcessor.results report))
    /\ BatchProcessor.failed report
       = length (filter (fun r => BatchProcessor.is_success r = false)
                   (BatchProcessor.results report))
    /\ (BatchProcessor.successful report + BatchProcessor.failed report)%nat
       = BatchProcessor.total report
    /\ (BatchProcessor.report_error report <> None <-> images = []).
Proof.
  intros Hfind. unfold BatchProcessor.process_all. rewrite Hfind.
  destruct images as [|path images].
  { cbn. eexists. split; [reflexivity|]. cbn. repeat split; auto; discriminate. }
  cbn [length Nat.eqb].
  destruct (process_loop_results Image gaussian_blur enhance_brightness find_edges
              convert_L save_step world open_image size relpath makedirs_dirname save
              self (path :: images) w [] 0%nat 0%nat) as (new & H1 & H2 & H3 & H4).
  destruct (BatchProcessor.process_loop _ _ _ _ _ _ _ _ _ _ _ _ _ _ _ _ _ _)
    as [[[results successful] failed] w'].
  cbn [fst snd Nat.add app] in *. subst results successful failed.
  eexists. split; [reflexivity|].
  cbn [BatchProcessor.results BatchProcessor.total BatchProcessor.successful
         BatchProcessor.failed BatchProcessor.report_error].
  split; [exact H2|]. split; [reflexivity|]. split; [reflexivity|].
  split; [reflexivity|]. split.
  - rewrite length_success_failure.
    change (S (length images)) with (length (path :: images)).
    rewrite <- H2. now rewrite length_fmap.
  - split; [intros H; now destruct H|discriminate].
Qed.

Lemma process_all_reports_every_image_witness :
  exists report,
    fst (BatchProcessor.process_all Sample.Image Sample.gaussian_blur
           Sample.enhance_brightness Sample.find_edges Sample.convert_L
           Sample.save_step unit Sample.listdir Sample.walk Sample.open_image
           Sample.size Sample.relpath Sample.makedirs_dirname Sample.save
           (Sample.batch false) tt) = Py.Return report
    /\ BatchProcessor.input_path <$> BatchProcessor.results report
       = ["in/a.jpg"; "in/b.PNG"].
Proof.
  destruct (process_all_reports_every_image Sample.Image Sample.gaussian_blur
              Sample.enhance_brightness Sample.find_edges Sample.convert_L
              Sample.save_step unit Sample.listdir Sample.walk Sample.open_image
              Sample.size Sample.relpath Sample.makedirs_dirname Sample.save
              (Sample.batch false) tt ["in/a.jpg"; "in/b.PNG"]
              ltac:(vm_compute; reflexivity)) as (report & H1 & H2 & _).
  now exists report.
Defined.

(** X26.  Without [preserve_structure] the output path of an image is the
    output directory joined to the file name alone: two images of the same
    name in different directories, as a recursive search finds them, are
    written to the same output path, the later over the earlier. *)
Theorem same_file_name_same_output_path (Image : Type)
    (gaussian_blur enhance_brightness : Py.number -> Image -> Py.outcome Image)
    (find_edges convert_L : Image -> Py.outcome Image)
    (save_step : string -> nat -> string -> Image -> option Py.exn)
    (world : Type)
    (open_image : string -> world -> Py.outcome Image)
    (size : Image -> Z * Z)
    (relpath : string -> string -> Py.outcome string)
    (makedirs_dirname : string -> world -> option Py.exn * world)
    (save : string -> Image -> world -> option Py.exn * world)
    (self : BatchProcessor.t Image) (root1 root2 file : string) (w1 w2 : world)
    p1 out1 sz1 st1 p2 out2 sz2 st2 :
  BatchProcessor.preserve_structure self = false ->
  (forall k, String.get k file <> Some "/"%char) ->
  fst (BatchProcessor.process_image Image gaussian_blur enhance_brightness find_edges
         convert_L save_step world open_image size relpath makedirs_dirname save
         self (BatchProcessor.path_join root1 file) w1)
    = BatchProcessor.Processed p1 out1 sz1 st1 ->
  fst (BatchProcessor.process_image Image gaussian_blur enhance_brightness find_edges
         convert_L save_step world open_image size relpath makedirs_dirname save
         self (BatchProcessor.path_join root2 file) w2)
    = BatchProcessor.Processed p2 out2 sz2 st2 ->
  out1 = BatchProcessor.path_join (BatchProcessor.output_dir self) file
  /\ out2 = out1.
Proof.
  intros Hflat Hplain H1 H2.
  destruct (process_image_result Image gaussian_blur enhance_brightness find_edges
              convert_L save_step world open_image size relpath makedirs_dirname save
              self (BatchProcessor.path_join root1 file) w1) as [_ Ho1].
  destruct (process_image_result Image gaussian_blur enhance_brightness find_edges
              convert_L save_step world open_image size relpath makedirs_dirname save
              self (BatchProcessor.path_join root2 file) w2) as [_ Ho2].
  destruct (Ho1 _ _ _ _ H1) as (r1 & _ & ->).
  destruct (Ho2 _ _ _ _ H2) as (r2 & _ & ->).
  rewrite Hflat, !basename_path_join by exact Hplain. auto.
Qed.

Lemma same_file_name_same_output_path_witness :
  exists p1 sz1 st1 p2 sz2 st2,
    fst (BatchProcessor.process_image Sample.Image Sample.gaussian_blur
           Sample.enhance_brightness Sample.find_edges Sample.convert_L
           Sample.save_step unit Sample.open_image Sample.size Sample.relpath
           Sample.makedirs_dirname Sample.save (Sample.batch true) "in/a.jpg" tt)
      = BatchProcessor.Processed p1 "out/a.jpg" sz1 st1
    /\ fst (BatchProcessor.process_image Sample.Image Sample.gaussian_blur
              Sample.enhance_brightness Sample.find_edges Sample.convert_L
              Sample.save_step unit Sample.open_image Sample.size Sample.relpath
              Sample.makedirs_dirname Sample.save (Sample.batch true) "in/sub/a.jpg" tt)
       = BatchProcessor.Processed p2 "out/a.jpg" sz2 st2.
Proof.
  do 6 eexists.
  assert (forall k, String.get k "a.jpg" <> Some "/"%char) as Hplain.
  { intros k. do 5 (destruct k as [|k]; [discriminate|]). discriminate. }
  pose proof (same_file_name_same_output_path Sample.Image Sample.gaussian_blur
                Sample.enhance_brightness Sample.find_edges Sample.convert_L
                Sample.save_step unit Sample.open_image Sample.size Sample.relpath
                Sample.makedirs_dirname Sample.save (Sample.batch true)
                "in" "in/sub" "a.jpg" tt tt _ _ _ _ _ _ _ _ eq_refl Hplain
                eq_refl eq_refl) as [_ _].
  split; reflexivity.
Defined.

(** ** The submitter of the demonstration *)

Section DemoSubmitter.
Import Py Redis RedisTaskQueueV2 DemoFullTest.

Variable json_dumps : pyval -> string.

Lemma lrange_lpush (k k' v : string) (d : db) :
  lrange_all k (exec (lpush k' v) d) =
  if decide (k = k') then v :: lrange_all k d else lrange_all k d.
Proof.
  unfold exec, lpush; simpl. rewrite lrange_set_list.
  now destruct (decide (k = k')) as [->|].
Qed.

Lemma lrange_hset_items (k key : string) (items : list (string * pyval)) (d : db) :
  lrange_all k (exec (hset_items json_dumps key items) d) = lrange_all k d.
Proof.
  revert d. induction items as [|[f v] items IH]; intros d; [reflexivity|].
  cbn [hset_items]. now rewrite exec_bind, IH, lrange_hset.
Qed.

Lemma hgetall_hset_items (k key : string) (items : list (string * pyval)) (d : db) :
  (k <> key -> hgetall k (exec (hset_items json_dumps key items) d) = hgetall k d)
  /\ (items <> [] -> hgetall key (exec (hset_items json_dumps key items) d) <> ∅).
Proof.
  split.
  - intros Hne. revert d. induction items as [|[f v] items IH]; intros d; [reflexivity|].
    cbn [hset_items]. rewrite exec_bind, IH, hgetall_hset.
    now rewrite decide_False by exact Hne.
  - intros Hitems.
    assert (forall l d, hgetall key d <> ∅ ->
                        hgetall key (exec (hset_items json_dumps key l) d) <> ∅) as Hkeep.
    { induction l as [|[f v] l IH]; intros d0 H0; [exact H0|].
      cbn [hset_items]. rewrite exec_bind. apply IH.
      rewrite hgetall_hset, decide_True by reflexivity. apply insert_non_empty. }
    destruct items as [|[f v] items]; [now destruct Hitems|].
    cbn [hset_items]. rewrite exec_bind. apply Hkeep.
    rewrite hgetall_hset, decide_True by reflexivity. apply insert_non_empty.
Qed.

Lemma dict_set_not_nil {V} (k : string) (v : V) (l : list (string * V)) :
  WorkerRegistry.dict_set k v l <> [].
Proof.
  destruct l as [|[k' v'] l]; cbn; [discriminate|].
  destruct (String.eqb k' k); discriminate.
Qed.

(** What [send_task] does to the lists and to the hashes. *)
Lemma send_task_effect (uuid4 : string) (task : list (string * pyval)) (d : db) :
  let d' := exec (send_task json_dumps uuid4 task) d in
  reply (send_task json_dumps uuid4 task) d = uuid4
  /\ (forall k, lrange_all k d' =
        if decide (k = pending_key default_queue) then uuid4 :: lrange_all k d
        else lrange_all k d)
  /\ (forall k, k <> task_key default_queue uuid4 -> hgetall k d' = hgetall k d)
  /\ hgetall (task_key default_queue uuid4) d' <> ∅.
Proof.
  cbv zeta. unfold send_task.
  change "image_processing_v2:pending" with (pending_key default_queue).
  change ("image_processing_v2:task:" +:+ uuid4) with (task_key default_queue uuid4).
  rewrite !reply_bind, reply_ret. split; [reflexivity|].
  split; [|split].
  - intros k. now rewrite !exec_bind, exec_ret, lrange_lpush, lrange_hset_items.
  - intros k Hk. rewrite !exec_bind, exec_ret.
    change (hgetall k (exec (lpush (pending_key default_queue) uuid4) ?d0))
      with (hgetall k d0).
    now apply (proj1 (hgetall_hset_items k _ _ _)).
  - rewrite !exec_bind, exec_ret.
    change (hgetall ?k (exec (lpush (pending_key default_queue) uuid4) ?d0))
      with (hgetall k d0).
    apply (proj2 (hgetall_hset_items "" _ _ _)), dict_set_not_nil.
Qed.

End DemoSubmitter.

(** X27.  The submitter of the demonstration pushes at the head of
    [pending], the end opposite to the one [get_task] takes from: two tasks
    sent to an empty queue are handed out in the order in which they were
    sent. *)
Theorem demo_tasks_are_claimed_in_order json_dumps json_loads uuid1 uuid2 task1 task2
    worker_id utcnow timeout d :
  Redis.lrange_all (RedisTaskQueueV2.pending_key RedisTaskQueueV2.default_queue) d = [] ->
  uuid1 <> "" -> uuid2 <> "" -> uuid1 <> uuid2 ->
  let queue := RedisTaskQueueV2.default_queue in
  let claim := RedisTaskQueueV2.get_task json_loads queue worker_id utcnow timeout in
  let d2 := Redis.exec (DemoFullTest.send_task json_dumps uuid2 task2)
              (Redis.exec (DemoFullTest.send_task json_dumps uuid1 task1) d) in
  Redis.lrange_all (RedisTaskQueueV2.pending_key queue) d2 = [uuid2; uuid1]
  /\ Redis.reply claim d2
     = Some (RedisTaskQueueV2.parse_field json_loads
               <$> Redis.hgetall (RedisTaskQueueV2.task_key queue uuid1) d2)
  /\ Redis.reply claim (Redis.exec claim d2)
     = Some (RedisTaskQueueV2.parse_field json_loads
               <$> Redis.hgetall (RedisTaskQueueV2.task_key queue uuid2) d2)
  /\ Redis.lrange_all (RedisTaskQueueV2.processing_key queue)
       (Redis.exec claim (Redis.exec claim d2))
     = uuid2 :: uuid1
         :: Redis.lrange_all (RedisTaskQueueV2.processing_key queue) d.
Proof.
  intros Hempty H1 H2 Hne. cbv zeta.
  set (d1 := Redis.exec (DemoFullTest.send_task json_dumps uuid1 task1) d).
  set (d2 := Redis.exec (DemoFullTest.send_task json_dumps uuid2 task2) d1).
  destruct (send_task_effect json_dumps uuid1 task1 d) as (_ & Hl1 & Hh1 & Hn1).
  destruct (send_task_effect json_dumps uuid2 task2 d1) as (_ & Hl2 & Hh2 & Hn2).
  fold d1 in Hl1, Hh1, Hn1, Hl2, Hh2, Hn2. fold d2 in Hl2, Hh2, Hn2.
  revert Hempty Hl1 Hh1 Hn1 Hl2 Hh2 Hn2.
  generalize RedisTaskQueueV2.default_queue as queue.
  intros queue Hempty Hl1 Hh1 Hn1 Hl2 Hh2 Hn2.
  assert (Redis.lrange_all (RedisTaskQueueV2.pending_key queue) d2 = [uuid2; uuid1])
    as Hp.
  { rewrite Hl2, Hl1, !decide_True by reflexivity. now rewrite Hempty. }
  assert (Redis.hgetall (RedisTaskQueueV2.task_key queue uuid1) d2 <> ∅) as Hn1'.
  { rewrite Hh2; [exact Hn1|].
    intros E. apply task_key_inj in E. now apply Hne. }
  destruct (get_task_some json_loads queue worker_id utcnow timeout d2 [uuid2] uuid1
              Hp H1 Hn1') as (Hr1 & Hl3 & Hh3).
  set (claim := RedisTaskQueueV2.get_task json_loads queue worker_id utcnow timeout)
    in *.
  set (d3 := Redis.exec claim d2) in *.
  assert (Redis.lrange_all (RedisTaskQueueV2.pending_key queue) d3
          = ([] ++ [uuid2])%list) as Hp3.
  { rewrite Hl3. now settle_keys. }
  assert (Redis.hgetall (RedisTaskQueueV2.task_key queue uuid2) d3
          = Redis.hgetall (RedisTaskQueueV2.task_key queue uuid2) d2) as Hsame.
  { rewrite Hh3, decide_False; [reflexivity|].
    intros E. apply task_key_inj in E. now apply Hne. }
  assert (Redis.hgetall (RedisTaskQueueV2.task_key queue uuid2) d3 <> ∅) as Hn2'
    by now rewrite Hsame.
  destruct (get_task_some json_loads queue worker_id utcnow timeout d3 [] uuid2
              Hp3 H2 Hn2') as (Hr2 & Hl4 & _).
  fold claim in Hr2, Hl4.
  split; [exact Hp|]. split; [exact Hr1|]. split; [now rewrite Hr2, Hsame|].
  rewrite Hl4, Hl3. settle_keys. now rewrite Hl2, Hl1; settle_keys.
Qed.

Lemma demo_tasks_are_claimed_in_order_witness :
  Redis.lrange_all (RedisTaskQueueV2.processing_key RedisTaskQueueV2.default_queue)
    (Redis.exec Sample.claim
       (Redis.exec Sample.claim
          (Redis.exec (DemoFullTest.send_task Sample.json_dumps "id-2" [])
             (Redis.exec (DemoFullTest.send_task Sample.json_dumps "id-1" [])
                Redis.empty))))
  = ["id-2"; "id-1"].
Proof.
  apply (demo_tasks_are_claimed_in_order Sample.json_dumps Sample.json_loads
           "id-1" "id-2" [] [] "worker-1" "2024-05-01T10:00:01" 5 Redis.empty);
    [reflexivity|discriminate..].
Defined.
